(** * zoom-pan: the transformation engine and its transform math

    A shallow embedding of [src/renderer/renderer.ts],
    [src/renderer/transform-calculator.ts], the helpers of
    [src/core/utils.ts], [src/helpers/mouse-helpers.ts], the hook
    [src/hooks/useZoomPan.ts], the helpers of [src/helpers/zoomPan.ts] and
    the descriptor readers of the examples, followed by the properties of
    the engine and of the code around it.

    A TypeScript [number] is an IEEE 754 binary64 value.  It is modelled by
    [spec_float] at precision 53 and maximal exponent 1024, so [+], [/],
    comparisons, [NaN], the infinities and the two zeroes behave as they do
    in the program, rounding included.

    Strings are strings of one-byte characters; every string the code
    builds is made of such characters.

    A method of the class mutates [this] and the element it is handed, and
    may write to the console.  Here it is a function from the renderer and
    the parameters to an [Outcome]: the renderer after the call, the element
    after the call and the warnings written.

    The hook and the helpers keep the element they were given and are
    handed others: they know an element by reference.  Their functions take
    the page, which maps the references to the elements, and give it
    back. *)

From Stdlib Require Import ZArith Bool List Lia.
From Stdlib Require Import Ascii String.
From Stdlib Require Import DecimalString DecimalFacts DecimalPos DecimalN.
From Stdlib Require Import Floats.SpecFloat.
Import ListNotations.

Local Open Scope string_scope.
Local Open Scope Z_scope.

(** ** Numbers *)

Definition number : Type := spec_float.

Definition prec : Z := 53.
Definition emax : Z := 1024.

Definition NaN : number := S754_nan.

Declare Scope js_scope.
Delimit Scope js_scope with js.

Definition add (x y : number) : number := SFadd prec emax x y.
Definition div (x y : number) : number := SFdiv prec emax x y.
Definition sub (x y : number) : number := SFsub prec emax x y.
Definition mul (x y : number) : number := SFmul prec emax x y.

Infix "+" := add : js_scope.
Infix "-" := sub : js_scope.
Infix "*" := mul : js_scope.
Infix "/" := div : js_scope.

(** [a < b], [a <= b], [a >= b] and [a !== b] of the language: every
    comparison with [NaN] is false, and the two zeroes are equal. *)
Definition lt (x y : number) : bool := SFltb x y.
Definition le (x y : number) : bool := SFleb x y.
Definition gt (x y : number) : bool := SFltb y x.
Definition ge (x y : number) : bool := SFleb y x.
Definition strict_eq (x y : number) : bool := SFeqb x y.
Definition strict_ne (x y : number) : bool := negb (SFeqb x y).

Definition isNaN (x : number) : bool :=
  match x with S754_nan => true | _ => false end.

(** Structural equality of two values: it tells [+0] from [-0] and makes
    [NaN] equal to itself ([Object.is]). *)
Definition same_value (x y : number) : bool :=
  match x, y with
  | S754_zero s1, S754_zero s2 => Bool.eqb s1 s2
  | S754_infinity s1, S754_infinity s2 => Bool.eqb s1 s2
  | S754_nan, S754_nan => true
  | S754_finite s1 m1 e1, S754_finite s2 m2 e2 =>
      Bool.eqb s1 s2 && Pos.eqb m1 m2 && Z.eqb e1 e2
  | _, _ => false
  end.

(** The double nearest to [n / d] for positive integers (ties to even). *)
Definition round_ratio (sx : bool) (n d : positive) : number :=
  let '(mz, ez, lz) := SFdiv_core_binary prec emax (Zpos n) 0 (Zpos d) 0 in
  binary_round_aux prec emax sx mz ez lz.

(** The double nearest to [(-1)^sx * d * 10^e]: the value of a decimal
    literal with digits [d] and decimal exponent [e]. *)
Definition of_decimal (sx : bool) (d : N) (e : Z) : number :=
  match d with
  | N0 => S754_zero sx
  | Npos p =>
      match e with
      | Zneg k => round_ratio sx p (10 ^ k)%positive
      | _ => binary_round prec emax sx (p * Z.to_pos (10 ^ e))%positive 0
      end
  end.

Definition of_Z (z : Z) : number :=
  match z with
  | Z0 => S754_zero false
  | Zpos p => of_decimal false (Npos p) 0
  | Zneg p => of_decimal true (Npos p) 0
  end.

Module Number.

(** [Number.isFinite]. *)
Definition isFinite (x : number) : bool :=
  match x with
  | S754_zero _ | S754_finite _ _ _ => true
  | S754_infinity _ | S754_nan => false
  end.

End Number.

Module Math.

(** [Math.max(a, b)]: [NaN] if an argument is [NaN]; [+0] is larger than
    [-0]; the scan starts from [-Infinity] and keeps the first of two
    equal arguments. *)
Definition max (a b : number) : number :=
  if isNaN a || isNaN b then NaN
  else match a, b with
       | S754_zero true, S754_zero false => b
       | _, _ => if gt b a then b else a
       end.

(** [Math.min(a, b)], with [-0] smaller than [+0]. *)
Definition min (a b : number) : number :=
  if isNaN a || isNaN b then NaN
  else match a, b with
       | S754_zero false, S754_zero true => b
       | _, _ => if lt b a then b else a
       end.

End Math.

(** ** Strings: the conversions of the language the code relies on

    The functions of this part are not code of the repository.  They are
    what the language does where the code writes a template literal
    ([Number::toString]), [parseFloat], [trim] and [split]: the shortest
    decimal digits that round to the number, laid out as the language lays
    them out, and the value of the longest decimal literal a text starts
    with, rounded to the nearest double. *)

Definition is_digit (c : ascii) : bool :=
  let n := N_of_ascii c in (48 <=? n)%N && (n <=? 57)%N.

(** White space and line terminators, as far as one-byte characters go. *)
Definition is_white_space (c : ascii) : bool :=
  let n := N_of_ascii c in
  (n =? 9)%N || (n =? 10)%N || (n =? 11)%N || (n =? 12)%N || (n =? 13)%N
  || (n =? 32)%N.

Definition is_line_terminator (c : ascii) : bool :=
  let n := N_of_ascii c in (n =? 10)%N || (n =? 13)%N.

Fixpoint string_repeat (c : ascii) (n : nat) : string :=
  match n with
  | O => EmptyString
  | S n' => String c (string_repeat c n')
  end.

Fixpoint string_rev_append (s acc : string) : string :=
  match s with
  | EmptyString => acc
  | String c s' => string_rev_append s' (String c acc)
  end.

Definition string_rev (s : string) : string := string_rev_append s EmptyString.

Fixpoint string_drop (n : nat) (s : string) : string :=
  match n, s with
  | S n', String _ s' => string_drop n' s'
  | _, _ => s
  end.

Fixpoint string_take (n : nat) (s : string) : string :=
  match n, s with
  | S n', String c s' => String c (string_take n' s')
  | _, _ => EmptyString
  end.

(** Decimal digits of a natural number, without leading zeroes. *)
Definition digit_string (n : N) : string :=
  NilZero.string_of_uint (N.to_uint n).

(** *** Number::toString *)

(** The exact value [m * 2^e] of a positive double as a fraction. *)
Definition ratio_of (m : positive) (e : Z) : positive * positive :=
  match e with
  | Zneg k => (m, 2 ^ k)%positive
  | _ => (m * Z.to_pos (2 ^ e), 1)%positive
  end.

(** The least [j >= 1] with [p * 10^j >= q]. *)
Fixpoint leading_zeros (fuel : nat) (p q : positive) : Z :=
  match fuel with
  | O => 1
  | S f =>
      if (q <=? p * 10)%positive then 1
      else 1 + leading_zeros f (p * 10)%positive q
  end.

(** The integer [n] with [10^(n-1) <= p/q < 10^n]. *)
Definition magnitude (p q : positive) : Z :=
  if (q <=? p)%positive
  then Z.of_nat (Decimal.nb_digits (N.to_uint (Z.to_N (Zpos p / Zpos q))))
  else 1 - leading_zeros 400 p q.

(** [s] has [k] digits and [s * 10^(n-k)] rounds to [x]. *)
Definition digits_ok (x : number) (k n s : Z) : bool :=
  (10 ^ (k - 1) <=? s) && (s <? 10 ^ k)
  && same_value (of_decimal false (Z.to_N s) (n - k)) x.

(** The [k]-digit integer [s] nearest to [p/q * 10^(k-n)] for which
    [s * 10^(n-k)] rounds to [x], if there is one. *)
Definition candidate (x : number) (p q : positive) (k n : Z) : option Z :=
  let sh := k - n in
  let num := match sh with Zneg _ => Zpos p | _ => Zpos p * 10 ^ sh end in
  let den := match sh with Zneg _ => Zpos q * 10 ^ (- sh) | _ => Zpos q end in
  let s_lo := num / den in
  let r := num mod den in
  let s_hi := s_lo + 1 in
  let prefer_hi :=
    match 2 * r ?= den with Gt => true | Eq => Z.odd s_lo | Lt => false end in
  match digits_ok x k n s_lo, digits_ok x k n s_hi with
  | true, true => Some (if prefer_hi then s_hi else s_lo)
  | true, false => Some s_lo
  | false, true => Some s_hi
  | false, false => None
  end.

(** Search for the least number of digits [k] (from [k] on), giving
    [(s, k, n)] with [s * 10^(n-k)] rounding to [x]. *)
Fixpoint shortest (fuel : nat) (x : number) (p q : positive) (n k : Z)
  : option (Z * Z * Z) :=
  match fuel with
  | O => None
  | S f =>
      match candidate x p q k n with
      | Some s => Some (s, k, n)
      | None =>
          match candidate x p q k (n + 1) with
          | Some s => Some (s, k, n + 1)
          | None => shortest f x p q n (k + 1)
          end
      end
  end.

(** Steps 7 to 11 of Number::toString for radix 10. *)
Definition format_digits (s k n : Z) : string :=
  let ds := digit_string (Z.to_N s) in
  if (k <=? n) && (n <=? 21) then
    ds ++ string_repeat "0" (Z.to_nat (n - k))
  else if (0 <? n) && (n <=? 21) then
    string_take (Z.to_nat n) ds ++ "." ++ string_drop (Z.to_nat n) ds
  else if (-6 <? n) && (n <=? 0) then
    "0." ++ string_repeat "0" (Z.to_nat (- n)) ++ ds
  else
    let e := n - 1 in
    let es := (if e <? 0 then "-" else "+") ++ digit_string (Z.to_N (Z.abs e)) in
    if k =? 1 then ds ++ "e" ++ es
    else string_take 1 ds ++ "." ++ string_drop 1 ds ++ "e" ++ es.

(** The digits of a positive double.  The search stops at the least
    number of digits that works, which is 17 at most for a double; its
    bound of 800 digits is beyond the exact decimal expansion of every
    double (767 digits at most), with which it would stop at the latest. *)
Definition positive_toString (m : positive) (e : Z) : string :=
  let x := S754_finite false m e in
  let '(p, q) := ratio_of m e in
  let n := magnitude p q in
  match shortest 800 x p q n 1 with
  | Some (s, k, n') => format_digits s k n'
  | None =>
      (* not reached for a double *)
      format_digits (Zpos p * 10 ^ (17 - n) / (Zpos q * 10 ^ (n - 17))) 17 n
  end.

(** [`${x}`] and [String(x)] for a number [x]. *)
Definition toString (x : number) : string :=
  match x with
  | S754_nan => "NaN"
  | S754_zero _ => "0"
  | S754_infinity s => if s then "-Infinity" else "Infinity"
  | S754_finite s m e =>
      (if s then "-" else "") ++ positive_toString m e
  end.

(** *** parseFloat *)

Fixpoint read_digits (s : string) (acc : N) (cnt : Z) : N * Z * string :=
  match s with
  | String c s' =>
      if is_digit c
      then read_digits s' (acc * 10 + (N_of_ascii c - 48))%N (cnt + 1)
      else (acc, cnt, s)
  | EmptyString => (acc, cnt, s)
  end.

Fixpoint trimStart (s : string) : string :=
  match s with
  | String c s' => if is_white_space c then trimStart s' else s
  | EmptyString => s
  end.

Definition trimEnd (s : string) : string :=
  string_rev (trimStart (string_rev s)).

(** [String.prototype.trim]. *)
Definition trim (s : string) : string := trimEnd (trimStart s).

(** The exponent part [e], [e+] or [e-] followed by digits; [0] when the
    text does not go on with a well-formed exponent part. *)
Definition read_exponent (s : string) : Z :=
  match s with
  | String c r =>
      if Ascii.eqb c "e" || Ascii.eqb c "E" then
        let '(neg_e, r') :=
          match r with
          | String c' r'' =>
              if Ascii.eqb c' "-" then (true, r'')
              else if Ascii.eqb c' "+" then (false, r'')
              else (false, r)
          | EmptyString => (false, r)
          end in
        let '(ex, ne, _) := read_digits r' 0%N 0 in
        if ne =? 0 then 0 else if neg_e then - Z.of_N ex else Z.of_N ex
      else 0
  | EmptyString => 0
  end.

(** The longest prefix that is a StrUnsignedDecimalLiteral, and its value. *)
Definition read_unsigned (sx : bool) (s : string) : number :=
  if prefix "Infinity" s then S754_infinity sx
  else
    let '(i, ni, r1) := read_digits s 0%N 0 in
    let '(d, nf, r2) :=
      match r1 with
      | String c r =>
          if Ascii.eqb c "." then
            let '(d, nf, r2) := read_digits r i 0 in
            (* a lone point after no digit is not part of the literal *)
            if (ni =? 0) && (nf =? 0) then (i, 0, r1) else (d, nf, r2)
          else (i, 0, r1)
      | EmptyString => (i, 0, r1)
      end in
    if ni + nf =? 0 then NaN
    else of_decimal sx d (read_exponent r2 - nf).

(** [parseFloat(string)]. *)
Definition parseFloat (input : string) : number :=
  match trimStart input with
  | String c r =>
      if Ascii.eqb c "-" then read_unsigned true r
      else if Ascii.eqb c "+" then read_unsigned false r
      else read_unsigned false (String c r)
  | EmptyString => NaN
  end.

(** [String.prototype.split] with a one-character separator. *)
Fixpoint split (sep : ascii) (s : string) : list string :=
  match s with
  | EmptyString => [EmptyString]
  | String c s' =>
      if Ascii.eqb c sep then EmptyString :: split sep s'
      else match split sep s' with
           | h :: t => String c h :: t
           | [] => [String c EmptyString]
           end
  end.

(** ** src/core/types.ts *)

Record ITransformation : Type := {
  originX : number;
  originY : number;
  translateX : number;
  translateY : number;
  scale : number
}.

(** An optional property [p?: number] of an object literal that is spread
    into another one: the property is left out, or it is there, holding
    [undefined] or a number.  Read, the first two both give [undefined];
    spread, only the second one overrides an earlier property. *)
Inductive Optional : Type :=
| Absent
| Undefined
| Value (n : number).

Record IRendererConfig : Type := {
  minScale : number;
  maxScale : number;
  scaleSensitivity : Optional   (* [scaleSensitivity?: number] *)
}.

(** The part of an [HTMLElement] the engine writes: two style properties. *)
Record CSSStyleDeclaration : Type := {
  transformOrigin : string;
  transform : string
}.

Record HTMLElement : Type := { style : CSSStyleDeclaration }.

Module IZoomParams.
Record t : Type := {
  element : HTMLElement;
  x : number;
  y : number;
  deltaScale : number
}.
End IZoomParams.

Module IPanByParams.
Record t : Type := {
  element : HTMLElement;
  originX : number;
  originY : number
}.
End IPanByParams.

Module IPanToParams.
Record t : Type := {
  element : HTMLElement;
  originX : number;
  originY : number;
  scale : option number   (* [scale?: number] *)
}.
End IPanToParams.

(** The property read and used as a number: [undefined] is [NaN]. *)
Definition to_number (o : Optional) : number :=
  match o with
  | Value n => n
  | Undefined | Absent => NaN
  end.

(** ** src/core/utils.ts *)

Definition clamp (value min max : number) : number :=
  Math.max min (Math.min value max).

Definition hasPositionChanged (pos prevPos : number) : bool :=
  strict_ne pos prevPos.

Definition isScaleInRange (scale minScale maxScale : number) : bool :=
  ge scale minScale && le scale maxScale.

(** ** src/renderer/transform-calculator.ts *)

Module calc.

Definition calculateScale
    (scale deltaScale minScale maxScale scaleSensitivity : number)
  : number * number :=
  let oldScale := scale in
  let newScale := (scale + deltaScale / (scaleSensitivity / scale))%js in
  let newScale := clamp newScale minScale maxScale in
  (oldScale, newScale).

Definition calculateTranslate
    (pos prevPos translate scale minScale maxScale : number) : number :=
  let isValid :=
    isScaleInRange scale minScale maxScale
    && hasPositionChanged pos prevPos in
  if negb isValid then translate
  else (translate + (pos - prevPos * scale) * (of_Z 1 - of_Z 1 / scale))%js.

Definition getMatrixTransform (scale translateX translateY : number)
  : string :=
  "matrix(" ++ toString scale ++ ", 0, 0, " ++ toString scale ++ ", "
    ++ toString translateX ++ ", " ++ toString translateY ++ ")".

Definition calculateTransformOrigin (pos scale : number) : number :=
  (pos / scale)%js.

Definition isValidTransformation (scale translateX translateY : number)
  : bool :=
  Number.isFinite scale
  && Number.isFinite translateX
  && Number.isFinite translateY.

End calc.

(** ** src/renderer/renderer.ts *)

(** What a method call leaves behind: the renderer, the element it was
    handed, and the warnings it wrote to the console. *)
Record Outcome (A : Type) : Type := {
  this : A;
  target : HTMLElement;
  warnings : list string
}.
Arguments this {A} _.
Arguments target {A} _.
Arguments warnings {A} _.

Module Renderer.

Record t : Type := {
  state : ITransformation;
  config : IRendererConfig;
  isActiveFlag : bool
}.

Definition getInitialState : ITransformation :=
  {| originX := of_Z 0;
     originY := of_Z 0;
     translateX := of_Z 0;
     translateY := of_Z 0;
     scale := of_Z 1 |}.

(** [this.config = { scaleSensitivity: 10, ...config }]: the [10] stays
    only when [config] has no property [scaleSensitivity] of its own; one
    that holds [undefined] is copied over it like any other. *)
Definition constructor (config : IRendererConfig) : t :=
  {| config :=
       {| minScale := minScale config;
          maxScale := maxScale config;
          scaleSensitivity :=
            match scaleSensitivity config with
            | Absent => Value (of_Z 10)
            | Undefined => Undefined
            | Value s => Value s
            end |};
     state := getInitialState;
     isActiveFlag := true |}.

Definition set_state (this : t) (s : ITransformation) : t :=
  {| state := s; config := config this; isActiveFlag := isActiveFlag this |}.

Definition set_scale (s : ITransformation) (v : number) : ITransformation :=
  {| originX := originX s; originY := originY s;
     translateX := translateX s; translateY := translateY s;
     scale := v |}.

Definition set_translateX (s : ITransformation) (v : number)
  : ITransformation :=
  {| originX := originX s; originY := originY s;
     translateX := v; translateY := translateY s;
     scale := scale s |}.

Definition set_translateY (s : ITransformation) (v : number)
  : ITransformation :=
  {| originX := originX s; originY := originY s;
     translateX := translateX s; translateY := v;
     scale := scale s |}.

Definition warning : string := "[Renderer] Invalid transformation values".

Definition applyTransform (this : t) (element : HTMLElement)
  : Outcome t :=
  let s := state this in
  if negb (calc.isValidTransformation (scale s) (translateX s) (translateY s))
  then {| this := this; target := element; warnings := [warning] |}
  else
    let origin := toString (originX s) ++ "px " ++ toString (originY s) ++ "px" in
    let matrix := calc.getMatrixTransform (scale s) (translateX s) (translateY s) in
    {| this := this;
       target := {| style := {| transformOrigin := origin; transform := matrix |} |};
       warnings := [] |}.

Definition zoom (this : t) (params : IZoomParams.t) : Outcome t :=
  if negb (isActiveFlag this)
  then {| this := this; target := IZoomParams.element params; warnings := [] |}
  else
    let element := IZoomParams.element params in
    let deltaScale := IZoomParams.deltaScale params in
    let newScale :=
      (scale (state this)
       + deltaScale / to_number (scaleSensitivity (config this)))%js in
    let this :=
      set_state this
        (set_scale (state this)
           (Math.max (minScale (config this))
              (Math.min (maxScale (config this)) newScale))) in
    applyTransform this element.

Definition panBy (this : t) (params : IPanByParams.t) : Outcome t :=
  if negb (isActiveFlag this)
  then {| this := this; target := IPanByParams.element params; warnings := [] |}
  else
    let element := IPanByParams.element params in
    let originX := IPanByParams.originX params in
    let originY := IPanByParams.originY params in
    let this :=
      set_state this
        (set_translateX (state this) (translateX (state this) + originX)%js) in
    let this :=
      set_state this
        (set_translateY (state this) (translateY (state this) + originY)%js) in
    applyTransform this element.

Definition panTo (this : t) (params : IPanToParams.t) : Outcome t :=
  if negb (isActiveFlag this)
  then {| this := this; target := IPanToParams.element params; warnings := [] |}
  else
    let element := IPanToParams.element params in
    let originX := IPanToParams.originX params in
    let originY := IPanToParams.originY params in
    let this :=
      match IPanToParams.scale params with
      | Some scale =>
          set_state this
            (set_scale (state this)
               (Math.max (minScale (config this))
                  (Math.min (maxScale (config this)) scale)))
      | None => this
      end in
    let this := set_state this (set_translateX (state this) originX) in
    let this := set_state this (set_translateY (state this) originY) in
    applyTransform this element.

Definition reset (this : t) : t :=
  if negb (isActiveFlag this) then this
  else set_state this getInitialState.

(** [{ ...this.state }]: a copy, a value here. *)
Definition getState (this : t) : ITransformation := state this.

Definition isActive (this : t) : bool := isActiveFlag this.

Definition destroy (this : t) : t :=
  {| state := state this; config := config this; isActiveFlag := false |}.

End Renderer.

(** ** Reading a descriptor back (examples: [updateStats], [updateState]) *)

(** [(.+)\)] matched greedily at the start of [s]: the longest run of at
    least one character, none a line terminator, that a [")"] follows. *)
Fixpoint dot_plus_paren (s : string) : option string :=
  match s with
  | EmptyString => None
  | String c s' =>
      if is_line_terminator c then None
      else match dot_plus_paren s' with
           | Some cap => Some (String c cap)
           | None =>
               match s' with
               | String c' _ =>
                   if Ascii.eqb c' ")" then Some (String c EmptyString)
                   else None
               | EmptyString => None
               end
           end
  end.

(** [transform.match(/matrix\((.+)\)/)]: the first group of the leftmost
    match, or [None] for [null]. *)
Fixpoint match_matrix (s : string) : option string :=
  match s with
  | EmptyString => None
  | String _ s' =>
      match (if prefix "matrix(" s then dot_plus_paren (string_drop 7 s)
             else None) with
      | Some cap => Some cap
      | None => match_matrix s'
      end
  end.

(** [match[1].split(',').map(v => parseFloat(v.trim()))]. *)
Definition matrixValues (transform : string) : option (list number) :=
  match match_matrix transform with
  | Some group => Some (map (fun v => parseFloat (trim v)) (split "," group))
  | None => None
  end.

(** ** Runs of calls *)

(** A run of [zoom] calls, each handed its own parameters. *)
Definition zooms (r : Renderer.t) (ps : list IZoomParams.t) : Renderer.t :=
  fold_left (fun r p => this (Renderer.zoom r p)) ps r.

(** The same call [n] times over. *)
Definition zoom_times (n : nat) (p : IZoomParams.t) (r : Renderer.t)
  : Renderer.t :=
  Nat.iter n (fun r => this (Renderer.zoom r p)) r.

(** [minScale <= scale && scale <= maxScale] on the current state. *)
Definition scale_in_bounds (r : Renderer.t) : bool :=
  le (minScale (Renderer.config r)) (scale (Renderer.state r))
  && le (scale (Renderer.state r)) (maxScale (Renderer.config r)).

(** [x] is [+0] or [-0]. *)
Definition is_zero (x : number) : bool :=
  match x with S754_zero _ => true | _ => false end.

(** A call of any kind, and a run of such calls. *)
Inductive Call : Type :=
| CallZoom (params : IZoomParams.t)
| CallPanBy (params : IPanByParams.t)
| CallPanTo (params : IPanToParams.t)
| CallReset
| CallDestroy.

Definition invoke (r : Renderer.t) (c : Call) : Renderer.t :=
  match c with
  | CallZoom p => this (Renderer.zoom r p)
  | CallPanBy p => this (Renderer.panBy r p)
  | CallPanTo p => this (Renderer.panTo r p)
  | CallReset => Renderer.reset r
  | CallDestroy => Renderer.destroy r
  end.

Definition run (r : Renderer.t) (cs : list Call) : Renderer.t :=
  fold_left invoke cs r.

(** An active engine whose bounds are finite and ordered, whose
    sensitivity is a finite number other than zero, and whose scale is
    finite: what the constructor gives for such a configuration, and what
    every call of [zoom] with a delta other than [NaN] keeps. *)
Definition well_configured (r : Renderer.t) : Prop :=
  Renderer.isActiveFlag r = true
  /\ Number.isFinite (minScale (Renderer.config r)) = true
  /\ Number.isFinite (maxScale (Renderer.config r)) = true
  /\ le (minScale (Renderer.config r)) (maxScale (Renderer.config r)) = true
  /\ Number.isFinite (to_number (scaleSensitivity (Renderer.config r))) = true
  /\ is_zero (to_number (scaleSensitivity (Renderer.config r))) = false
  /\ Number.isFinite (scale (Renderer.state r)) = true.

(** The state as [applyTransform] judges it. *)
Definition valid_state (s : ITransformation) : bool :=
  calc.isValidTransformation (scale s) (translateX s) (translateY s).

(** [x] survives being written into a descriptor and read back: the text
    of [x] parses to a number [===] to [x]. *)
Definition reads_back (x : number) : bool :=
  strict_eq (parseFloat (toString x)) x.

(** A double in its one representation: what every number of the program
    is. *)
Definition is_double (x : number) : bool := valid_binary prec emax x.

(** What the text of a number stands for: the number itself, but [+0] for
    [-0], since both zeroes are written [0]. *)
Definition without_zero_sign (x : number) : number :=
  match x with
  | S754_zero _ => S754_zero false
  | _ => x
  end.

(** Every character of [s] passes [P]. *)
Fixpoint string_forall (P : ascii -> bool) (s : string) : bool :=
  match s with
  | EmptyString => true
  | String c s' => P c && string_forall P s'
  end.

(** Neither a comma, nor a closing parenthesis, nor white space: what the
    text of a number is made of. *)
Definition plain_char (c : ascii) : bool :=
  negb (Ascii.eqb c ",") && negb (Ascii.eqb c ")") && negb (is_white_space c).

(** What [(.+)] may run over before the closing parenthesis of a
    descriptor: no parenthesis and no line terminator. *)
Definition inner_char (c : ascii) : bool :=
  negb (Ascii.eqb c ")") && negb (is_line_terminator c).

(** [Array.prototype.join(",")] on a list of strings that is not empty. *)
Fixpoint join_commas (parts : list string) : string :=
  match parts with
  | [] => EmptyString
  | [a] => a
  | a :: rest => a ++ String "," (join_commas rest)
  end.

(** [m * 2^n] on mantissas, for [n >= 0]. *)
Definition shl (m : positive) (n : Z) : positive :=
  match n with
  | Zpos p => Pos.iter xO m p
  | _ => m
  end.

(** The double of a positive integer below [2^53]: its mantissa shifted up
    to 53 bits. *)
Definition canonical (sx : bool) (m : positive) : number :=
  S754_finite sx (shl m (53 - Zpos (digits2_pos m)))
    (Zpos (digits2_pos m) - 53).

(** [Number.isSafeInteger] on an integer. *)
Definition safe_integer (z : Z) : Prop := Z.abs z < 2 ^ 53.

(** The integers [x], [a], [c] and every sum that panning from [x] by [a]
    and then by [c], or by [a + c] at once, forms are safe integers. *)
Definition safe_sums (x a c : Z) : Prop :=
  safe_integer x /\ safe_integer a /\ safe_integer c
  /\ safe_integer (a + c) /\ safe_integer (x + a)
  /\ safe_integer (x + a + c).

(** The number that the digits [d] make after the digits read so far. *)
Fixpoint uint_acc (d : Decimal.uint) (acc : N) : N :=
  match d with
  | Decimal.Nil => acc
  | Decimal.D0 l => uint_acc l (acc * 10 + 0)%N
  | Decimal.D1 l => uint_acc l (acc * 10 + 1)%N
  | Decimal.D2 l => uint_acc l (acc * 10 + 2)%N
  | Decimal.D3 l => uint_acc l (acc * 10 + 3)%N
  | Decimal.D4 l => uint_acc l (acc * 10 + 4)%N
  | Decimal.D5 l => uint_acc l (acc * 10 + 5)%N
  | Decimal.D6 l => uint_acc l (acc * 10 + 6)%N
  | Decimal.D7 l => uint_acc l (acc * 10 + 7)%N
  | Decimal.D8 l => uint_acc l (acc * 10 + 8)%N
  | Decimal.D9 l => uint_acc l (acc * 10 + 9)%N
  end.

(** ** Values of the tests and scenarios *)

(** [{ minScale: 0.1, maxScale: 10, scaleSensitivity: 10 }]. *)
Definition test_config : IRendererConfig :=
  {| minScale := of_decimal false 1 (-1);
     maxScale := of_Z 10;
     scaleSensitivity := Value (of_Z 10) |}.

Definition blank : HTMLElement :=
  {| style := {| transformOrigin := ""; transform := "" |} |}.

Definition zoom_params (element : HTMLElement) (x y deltaScale : number)
  : IZoomParams.t :=
  {| IZoomParams.element := element;
     IZoomParams.x := x;
     IZoomParams.y := y;
     IZoomParams.deltaScale := deltaScale |}.

Definition panBy_params (element : HTMLElement) (originX originY : number)
  : IPanByParams.t :=
  {| IPanByParams.element := element;
     IPanByParams.originX := originX;
     IPanByParams.originY := originY |}.

Definition panTo_params (element : HTMLElement) (originX originY : number)
    (scale : option number) : IPanToParams.t :=
  {| IPanToParams.element := element;
     IPanToParams.originX := originX;
     IPanToParams.originY := originY;
     IPanToParams.scale := scale |}.

(** ** More of src/core/utils.ts *)

Definition lerp (start end_ t : number) : number :=
  (start * (of_Z 1 - t) + end_ * t)%js.

(** [throttle(fn, interval)]: the closure keeps [lastCallTime], which
    starts at [0].  A call is handed the reading of [Date.now()] and its
    arguments; it gives back the arguments if [fn] is run with them, and
    the closure after the call. *)
Module throttle.

Record t : Type := { interval : number; lastCallTime : number }.

Definition create (interval : number) : t :=
  {| interval := interval; lastCallTime := of_Z 0 |}.

Definition call {A : Type} (this : t) (now : number) (args : A)
  : option A * t :=
  if ge (now - lastCallTime this)%js (interval this)
  then (Some args, {| interval := interval this; lastCallTime := now |})
  else (None, this).

(** The calls of a run that [fn] sees, in order, with the reading of the
    clock at each. *)
Fixpoint calls {A : Type} (this : t) (run : list (number * A))
  : list (number * A) :=
  match run with
  | [] => []
  | (now, args) :: rest =>
      match call this now args with
      | (Some a, this') => (now, a) :: calls this' rest
      | (None, this') => calls this' rest
      end
  end.

End throttle.

(** ** DOM events *)

(** The attributes of a [MouseEvent] that the library reads.  [button] and
    [buttons] are integers ([short] and [unsigned short] in the DOM). *)
Module MouseEvent.
Record t : Type := {
  button : Z;
  buttons : Z;
  clientX : number;
  clientY : number;
  pageX : number;
  pageY : number;
  movementX : number;
  movementY : number;
  ctrlKey : bool;
  shiftKey : bool;
  altKey : bool;
  metaKey : bool
}.
End MouseEvent.

(** A [WheelEvent] is a [MouseEvent] with the scroll deltas. *)
Module WheelEvent.
Record t : Type := {
  mouse : MouseEvent.t;
  deltaY : number
}.
End WheelEvent.

(** [{ movementX, movementY }]. *)
Module Movement.
Record t : Type := { movementX : number; movementY : number }.
End Movement.

(** ** Operators of the language on integers *)

(** [ToInt32]: the integer modulo [2^32], read as a signed 32-bit value. *)
Definition ToInt32 (z : Z) : Z := (z + 2 ^ 31) mod 2 ^ 32 - 2 ^ 31.

(** [a << b]: the shift count is [b] modulo 32, the result a signed 32-bit
    value. *)
Definition shift_left (a b : Z) : Z :=
  ToInt32 (Z.shiftl (ToInt32 a) (b mod 32)).

(** [a & b] on signed 32-bit values. *)
Definition bit_and (a b : Z) : Z := Z.land (ToInt32 a) (ToInt32 b).

(** [Boolean(n)] for an integer [n]. *)
Definition Boolean (n : Z) : bool := negb (Z.eqb n 0).

(** [a || b] on numbers: [a] unless it is [0], [-0] or [NaN]. *)
Definition or_else (a b : number) : number :=
  if is_zero a || isNaN a then b else a.

(** [Math.sign]. *)
Definition sign (x : number) : number :=
  match x with
  | S754_nan | S754_zero _ => x
  | S754_infinity s | S754_finite s _ _ =>
      if s then of_Z (-1) else of_Z 1
  end.

(** ** src/helpers/mouse-helpers.ts *)

Module MouseButton.
Definition Left : Z := 0.
Definition Middle : Z := 1.
Definition Right : Z := 2.
Definition Back : Z := 3.
Definition Forward : Z := 4.
End MouseButton.

(** The table [buttons]: the property of key [which], if there is one. *)
Definition buttons (which : Z) : option string :=
  if Z.eqb which MouseButton.Left then Some "Left"
  else if Z.eqb which MouseButton.Middle then Some "Middle"
  else if Z.eqb which MouseButton.Right then Some "Right"
  else if Z.eqb which MouseButton.Back then Some "Back"
  else if Z.eqb which MouseButton.Forward then Some "Forward"
  else None.

Definition whichMouseButton (event : MouseEvent.t) : Z :=
  MouseEvent.button event.

Definition isLeftButton (event : MouseEvent.t) : bool :=
  Z.eqb (MouseEvent.button event) MouseButton.Left.

Definition isMiddleButton (event : MouseEvent.t) : bool :=
  Z.eqb (MouseEvent.button event) MouseButton.Middle.

Definition isRightButton (event : MouseEvent.t) : bool :=
  Z.eqb (MouseEvent.button event) MouseButton.Right.

Definition isBackButton (event : MouseEvent.t) : bool :=
  Z.eqb (MouseEvent.button event) MouseButton.Back.

Definition isForwardButton (event : MouseEvent.t) : bool :=
  Z.eqb (MouseEvent.button event) MouseButton.Forward.

Definition isButtonPressed (event : MouseEvent.t) (button : Z) : bool :=
  Boolean (bit_and (MouseEvent.buttons event) (shift_left 1 button)).

Definition isLeftPressed (event : MouseEvent.t) : bool :=
  isButtonPressed event 0.

Definition isRightPressed (event : MouseEvent.t) : bool :=
  isButtonPressed event 2.

Definition isMiddlePressed (event : MouseEvent.t) : bool :=
  isButtonPressed event 1.

Module MouseState.
Record t : Type := {
  button : Z;
  buttons : Z;
  leftPressed : bool;
  rightPressed : bool;
  middlePressed : bool
}.
End MouseState.

Definition getMouseState (event : MouseEvent.t) : MouseState.t :=
  {| MouseState.button := MouseEvent.button event;
     MouseState.buttons := MouseEvent.buttons event;
     MouseState.leftPressed := isLeftPressed event;
     MouseState.rightPressed := isRightPressed event;
     MouseState.middlePressed := isMiddlePressed event |}.

(** [Reflect.get(buttons, which) ?? 'Unknown']. *)
Definition getButtonName (which : Z) : string :=
  match buttons which with
  | Some name => name
  | None => "Unknown"
  end.

Definition getMouseMovement (event : MouseEvent.t) : Movement.t :=
  {| Movement.movementX := MouseEvent.movementX event;
     Movement.movementY := MouseEvent.movementY event |}.

Definition getWheelDelta (event : WheelEvent.t) : number :=
  WheelEvent.deltaY event.

Definition isCtrlKey (event : MouseEvent.t) : bool := MouseEvent.ctrlKey event.

Definition isShiftKey (event : MouseEvent.t) : bool :=
  MouseEvent.shiftKey event.

Definition isMiddleClick (event : MouseEvent.t) : bool :=
  isMiddleButton event.

Definition getMovementDelta (event : MouseEvent.t) : Movement.t :=
  {| Movement.movementX := or_else (MouseEvent.movementX event) (of_Z 0);
     Movement.movementY := or_else (MouseEvent.movementY event) (of_Z 0) |}.

(** ** The page *)

(** An element is known to the code by reference.  The page maps the
    references to the elements as they are, and holds what was written to
    the console. *)
Definition Ref : Type := nat.

Record Page : Type := {
  elements : Ref -> HTMLElement;
  console : list string
}.

(** A method of the renderer was handed the element [ref] of the page and
    left the outcome [o]. *)
Definition commit {A : Type} (page : Page) (ref : Ref) (o : Outcome A)
  : Page :=
  {| elements := fun k => if Nat.eqb k ref then target o else elements page k;
     console := (console page ++ warnings o)%list |}.

(** ** src/hooks/useZoomPan.ts *)

Module IUseZoomPanConfig.
Record t : Type := {
  element : Ref;
  minScale : option number;
  maxScale : option number;
  scaleSensitivity : option number
}.
End IUseZoomPanConfig.

(** What [zoom] is called with when it is not a [WheelEvent]: the fields of
    [IZoomParams], of which callers leave [element] out or not. *)
Module ZoomCall.
Record t : Type := {
  element : option Ref;
  x : number;
  y : number;
  deltaScale : number
}.
End ZoomCall.

Module PanToCall.
Record t : Type := {
  x : number;
  y : number;
  scale : option number   (* [scale?: number] *)
}.
End PanToCall.

(** The default of a destructured property: used when it is [undefined]. *)
Definition default (d : number) (o : option number) : number :=
  match o with
  | Some v => v
  | None => d
  end.

Module useZoomPan.

(** The closure of the hook: its renderer and its element. *)
Record t : Type := {
  renderer : Renderer.t;
  element : Ref
}.

Definition create (config : IUseZoomPanConfig.t) : t :=
  let minScale :=
    default (of_decimal false 1 (-1)) (IUseZoomPanConfig.minScale config) in
  let maxScale := default (of_Z 30) (IUseZoomPanConfig.maxScale config) in
  let scaleSensitivity :=
    default (of_Z 50) (IUseZoomPanConfig.scaleSensitivity config) in
  {| renderer :=
       Renderer.constructor
         {| minScale := minScale;
            maxScale := maxScale;
            scaleSensitivity := Value scaleSensitivity |};
     element := IUseZoomPanConfig.element config |}.

Definition set_renderer (api : t) (r : Renderer.t) : t :=
  {| renderer := r; element := element api |}.

(** [zoom(event)]: [inl] is a [WheelEvent].  In the other branch
    [{ element, ...event }] takes the element of the call if it has one. *)
Definition zoom (api : t) (event : WheelEvent.t + ZoomCall.t) (page : Page)
  : t * Page :=
  match event with
  | inl event =>
      let ref := element api in
      let o :=
        Renderer.zoom (renderer api)
          {| IZoomParams.element := elements page ref;
             IZoomParams.deltaScale :=
               if gt (sign (WheelEvent.deltaY event)) (of_Z 0)
               then of_Z (-1) else of_Z 1;
             IZoomParams.x := MouseEvent.pageX (WheelEvent.mouse event);
             IZoomParams.y := MouseEvent.pageY (WheelEvent.mouse event) |} in
      (set_renderer api (this o), commit page ref o)
  | inr event =>
      let ref :=
        match ZoomCall.element event with
        | Some ref => ref
        | None => element api
        end in
      let o :=
        Renderer.zoom (renderer api)
          {| IZoomParams.element := elements page ref;
             IZoomParams.x := ZoomCall.x event;
             IZoomParams.y := ZoomCall.y event;
             IZoomParams.deltaScale := ZoomCall.deltaScale event |} in
      (set_renderer api (this o), commit page ref o)
  end.

(** [panBy(event)]: both branches read [movementX] and [movementY] of the
    event, so a [MouseEvent] comes here as its [getMouseMovement]. *)
Definition panBy (api : t) (event : Movement.t) (page : Page) : t * Page :=
  let ref := element api in
  let o :=
    Renderer.panBy (renderer api)
      {| IPanByParams.element := elements page ref;
         IPanByParams.originX := Movement.movementX event;
         IPanByParams.originY := Movement.movementY event |} in
  (set_renderer api (this o), commit page ref o).

(** [panTo(params)] writes the state of the renderer itself. *)
Definition panTo (api : t) (params : PanToCall.t) (page : Page) : t * Page :=
  let renderer := renderer api in
  let renderer :=
    match PanToCall.scale params with
    | Some scale =>
        Renderer.set_state renderer
          (Renderer.set_scale (Renderer.state renderer)
             (Math.max (minScale (Renderer.config renderer))
                (Math.min (maxScale (Renderer.config renderer)) scale)))
    | None => renderer
    end in
  let renderer :=
    Renderer.set_state renderer
      (Renderer.set_translateX (Renderer.state renderer) (PanToCall.x params)) in
  let renderer :=
    Renderer.set_state renderer
      (Renderer.set_translateY (Renderer.state renderer) (PanToCall.y params)) in
  let ref := element api in
  let o := Renderer.applyTransform renderer (elements page ref) in
  (set_renderer api (this o), commit page ref o).

Definition getState (api : t) : ITransformation :=
  Renderer.getState (renderer api).

End useZoomPan.

(** A call of one of the three methods of the API. *)
Inductive ApiCall : Type :=
| ApiZoom (event : WheelEvent.t + ZoomCall.t)
| ApiPanBy (event : Movement.t)
| ApiPanTo (params : PanToCall.t).

Definition api_call (st : useZoomPan.t * Page) (c : ApiCall)
  : useZoomPan.t * Page :=
  match c with
  | ApiZoom event => useZoomPan.zoom (fst st) event (snd st)
  | ApiPanBy event => useZoomPan.panBy (fst st) event (snd st)
  | ApiPanTo params => useZoomPan.panTo (fst st) params (snd st)
  end.

(** ** src/helpers/zoomPan.ts *)

Module IZoomPanHelperConfig.
Record t : Type := {
  element : Ref;
  enableZoom : option bool;
  enablePan : option bool;
  enableMouseWheel : option bool;
  minScale : option number;
  maxScale : option number;
  scaleSensitivity : option number
}.
End IZoomPanHelperConfig.

Definition default_bool (d : bool) (o : option bool) : bool :=
  match o with
  | Some v => v
  | None => d
  end.

(** What a handler leaves behind: the closure, the page, and whether it
    called [event.preventDefault()]. *)
Record Handled (A : Type) : Type := {
  closure : A;
  page_after : Page;
  defaultPrevented : bool
}.
Arguments closure {A} _.
Arguments page_after {A} _.
Arguments defaultPrevented {A} _.

Module zoomPan.

(** The closure of the helper.  The last four fields tell which of its
    listeners are registered: [wheel], [mousedown] and [mousemove] on the
    element, [mouseup] on the document. *)
Record t : Type := {
  api : useZoomPan.t;
  enableZoom : bool;
  enablePan : bool;
  enableMouseWheel : bool;
  isPanning : bool;
  onWheel : bool;
  onMouseDown : bool;
  onMouseMove : bool;
  onMouseUp : bool
}.

Definition create (config : IZoomPanHelperConfig.t) : t :=
  {| api :=
       useZoomPan.create
         {| IUseZoomPanConfig.element := IZoomPanHelperConfig.element config;
            IUseZoomPanConfig.minScale :=
              Some (default (of_decimal false 1 (-1))
                      (IZoomPanHelperConfig.minScale config));
            IUseZoomPanConfig.maxScale :=
              Some (default (of_Z 30) (IZoomPanHelperConfig.maxScale config));
            IUseZoomPanConfig.scaleSensitivity :=
              Some (default (of_Z 50)
                      (IZoomPanHelperConfig.scaleSensitivity config)) |};
     enableZoom := default_bool true (IZoomPanHelperConfig.enableZoom config);
     enablePan := default_bool true (IZoomPanHelperConfig.enablePan config);
     enableMouseWheel :=
       default_bool false (IZoomPanHelperConfig.enableMouseWheel config);
     isPanning := false;
     onWheel := true;
     onMouseDown := true;
     onMouseMove := false;
     onMouseUp := false |}.

Definition set_api (this : t) (a : useZoomPan.t) : t :=
  {| api := a;
     enableZoom := enableZoom this;
     enablePan := enablePan this;
     enableMouseWheel := enableMouseWheel this;
     isPanning := isPanning this;
     onWheel := onWheel this;
     onMouseDown := onMouseDown this;
     onMouseMove := onMouseMove this;
     onMouseUp := onMouseUp this |}.

(** [isPanning] and the two listeners of a drag. *)
Definition set_drag (this : t) (panning listening : bool) : t :=
  {| api := api this;
     enableZoom := enableZoom this;
     enablePan := enablePan this;
     enableMouseWheel := enableMouseWheel this;
     isPanning := panning;
     onWheel := onWheel this;
     onMouseDown := onMouseDown this;
     onMouseMove := listening;
     onMouseUp := listening |}.

Definition untouched (this : t) (page : Page) : Handled t :=
  {| closure := this; page_after := page; defaultPrevented := false |}.

Definition handleWheel (this : t) (event : WheelEvent.t) (page : Page)
  : Handled t :=
  let zoomed (prevented : bool) :=
    let '(a, page) := useZoomPan.zoom (api this) (inl event) page in
    {| closure := set_api this a;
       page_after := page;
       defaultPrevented := prevented |} in
  if negb (enableZoom this) then untouched this page
  else if negb (isCtrlKey (WheelEvent.mouse event))
  then (if negb (enableMouseWheel this) then untouched this page
        else zoomed false)
  else zoomed true.

Definition handleMouseDown (this : t) (event : MouseEvent.t) (page : Page)
  : Handled t :=
  if negb (enablePan this) || negb (isLeftButton event)
  then untouched this page
  else untouched (set_drag this true true) page.

Definition handleMouseMove (this : t) (event : MouseEvent.t) (page : Page)
  : Handled t :=
  if negb (isPanning this) || negb (enablePan this)
     || negb (isShiftKey event)
  then untouched this page
  else
    let '(a, page) := useZoomPan.panBy (api this) (getMouseMovement event) page in
    {| closure := set_api this a;
       page_after := page;
       defaultPrevented := true |}.

Definition handleMouseUp (this : t) (page : Page) : Handled t :=
  untouched (set_drag this false false) page.

Definition destroy (this : t) : t :=
  {| api := api this;
     enableZoom := enableZoom this;
     enablePan := enablePan this;
     enableMouseWheel := enableMouseWheel this;
     isPanning := isPanning this;
     onWheel := false;
     onMouseDown := false;
     onMouseMove := false;
     onMouseUp := false |}.

End zoomPan.

(** What happens on the page: an event reaches the element ([wheel],
    [mousedown], [mousemove]) or the document ([mouseup]), or the code that
    holds the instance calls a method of its [api] or its [destroy]. *)
Inductive Happening : Type :=
| OnWheel (event : WheelEvent.t)
| OnMouseDown (event : MouseEvent.t)
| OnMouseMove (event : MouseEvent.t)
| OnMouseUp
| CallApi (c : ApiCall)
| CallHelperDestroy.

(** An event runs the listener registered for it, if there is one. *)
Definition happen (st : zoomPan.t * Page) (h : Happening)
  : zoomPan.t * Page :=
  let '(z, page) := st in
  match h with
  | OnWheel e =>
      if zoomPan.onWheel z
      then let o := zoomPan.handleWheel z e page in (closure o, page_after o)
      else st
  | OnMouseDown e =>
      if zoomPan.onMouseDown z
      then let o := zoomPan.handleMouseDown z e page in
           (closure o, page_after o)
      else st
  | OnMouseMove e =>
      if zoomPan.onMouseMove z
      then let o := zoomPan.handleMouseMove z e page in
           (closure o, page_after o)
      else st
  | OnMouseUp =>
      if zoomPan.onMouseUp z
      then let o := zoomPan.handleMouseUp z page in (closure o, page_after o)
      else st
  | CallApi c =>
      let '(a, page) := api_call (zoomPan.api z, page) c in
      (zoomPan.set_api z a, page)
  | CallHelperDestroy => (zoomPan.destroy z, page)
  end.

Definition happenings (st : zoomPan.t * Page) (hs : list Happening)
  : zoomPan.t * Page :=
  fold_left happen hs st.

(** ** [zoomPanWithPointer] *)

Module Point.
Record t : Type := { x : number; y : number }.
End Point.

Module zoomPanWithPointer.

Record t : Type := {
  api : useZoomPan.t;
  isPointerDown : bool;
  lastPointerPosition : Point.t;
  onPointerDown : bool;
  onWheel : bool;
  onPointerMove : bool;
  onPointerUp : bool
}.

(** [useZoomPan({ element, ...restConfig })]: the hook reads the element,
    the bounds and the sensitivity of the configuration. *)
Definition create (config : IZoomPanHelperConfig.t) : t :=
  {| api :=
       useZoomPan.create
         {| IUseZoomPanConfig.element := IZoomPanHelperConfig.element config;
            IUseZoomPanConfig.minScale := IZoomPanHelperConfig.minScale config;
            IUseZoomPanConfig.maxScale := IZoomPanHelperConfig.maxScale config;
            IUseZoomPanConfig.scaleSensitivity :=
              IZoomPanHelperConfig.scaleSensitivity config |};
     isPointerDown := false;
     lastPointerPosition := {| Point.x := of_Z 0; Point.y := of_Z 0 |};
     onPointerDown := true;
     onWheel := true;
     onPointerMove := false;
     onPointerUp := false |}.

Definition set_api (this : t) (a : useZoomPan.t) : t :=
  {| api := a;
     isPointerDown := isPointerDown this;
     lastPointerPosition := lastPointerPosition this;
     onPointerDown := onPointerDown this;
     onWheel := onWheel this;
     onPointerMove := onPointerMove this;
     onPointerUp := onPointerUp this |}.

Definition set_lastPointerPosition (this : t) (p : Point.t) : t :=
  {| api := api this;
     isPointerDown := isPointerDown this;
     lastPointerPosition := p;
     onPointerDown := onPointerDown this;
     onWheel := onWheel this;
     onPointerMove := onPointerMove this;
     onPointerUp := onPointerUp this |}.

Definition set_drag (this : t) (down listening : bool) : t :=
  {| api := api this;
     isPointerDown := down;
     lastPointerPosition := lastPointerPosition this;
     onPointerDown := onPointerDown this;
     onWheel := onWheel this;
     onPointerMove := listening;
     onPointerUp := listening |}.

Definition handlePointerDown (this : t) (event : MouseEvent.t) : t :=
  if negb (isLeftButton event) then this
  else
    set_drag
      (set_lastPointerPosition this
         {| Point.x := MouseEvent.pageX event;
            Point.y := MouseEvent.pageY event |})
      true true.

Definition handlePointerMove (this : t) (event : MouseEvent.t) (page : Page)
  : t * Page :=
  if negb (isPointerDown this) || negb (isShiftKey event) then (this, page)
  else
    let currentPosition :=
      {| Point.x := MouseEvent.pageX event;
         Point.y := MouseEvent.pageY event |} in
    let movementX :=
      (Point.x currentPosition - Point.x (lastPointerPosition this))%js in
    let movementY :=
      (Point.y currentPosition - Point.y (lastPointerPosition this))%js in
    let '(a, page) :=
      useZoomPan.panBy (api this)
        {| Movement.movementX := movementX;
           Movement.movementY := movementY |} page in
    (set_lastPointerPosition (set_api this a) currentPosition, page).

Definition handlePointerUp (this : t) : t := set_drag this false false.

Definition handleWheel (this : t) (event : WheelEvent.t) (page : Page)
  : Handled t :=
  if negb (isCtrlKey (WheelEvent.mouse event))
  then {| closure := this; page_after := page; defaultPrevented := false |}
  else
    let '(a, page) := useZoomPan.zoom (api this) (inl event) page in
    {| closure := set_api this a;
       page_after := page;
       defaultPrevented := true |}.

Definition destroy (this : t) : t :=
  {| api := api this;
     isPointerDown := isPointerDown this;
     lastPointerPosition := lastPointerPosition this;
     onPointerDown := false;
     onWheel := false;
     onPointerMove := false;
     onPointerUp := false |}.

End zoomPanWithPointer.

(** The [pointermove] events of a drag, each run through the listener if
    it is registered. *)
Definition pointer_moves (st : zoomPanWithPointer.t * Page)
    (events : list MouseEvent.t) : zoomPanWithPointer.t * Page :=
  fold_left
    (fun st e =>
       if zoomPanWithPointer.onPointerMove (fst st)
       then zoomPanWithPointer.handlePointerMove (fst st) e (snd st)
       else st)
    events st.

(** ** Predicates of the properties *)

Definition is_destroy (c : Call) : bool :=
  match c with
  | CallDestroy => true
  | _ => false
  end.

(** The numbers from which a call computes a scale are not [NaN]. *)
Definition scale_arguments_ok (c : Call) : Prop :=
  match c with
  | CallZoom p => isNaN (IZoomParams.deltaScale p) = false
  | CallPanTo p =>
      match IPanToParams.scale p with
      | Some v => isNaN v = false
      | None => True
      end
  | _ => True
  end.

(** A configuration with finite bounds around the initial scale [1] and a
    sensitivity that is left out or is a finite number other than zero;
    one that holds [undefined] is none of the two. *)
Definition bounds_around_one (cfg : IRendererConfig) : Prop :=
  Number.isFinite (minScale cfg) = true
  /\ Number.isFinite (maxScale cfg) = true
  /\ le (minScale cfg) (of_Z 1) = true
  /\ le (of_Z 1) (maxScale cfg) = true
  /\ match scaleSensitivity cfg with
     | Absent => True
     | Undefined => False
     | Value s => Number.isFinite s = true /\ is_zero s = false
     end.

(** On an engine made from [cfg]: the configuration is that of the
    constructor and the scale is within its bounds. *)
Definition keeps_bounds (cfg : IRendererConfig) (r : Renderer.t) : Prop :=
  Renderer.config r = Renderer.config (Renderer.constructor cfg)
  /\ scale_in_bounds r = true.

(** The element comes back from a call as it was handed, or with the
    transform origin [text]. *)
Definition origin_written (text : string) (e : HTMLElement)
    (o : Outcome Renderer.t) : Prop :=
  target o = e \/ transformOrigin (style (target o)) = text.

(** The numbers from which a call of the API computes a scale are not
    [NaN]. *)
Definition api_arguments_ok (c : ApiCall) : Prop :=
  match c with
  | ApiZoom (inr event) => isNaN (ZoomCall.deltaScale event) = false
  | ApiPanTo params =>
      match PanToCall.scale params with
      | Some v => isNaN v = false
      | None => True
      end
  | _ => True
  end.

Definition happening_ok (h : Happening) : Prop :=
  match h with
  | CallApi c => api_arguments_ok c
  | _ => True
  end.

(** An event, as opposed to a call by the code that holds the instance. *)
Definition is_event (h : Happening) : bool :=
  match h with
  | CallApi _ | CallHelperDestroy => false
  | _ => true
  end.

(** A [wheel] event that may zoom: with Ctrl held, or any if
    [mouseWheel]. *)
Definition zooming_wheel (mouseWheel : bool) (h : Happening) : bool :=
  match h with
  | OnWheel e => isCtrlKey (WheelEvent.mouse e) || mouseWheel
  | _ => false
  end.

(** A [mousedown] of the left button. *)
Definition left_down (h : Happening) : bool :=
  match h with
  | OnMouseDown e => isLeftButton e
  | _ => false
  end.

(** A [mousemove] with Shift held. *)
Definition shifted_move (h : Happening) : bool :=
  match h with
  | OnMouseMove e => isShiftKey e
  | _ => false
  end.

Definition is_api_call (h : Happening) : bool :=
  match h with
  | CallApi _ => true
  | _ => false
  end.

(** An integer of absolute value at most [bound], as a number. *)
Definition whole (bound : Z) (x : number) : Prop :=
  exists z : Z, Z.abs z <= bound /\ x = of_Z z.

Definition position (event : MouseEvent.t) : Point.t :=
  {| Point.x := MouseEvent.pageX event; Point.y := MouseEvent.pageY event |}.

(** Where the pointer was at the last of the [events] that had Shift held,
    or [start] if none had. *)
Definition last_shifted (start : Point.t) (events : list MouseEvent.t)
  : Point.t :=
  fold_left (fun p e => if isShiftKey e then position e else p) events start.

(** Each of the calls that [fn] saw came at least [interval] after the one
    before, the first after [last]. *)
Fixpoint spaced {A : Type} (interval last : number) (l : list (number * A))
  : Prop :=
  match l with
  | [] => True
  | (now, _) :: rest =>
      ge (now - last)%js interval = true /\ spaced interval now rest
  end.

Definition is_helper_destroy (h : Happening) : bool :=
  match h with
  | CallHelperDestroy => true
  | _ => false
  end.

(** The configuration that [zoomPan] hands to the renderer: each property
    left out replaced by its default. *)
Definition renderer_config (config : IZoomPanHelperConfig.t)
  : IRendererConfig :=
  {| minScale :=
       default (of_decimal false 1 (-1)) (IZoomPanHelperConfig.minScale config);
     maxScale := default (of_Z 30) (IZoomPanHelperConfig.maxScale config);
     scaleSensitivity :=
       Value (default (of_Z 50)
                (IZoomPanHelperConfig.scaleSensitivity config)) |}.

(** The state of the renderer of an instance. *)
Definition helper_state (z : zoomPan.t) : ITransformation :=
  useZoomPan.getState (zoomPan.api z).

(** The state of the renderer of an instance with pointer support. *)
Definition pointer_state (z : zoomPanWithPointer.t) : ITransformation :=
  useZoomPan.getState (zoomPanWithPointer.api z).

(** The pointer is at integers of the page, at most [2^50] away from its
    origin. *)
Definition at_whole_point (event : MouseEvent.t) : Prop :=
  whole (2 ^ 50) (MouseEvent.pageX event)
  /\ whole (2 ^ 50) (MouseEvent.pageY event).

(** ** Values of the scenarios of the helpers *)

Definition blank_page : Page :=
  {| elements := fun _ => blank; console := [] |}.

(** A mouse event at a point of the page, with what it moved by, its button
    and whether Ctrl and Shift are held. *)
Definition mouse_event (button : Z) (pageX pageY movementX movementY : number)
    (ctrlKey shiftKey : bool) : MouseEvent.t :=
  {| MouseEvent.button := button;
     MouseEvent.buttons := 0;
     MouseEvent.clientX := pageX;
     MouseEvent.clientY := pageY;
     MouseEvent.pageX := pageX;
     MouseEvent.pageY := pageY;
     MouseEvent.movementX := movementX;
     MouseEvent.movementY := movementY;
     MouseEvent.ctrlKey := ctrlKey;
     MouseEvent.shiftKey := shiftKey;
     MouseEvent.altKey := false;
     MouseEvent.metaKey := false |}.

Definition wheel_event (deltaY : number) (ctrlKey : bool) : WheelEvent.t :=
  {| WheelEvent.mouse :=
       mouse_event 0 (of_Z 250) (of_Z 250) (of_Z 0) (of_Z 0) ctrlKey false;
     WheelEvent.deltaY := deltaY |}.

(** [zoomPan({ element })]. *)
Definition element_only : IZoomPanHelperConfig.t :=
  {| IZoomPanHelperConfig.element := 0%nat;
     IZoomPanHelperConfig.enableZoom := None;
     IZoomPanHelperConfig.enablePan := None;
     IZoomPanHelperConfig.enableMouseWheel := None;
     IZoomPanHelperConfig.minScale := None;
     IZoomPanHelperConfig.maxScale := None;
     IZoomPanHelperConfig.scaleSensitivity := None |}.

(** A character of the text of a finite number: a digit, the point, the
    [e] of an exponent or a sign. *)
Definition numeral_char (c : ascii) : bool :=
  is_digit c || Ascii.eqb c "." || Ascii.eqb c "e" || Ascii.eqb c "+"
  || Ascii.eqb c "-".

(** [t] is [matrix(a, 0, 0, a, b, c)] for three texts made of such
    characters only. *)
Definition numeral_descriptor (t : string) : Prop :=
  exists a b c : string,
    t = "matrix(" ++ a ++ ", 0, 0, " ++ a ++ ", " ++ b ++ ", " ++ c ++ ")"
    /\ string_forall numeral_char a = true
    /\ string_forall numeral_char b = true
    /\ string_forall numeral_char c = true.

(** [t] is [<a>px <b>px] for two texts made of such characters only. *)
Definition numeral_origin (t : string) : Prop :=
  exists a b : string,
    t = a ++ "px " ++ b ++ "px"
    /\ string_forall numeral_char a = true
    /\ string_forall numeral_char b = true.

(** What a call leaves of the element [e] it was handed, on a renderer
    whose state was [s]: the element as it was, and the warning written;
    or no warning, a [transform] that is a descriptor of numerals, and a
    [transformOrigin] that is the text of the two origins of [s] as they
    are, of numerals when both are finite. *)
Definition withheld_or_numeral
    (s : ITransformation) (e : HTMLElement) (o : Outcome Renderer.t) : Prop :=
  (target o = e /\ warnings o = [Renderer.warning])
  \/ (numeral_descriptor (transform (style (target o)))
      /\ transformOrigin (style (target o))
         = toString (originX s) ++ "px " ++ toString (originY s) ++ "px"
      /\ (Number.isFinite (originX s) = true ->
          Number.isFinite (originY s) = true ->
          numeral_origin (transformOrigin (style (target o))))
      /\ warnings o = []).

(** ** [debounce]

    The closure keeps [timeoutId].  The timers are the host's: [setTimeout]
    hands out an identifier not in use and keeps the callback, here the
    arguments it will run [fn] with; [clearTimeout] drops the timer of an
    identifier; a timer that fires is dropped and its callback run. *)
Module debounce.

Record t (A : Type) : Type := {
  timeoutId : option nat;
  timers : list (nat * A);
  next : nat
}.
Arguments timeoutId {A} _.
Arguments timers {A} _.
Arguments next {A} _.

Definition create {A : Type} : t A :=
  {| timeoutId := None; timers := []; next := 1%nat |}.

Definition clearTimeout {A : Type} (id : nat) (timers : list (nat * A))
  : list (nat * A) :=
  filter (fun timer => negb (Nat.eqb (fst timer) id)) timers.

(** A call of the debounced function. *)
Definition call {A : Type} (this : t A) (args : A) : t A :=
  let timers :=
    match timeoutId this with
    | Some id => clearTimeout id (timers this)
    | None => timers this
    end in
  let id := next this in
  {| timeoutId := Some id;
     timers := (id, args) :: timers;
     next := S id |}.

(** The host fires the timer [id], if it is pending: the arguments [fn] is
    run with, and the closure after the callback. *)
Definition fire {A : Type} (this : t A) (id : nat) : option A * t A :=
  match find (fun timer => Nat.eqb (fst timer) id) (timers this) with
  | Some (_, args) =>
      (Some args,
       {| timeoutId := None;
          timers := clearTimeout id (timers this);
          next := next this |})
  | None => (None, this)
  end.

End debounce.

(** What happens to a debounced function: it is called, or the host fires
    a timer. *)
Inductive Tick (A : Type) : Type :=
| Called (args : A)
| Fired (id : nat).
Arguments Called {A} _.
Arguments Fired {A} _.

(** The arguments [fn] is run with over a run, in order. *)
Fixpoint debounced {A : Type} (this : debounce.t A) (run : list (Tick A))
  : list A :=
  match run with
  | [] => []
  | Called args :: rest => debounced (debounce.call this args) rest
  | Fired id :: rest =>
      match debounce.fire this id with
      | (Some args, this') => args :: debounced this' rest
      | (None, this') => debounced this' rest
      end
  end.

(** A buffer of one place: a call fills it, replacing what was there, and
    the timer of the last call, when it fires, empties it into [fn]. *)
Fixpoint one_place {A : Type} (pending : option (nat * A)) (next : nat)
    (run : list (Tick A)) : list A :=
  match run with
  | [] => []
  | Called args :: rest => one_place (Some (next, args)) (S next) rest
  | Fired id :: rest =>
      match pending with
      | Some (id', args) =>
          if Nat.eqb id' id then args :: one_place None next rest
          else one_place pending next rest
      | None => one_place pending next rest
      end
  end.

(** * Properties *)

(** ** The model on the tests of the repository *)

Section RepositoryTests.

(** tests/unit/transform-calculator.test.ts *)

Example isValidTransformation_checks_finite_values :
  calc.isValidTransformation (of_Z 1) (of_Z 0) (of_Z 0) = true
  /\ calc.isValidTransformation NaN (of_Z 0) (of_Z 0) = false.
Proof. split; reflexivity. Qed.

Example getMatrixTransform_creates_matrix :
  calc.getMatrixTransform (of_Z 2) (of_Z 10) (of_Z 20)
  = "matrix(2, 0, 0, 2, 10, 20)".
Proof. vm_compute. reflexivity. Qed.

Example calculateScale_applies_limits :
  calc.calculateScale (of_Z 1) (of_Z (-1000)) (of_decimal false 1 (-1))
    (of_Z 10) (of_Z 10)
  = (of_Z 1, of_decimal false 1 (-1)).
Proof. vm_compute. reflexivity. Qed.

Example clamp_should_limit_values :
  clamp (of_Z 5) (of_Z 0) (of_Z 10) = of_Z 5
  /\ clamp (of_Z (-1)) (of_Z 0) (of_Z 10) = of_Z 0
  /\ clamp (of_Z 15) (of_Z 0) (of_Z 10) = of_Z 10.
Proof. repeat split; vm_compute; reflexivity. Qed.

(** The text of numbers, as the language writes them, and what [parseFloat]
    makes of a text. *)

Example toString_samples :
  map toString
    [of_Z 0; S754_zero true; of_Z 20; of_decimal true 205 (-1);
     (of_decimal false 1 (-1) + of_decimal false 2 (-1))%js;
     of_decimal false 1 21; of_decimal false 123456789012345680000 0;
     of_decimal false 1 (-6); of_decimal false 1 (-7);
     of_decimal false 5 (-324); of_decimal false 17976931348623157 292;
     (of_Z 1 / of_Z 0)%js; (of_Z 0 / of_Z 0)%js]
  = ["0"; "0"; "20"; "-20.5"; "0.30000000000000004"; "1e+21";
     "123456789012345680000"; "0.000001"; "1e-7"; "5e-324";
     "1.7976931348623157e+308"; "Infinity"; "NaN"]%list.
Proof. vm_compute. reflexivity. Qed.

Example parseFloat_samples :
  map parseFloat ["  12.5e1px"; ".5"; "5."; "-0"; "1e"; "-Infinity"; "."; "px"]
  = [of_Z 125; of_decimal false 5 (-1); of_Z 5; S754_zero true; of_Z 1;
     S754_infinity true; NaN; NaN]%list.
Proof. vm_compute. reflexivity. Qed.

Example reads_back_samples :
  forallb reads_back
    [of_Z 0; S754_zero true; of_Z 20; of_decimal true 205 (-1);
     (of_decimal false 1 (-1) + of_decimal false 2 (-1))%js;
     of_decimal false 1 21; of_decimal false 1 23;
     of_decimal false 123456789012345680000 0;
     of_decimal false 1 (-7); of_decimal false 5 (-324);
     of_decimal false 22250738585072014 (-324);
     of_decimal false 17976931348623157 292;
     of_decimal false 9007199254740993 0]
  = true.
Proof. vm_compute. reflexivity. Qed.

(** The tests of [Renderer]. *)

Example should_get_initial_state :
  Renderer.isActive (Renderer.constructor test_config) = true
  /\ Renderer.getState (Renderer.constructor test_config)
     = {| originX := of_Z 0; originY := of_Z 0;
          translateX := of_Z 0; translateY := of_Z 0; scale := of_Z 1 |}.
Proof. split; reflexivity. Qed.

Example should_zoom_in_and_out_at_cursor_position :
  let r := Renderer.constructor test_config in
  let o1 := Renderer.zoom r (zoom_params blank (of_Z 250) (of_Z 250) (of_Z 1)) in
  let o2 := Renderer.zoom r (zoom_params blank (of_Z 250) (of_Z 250) (of_Z (-1))) in
  toString (scale (Renderer.getState (this o1))) = "1.1"
  /\ toString (scale (Renderer.getState (this o2))) = "0.9"
  /\ transform (style (target o1)) = "matrix(1.1, 0, 0, 1.1, 0, 0)"
  /\ transformOrigin (style (target o1)) = "0px 0px".
Proof. cbv zeta. repeat split; vm_compute; reflexivity. Qed.

Example should_pan_by_offset :
  let r :=
    this (Renderer.panBy (Renderer.constructor test_config)
            (panBy_params blank (of_Z 50) (of_Z 50))) in
  translateX (Renderer.getState r) = of_Z 50
  /\ translateY (Renderer.getState r) = of_Z 50.
Proof. cbv zeta. split; vm_compute; reflexivity. Qed.

(** [panTo(100, 150, 2)] then [getState()]. *)
Example should_pan_to_absolute_position :
  Renderer.getState
    (this (Renderer.panTo (Renderer.constructor test_config)
             (panTo_params blank (of_Z 100) (of_Z 150) (Some (of_Z 2)))))
  = {| originX := of_Z 0; originY := of_Z 0;
       translateX := of_Z 100; translateY := of_Z 150; scale := of_Z 2 |}.
Proof. vm_compute. reflexivity. Qed.

Example should_reset_to_initial_state :
  let r := Renderer.constructor test_config in
  let r := this (Renderer.zoom r (zoom_params blank (of_Z 250) (of_Z 250) (of_Z 1))) in
  let r := this (Renderer.panBy r (panBy_params blank (of_Z 50) (of_Z 50))) in
  Renderer.getState (Renderer.reset r) = Renderer.getInitialState.
Proof. vm_compute. reflexivity. Qed.

(** Construct, [destroy()] at once, then [zoom(10, 10, 1)]. *)
Example destroyed_zoom_keeps_scale :
  scale (Renderer.getState
           (this (Renderer.zoom
                    (Renderer.destroy (Renderer.constructor test_config))
                    (zoom_params blank (of_Z 10) (of_Z 10) (of_Z 1)))))
  = of_Z 1.
Proof. vm_compute. reflexivity. Qed.

(** Where the configuration leaves the data model: a sensitivity of zero.
    A delta other than zero over it is an infinity, which the clamp turns
    into a bound; zero over zero is [NaN], which the clamp keeps. *)
Example zero_sensitivity :
  let cfg :=
    {| minScale := of_decimal false 1 (-1); maxScale := of_Z 10;
       scaleSensitivity := Value (of_Z 0) |} in
  let o1 :=
    Renderer.zoom (Renderer.constructor cfg)
      (zoom_params blank (of_Z 250) (of_Z 250) (of_Z 1)) in
  let o0 :=
    Renderer.zoom (Renderer.constructor cfg)
      (zoom_params blank (of_Z 250) (of_Z 250) (of_Z 0)) in
  scale (Renderer.getState (this o1)) = of_Z 10
  /\ transform (style (target o1)) = "matrix(10, 0, 0, 10, 0, 0)"
  /\ scale (Renderer.getState (this o0)) = NaN
  /\ target o0 = blank.
Proof. cbv zeta. repeat split; vm_compute; reflexivity. Qed.

(** The default sensitivity is there only for a configuration without the
    property: [new Renderer({ minScale: 0.1, maxScale: 10 })] divides by
    [10], and with [scaleSensitivity: undefined] the division is by
    [undefined], which gives [NaN]. *)
Example sensitivity_left_out_or_undefined :
  let left_out :=
    {| minScale := of_decimal false 1 (-1); maxScale := of_Z 10;
       scaleSensitivity := Absent |} in
  let undef :=
    {| minScale := of_decimal false 1 (-1); maxScale := of_Z 10;
       scaleSensitivity := Undefined |} in
  let step := zoom_params blank (of_Z 250) (of_Z 250) (of_Z 1) in
  Renderer.constructor left_out = Renderer.constructor test_config
  /\ scale (Renderer.getState
              (this (Renderer.zoom (Renderer.constructor left_out) step)))
     = of_decimal false 11 (-1)
  /\ scaleSensitivity (Renderer.config (Renderer.constructor undef))
     = Undefined
  /\ scale (Renderer.getState
              (this (Renderer.zoom (Renderer.constructor undef) step)))
     = NaN
  /\ Renderer.zoom (Renderer.constructor undef) step
     = {| this := this (Renderer.zoom (Renderer.constructor undef) step);
          target := blank;
          warnings := [Renderer.warning] |}.
Proof. cbv zeta. repeat split; vm_compute; reflexivity. Qed.

(** [applyTransform] checks the scale and the translation only: origins
    that are not finite are written as they are. *)
Example origins_are_not_checked :
  let r :=
    {| Renderer.state :=
         {| originX := NaN; originY := S754_infinity false;
            translateX := of_Z 0; translateY := of_Z 0; scale := of_Z 1 |};
       Renderer.config := test_config;
       Renderer.isActiveFlag := true |} in
  let o := Renderer.panTo r (panTo_params blank (of_Z 100) (of_Z 150) None) in
  transformOrigin (style (target o)) = "NaNpx Infinitypx"
  /\ transform (style (target o)) = "matrix(1, 0, 0, 1, 100, 150)"
  /\ warnings o = [].
Proof. cbv zeta. repeat split; vm_compute; reflexivity. Qed.

End RepositoryTests.

(** ** Comparisons of doubles *)

Section Comparison.

Lemma compare_cont_refl (m : positive) : Pos.compare_cont Eq m m = Eq.
Proof. apply Pos.compare_refl. Qed.

Lemma SFcompare_refl (x : number) :
  isNaN x = false -> SFcompare x x = Some Eq.
Proof.
  destruct x as [s|s| |s m e]; simpl; intros H; try discriminate.
  - reflexivity.
  - destruct s; reflexivity.
  - rewrite Z.compare_refl, compare_cont_refl. destruct s; reflexivity.
Qed.

Lemma SFcompare_antisym (x y : number) (c : comparison) :
  SFcompare x y = Some c -> SFcompare y x = Some (CompOpp c).
Proof.
  destruct x as [s1|s1| |s1 m1 e1], y as [s2|s2| |s2 m2 e2]; simpl;
    intros H; try discriminate; inversion_clear H;
    try (destruct s1; reflexivity); try (destruct s2; reflexivity);
    try (destruct s1, s2; reflexivity).
  rewrite (Z.compare_antisym e1 e2).
  change (Pos.compare_cont Eq m2 m1) with (Pos.compare m2 m1).
  rewrite (Pos.compare_antisym m1 m2).
  change (Pos.compare_cont Eq m1 m2) with (Pos.compare m1 m2).
  destruct s1, s2; simpl; try reflexivity;
    destruct (e1 ?= e2); simpl; try reflexivity;
    destruct (Pos.compare m1 m2); reflexivity.
Qed.

Lemma le_refl (x : number) : isNaN x = false -> le x x = true.
Proof. intros H. unfold le, SFleb. now rewrite SFcompare_refl. Qed.

Lemma SFcompare_not_nan (x y : number) :
  isNaN x = false -> isNaN y = false -> exists c, SFcompare x y = Some c.
Proof.
  destruct x, y; simpl; intros; try discriminate; eauto.
Qed.

(** Two numbers that are not [NaN] are comparable. *)
Lemma not_lt_le (x y : number) :
  isNaN x = false -> isNaN y = false -> lt x y = false -> le y x = true.
Proof.
  intros Hx Hy. unfold lt, le, SFltb, SFleb.
  destruct (SFcompare_not_nan x y Hx Hy) as [c Hc].
  rewrite Hc, (SFcompare_antisym _ _ _ Hc).
  destruct c; simpl; congruence.
Qed.

Lemma lt_le (x y : number) : lt x y = true -> le x y = true.
Proof.
  unfold lt, le, SFltb, SFleb. destruct (SFcompare x y) as [[]|]; congruence.
Qed.

Lemma le_not_nan (x y : number) :
  le x y = true -> isNaN x = false /\ isNaN y = false.
Proof.
  unfold le, SFleb. destruct x, y; simpl; intros; try discriminate; auto.
Qed.

(** Between two finite bounds there are only finite numbers. *)
Lemma between_finite (lo hi v : number) :
  Number.isFinite lo = true -> Number.isFinite hi = true ->
  le lo v = true -> le v hi = true -> Number.isFinite v = true.
Proof.
  unfold le, SFleb.
  destruct lo as [?|?| |sl ? ?], hi as [?|?| |sh ? ?], v as [?|[]| |? ? ?];
    simpl; intros; try discriminate; try reflexivity;
    try (destruct sl; discriminate); try (destruct sh; discriminate).
Qed.

End Comparison.

(** ** [Math.max], [Math.min] and the clamp *)

Section Clamp.

Lemma max_cases (a b : number) :
  isNaN a = false -> isNaN b = false ->
  (Math.max a b = a /\ le b a = true) \/ (Math.max a b = b /\ le a b = true).
Proof.
  intros Ha Hb. unfold Math.max. rewrite Ha, Hb. simpl.
  assert (Hgen : (if gt b a then b else a) = a /\ le b a = true
                 \/ (if gt b a then b else a) = b /\ le a b = true).
  { unfold gt. fold (lt a b). destruct (lt a b) eqn:E.
    - right. split; [reflexivity | now apply lt_le].
    - left. split; [reflexivity | now apply not_lt_le]. }
  destruct a as [[]|?| |? ? ?]; try exact Hgen.
  destruct b as [[]|?| |? ? ?]; try exact Hgen.
  right. split; reflexivity.
Qed.

Lemma min_cases (a b : number) :
  isNaN a = false -> isNaN b = false ->
  (Math.min a b = a /\ le a b = true) \/ (Math.min a b = b /\ le b a = true).
Proof.
  intros Ha Hb. unfold Math.min. rewrite Ha, Hb. simpl.
  assert (Hgen : (if lt b a then b else a) = a /\ le a b = true
                 \/ (if lt b a then b else a) = b /\ le b a = true).
  { destruct (lt b a) eqn:E.
    - right. split; [reflexivity | now apply lt_le].
    - left. split; [reflexivity | now apply not_lt_le]. }
  destruct a as [[]|?| |? ? ?]; try exact Hgen.
  destruct b as [[]|?| |? ? ?]; try exact Hgen.
  right. split; reflexivity.
Qed.

(** The clamp as [zoom] and [panTo] write it. *)
Lemma max_min_bounds (lo hi v : number) :
  le lo hi = true -> isNaN v = false ->
  le lo (Math.max lo (Math.min hi v)) = true
  /\ le (Math.max lo (Math.min hi v)) hi = true.
Proof.
  intros Hle Hv. destruct (le_not_nan _ _ Hle) as [Hlo Hhi].
  destruct (min_cases hi v Hhi Hv) as [[Em Hm]|[Em Hm]];
    rewrite Em;
    [ destruct (max_cases lo hi Hlo Hhi) as [[Ex Hx]|[Ex Hx]]
    | destruct (max_cases lo v Hlo Hv) as [[Ex Hx]|[Ex Hx]] ];
    rewrite Ex; auto using le_refl.
Qed.

(** A [NaN] goes through the clamp. *)
Lemma max_min_nan (lo hi : number) : Math.max lo (Math.min hi NaN) = NaN.
Proof.
  unfold Math.min. simpl isNaN. rewrite orb_true_r.
  unfold Math.max. simpl isNaN. now rewrite orb_true_r.
Qed.

End Clamp.

(** ** Rounding never makes a [NaN] *)

Section Rounding.

Lemma iter_pos_invariant {A : Type} (P : A -> Prop) (f : A -> A) :
  (forall a, P a -> P (f a)) ->
  forall (n : positive) (a : A), P a -> P (iter_pos f n a).
Proof.
  intros Hf. induction n as [n IH|n IH|]; simpl; intros a Ha; auto.
Qed.

Lemma shr_1_nonneg (mrs : shr_record) :
  0 <= shr_m mrs -> 0 <= shr_m (shr_1 mrs).
Proof.
  destruct mrs as [m r s]. simpl.
  destruct m as [|[p|p|]|p]; simpl; lia.
Qed.

Lemma shr_nonneg (mrs : shr_record) (e n : Z) :
  0 <= shr_m mrs -> 0 <= shr_m (fst (shr mrs e n)).
Proof.
  intros H. destruct n as [|p|p]; simpl; auto.
  apply (iter_pos_invariant (fun r => 0 <= shr_m r)); auto using shr_1_nonneg.
Qed.

Lemma shr_fexp_nonneg (m e : Z) (l : location) :
  0 <= m -> 0 <= shr_m (fst (shr_fexp prec emax m e l)).
Proof.
  intros H. unfold shr_fexp. apply shr_nonneg.
  destruct l as [|[]]; simpl; exact H.
Qed.

Lemma round_nearest_even_nonneg (m : Z) (l : location) :
  0 <= m -> 0 <= round_nearest_even m l.
Proof.
  intros H. destruct l as [|[]]; simpl; try lia.
  destruct (Z.even m); lia.
Qed.

Lemma binary_round_aux_not_nan (sx : bool) (mx ex : Z) (lx : location) :
  0 <= mx -> isNaN (binary_round_aux prec emax sx mx ex lx) = false.
Proof.
  intros H. unfold binary_round_aux.
  pose proof (shr_fexp_nonneg mx ex lx H) as H1.
  destruct (shr_fexp prec emax mx ex lx) as [mrs' e'].
  simpl in H1.
  pose proof (shr_fexp_nonneg
                (round_nearest_even (shr_m mrs') (loc_of_shr_record mrs'))
                e' loc_Exact
                (round_nearest_even_nonneg _ _ H1)) as H2.
  destruct (shr_fexp prec emax _ e' loc_Exact) as [mrs'' e''].
  simpl in H2.
  destruct (shr_m mrs'') as [|m|m]; try reflexivity.
  - destruct (e'' <=? emax - prec); reflexivity.
  - lia.
Qed.

Lemma binary_normalize_not_nan (m e : Z) (sz : bool) :
  isNaN (binary_normalize prec emax m e sz) = false.
Proof.
  destruct m as [|p|p]; simpl; try reflexivity;
    unfold binary_round;
    destruct (shl_align _ _ _) as [mz ez];
    apply binary_round_aux_not_nan; lia.
Qed.

(** A finite number plus a number that is not [NaN] is not [NaN]. *)
Lemma add_finite_not_nan (a b : number) :
  Number.isFinite a = true -> isNaN b = false -> isNaN (a + b)%js = false.
Proof.
  destruct a as [sa|?| |sa ma ea], b as [sb|sb| |sb mb eb]; simpl;
    intros Ha Hb; try discriminate; try reflexivity.
  - destruct sa, sb; reflexivity.
  - apply binary_normalize_not_nan.
Qed.

(** A number that is not [NaN] over a finite divisor other than zero is
    not [NaN]. *)
Lemma div_finite_not_nan (a b : number) :
  isNaN a = false -> Number.isFinite b = true -> is_zero b = false ->
  isNaN (a / b)%js = false.
Proof.
  destruct a as [sa|sa| |sa ma ea], b as [sb|sb| |sb mb eb]; simpl;
    intros Ha Hb Hz; try discriminate; try reflexivity.
  unfold div, SFdiv.
  destruct (SFdiv_core_binary prec emax (Z.pos ma) ea (Z.pos mb) eb)
    as [[mz ez] lz] eqn:E.
  apply binary_round_aux_not_nan.
  unfold SFdiv_core_binary in E.
  set (s := _ - _ - _) in E.
  set (m' := match s with Z0 => _ | Zpos _ => _ | Zneg _ => _ end) in E.
  assert (Hm' : 0 <= m').
  { subst m'. destruct s; try lia. apply Z.shiftl_nonneg. lia. }
  pose proof (Z.div_pos m' (Z.pos mb) Hm' ltac:(lia)) as Hq.
  unfold Z.div in Hq.
  destruct (Z.div_eucl m' (Z.pos mb)) as [q r].
  inversion E. subst. exact Hq.
Qed.

End Rounding.

(** ** Sums of integers are exact *)

Section ExactSums.

Lemma iter_pos_iter {A : Type} (f : A -> A) (n : positive) (a : A) :
  iter_pos f n a = Pos.iter f a n.
Proof.
  revert a. induction n as [n IH|n IH|]; intros a; simpl.
  - rewrite !IH. now rewrite <- !Pos.iter_swap.
  - now rewrite !IH.
  - reflexivity.
Qed.

Lemma digits2_pos_iter_xO (m n : positive) :
  digits2_pos (Pos.iter xO m n) = (digits2_pos m + n)%positive.
Proof.
  induction n as [|n IH] using Pos.peano_ind.
  - simpl. now rewrite Pos.add_1_r.
  - rewrite Pos.iter_succ. simpl. rewrite IH. lia.
Qed.

Lemma Zpos_shl (m : positive) (n : Z) :
  0 <= n -> Zpos (shl m n) = Zpos m * 2 ^ n.
Proof.
  intros Hn. destruct n as [|p|p]; simpl shl; try lia.
  induction p as [|p IH] using Pos.peano_ind.
  - simpl. lia.
  - rewrite Pos.iter_succ, Pos2Z.inj_xO, IH by lia.
    rewrite Pos2Z.inj_succ, Z.pow_succ_r by lia. ring.
Qed.

Lemma digits2_pos_shl (m : positive) (n : Z) :
  0 <= n -> Zpos (digits2_pos (shl m n)) = Zpos (digits2_pos m) + n.
Proof.
  intros Hn. destruct n as [|p|p]; simpl shl; try lia.
  rewrite digits2_pos_iter_xO. lia.
Qed.

Lemma shr_trailing (m n : positive) :
  Pos.iter shr_1
    {| shr_m := Zpos (Pos.iter xO m n); shr_r := false; shr_s := false |} n
  = {| shr_m := Zpos m; shr_r := false; shr_s := false |}.
Proof.
  induction n as [|n IH] using Pos.peano_ind.
  - reflexivity.
  - rewrite Pos.iter_succ_r, Pos.iter_succ. simpl. exact IH.
Qed.

Lemma digits2_pos_le (m : positive) (n : Z) :
  Zpos m < 2 ^ n -> Zpos (digits2_pos m) <= n.
Proof.
  revert n. induction m as [m IH|m IH|]; intros n H; simpl.
  - assert (0 < n) by (destruct n; simpl in H; lia).
    replace n with (Z.succ (n - 1)) in H by lia.
    rewrite Z.pow_succ_r in H by lia.
    specialize (IH (n - 1)). lia.
  - assert (0 < n) by (destruct n; simpl in H; lia).
    replace n with (Z.succ (n - 1)) in H by lia.
    rewrite Z.pow_succ_r in H by lia.
    specialize (IH (n - 1)). lia.
  - destruct n; simpl in H; lia.
Qed.

(** Rounding a canonical mantissa followed by [n] zero bits is exact. *)
Lemma binary_round_aux_trailing (sx : bool) (m : positive) (e n : Z) :
  fexp prec emax (Zpos (digits2_pos m) + e) = e ->
  e <= emax - prec -> 0 <= n ->
  binary_round_aux prec emax sx (Zpos (shl m n)) (e - n) loc_Exact
  = S754_finite sx m e.
Proof.
  intros Hc He Hn. unfold binary_round_aux, shr_fexp.
  cbn [Zdigits2 shr_record_of_loc].
  rewrite (digits2_pos_shl m n Hn).
  replace (Zpos (digits2_pos m) + n + (e - n)) with (Zpos (digits2_pos m) + e)
    by ring.
  rewrite Hc. replace (e - (e - n)) with n by ring.
  assert (Hshr : shr {| shr_m := Zpos (shl m n); shr_r := false; shr_s := false |}
                   (e - n) n
                 = ({| shr_m := Zpos m; shr_r := false; shr_s := false |}, e)).
  { destruct n as [|p|p]; simpl; try lia.
    - f_equal. ring.
    - rewrite iter_pos_iter, shr_trailing. f_equal. lia. }
  rewrite Hshr. cbn [shr_m loc_of_shr_record round_nearest_even Zdigits2
                       shr_record_of_loc].
  rewrite Hc, Z.sub_diag. cbn [shr shr_m].
  apply Z.leb_le in He. now rewrite He.
Qed.

Lemma shl_shl (m : positive) (a b : Z) :
  0 <= a -> 0 <= b -> shl (shl m a) b = shl m (a + b).
Proof.
  intros Ha Hb. apply Pos2Z.inj.
  rewrite !Zpos_shl, Z.pow_add_r by lia. ring.
Qed.

Lemma fexp_small (d : Z) : 0 < d -> fexp prec emax d = d - 53.
Proof. intros H. unfold fexp, emin, prec, emax. lia. Qed.

(** An integer below [2^53], written with [j] zero bits after it, rounds to
    itself. *)
Lemma binary_round_small (sx : bool) (m : positive) (j : Z) :
  Zpos (digits2_pos m) <= 53 -> 0 <= j ->
  binary_round prec emax sx (shl m j) (- j) = canonical sx m.
Proof.
  intros Hd Hj. unfold binary_round, canonical.
  set (d := Zpos (digits2_pos m)) in *.
  assert (Hcanon : fexp prec emax
                     (Zpos (digits2_pos (shl m (53 - d))) + (d - 53))
                   = d - 53).
  { rewrite digits2_pos_shl by lia. fold d.
    replace (d + (53 - d) + (d - 53)) with d by ring.
    apply fexp_small. subst d. lia. }
  rewrite digits2_pos_shl by lia. fold d.
  replace (d + j + - j) with d by ring.
  rewrite fexp_small by (subst d; lia).
  unfold shl_align.
  destruct (d - 53 - - j) as [|q|q] eqn:E.
  - replace (shl m j) with (shl (shl m (53 - d)) 0)
      by (rewrite shl_shl by lia; f_equal; lia).
    replace (- j) with (d - 53 - 0) by lia.
    apply binary_round_aux_trailing; unfold emax, prec; lia || exact Hcanon.
  - replace (shl m j) with (shl (shl m (53 - d)) (Zpos q))
      by (rewrite shl_shl by lia; f_equal; lia).
    replace (- j) with (d - 53 - Zpos q) by lia.
    apply binary_round_aux_trailing; unfold emax, prec; lia || exact Hcanon.
  - change (Pos.iter xO (shl m j) q) with (shl (shl m j) (Zpos q)).
    rewrite shl_shl by lia.
    replace (j + Zpos q) with (53 - d) by lia.
    replace (shl m (53 - d)) with (shl (shl m (53 - d)) 0) at 1 by reflexivity.
    replace (d - 53) with (d - 53 - 0) at 1 by lia.
    apply binary_round_aux_trailing; unfold emax, prec; lia || exact Hcanon.
Qed.

Lemma of_Z_canonical (z : Z) :
  safe_integer z ->
  of_Z z = match z with
           | Z0 => S754_zero false
           | Zpos p => canonical false p
           | Zneg p => canonical true p
           end.
Proof.
  unfold safe_integer. intros H.
  destruct z as [|p|p]; [reflexivity| |];
    unfold of_Z, of_decimal;
    change (Z.to_pos (10 ^ 0)) with 1%positive;
    rewrite Pos.mul_1_r;
    change p with (shl p 0) at 1; change 0 with (- 0) at 2;
    apply binary_round_small; try lia;
    apply digits2_pos_le; simpl Z.abs in H; lia.
Qed.

Lemma shl_align_value (m : positive) (e ez : Z) :
  ez <= e ->
  Zpos (fst (shl_align m e ez)) = Zpos m * 2 ^ (e - ez).
Proof.
  intros H. unfold shl_align.
  destruct (ez - e) as [|q|q] eqn:E; simpl fst.
  - replace (e - ez) with 0 by lia. simpl. lia.
  - lia.
  - change (Pos.iter xO m q) with (shl m (Zpos q)).
    rewrite Zpos_shl by lia. f_equal. f_equal. lia.
Qed.

(** The sum of two integers below [2^53], when it is below [2^53] too, is
    made without rounding. *)
Lemma add_of_Z (a b : Z) :
  safe_integer a -> safe_integer b -> safe_integer (a + b) ->
  (of_Z a + of_Z b)%js = of_Z (a + b).
Proof.
  intros Ha Hb Hab.
  rewrite (of_Z_canonical a Ha), (of_Z_canonical b Hb), (of_Z_canonical _ Hab).
  assert (Hgen : forall (sa sb : bool) (pa pb : positive),
             safe_integer (Zpos pa) -> safe_integer (Zpos pb) ->
             safe_integer (cond_Zopp sa (Zpos pa) + cond_Zopp sb (Zpos pb)) ->
             (canonical sa pa + canonical sb pb)%js
             = match cond_Zopp sa (Zpos pa) + cond_Zopp sb (Zpos pb) with
               | Z0 => S754_zero false
               | Zpos p => canonical false p
               | Zneg p => canonical true p
               end).
  { clear. intros sa sb pa pb Ha Hb Hab. unfold safe_integer in *.
    pose proof (digits2_pos_le pa 53 ltac:(simpl Z.abs in Ha; lia)) as Da.
    pose proof (digits2_pos_le pb 53 ltac:(simpl Z.abs in Hb; lia)) as Db.
    unfold add, canonical, SFadd.
    set (da := Zpos (digits2_pos pa)) in *.
    set (db := Zpos (digits2_pos pb)) in *.
    set (ez := Z.min (da - 53) (db - 53)).
    cbv zeta.
    assert (Hva : Zpos (fst (shl_align (shl pa (53 - da)) (da - 53) ez))
                  = Zpos pa * 2 ^ (- ez)).
    { rewrite shl_align_value, Zpos_shl by (subst ez; lia).
      rewrite <- Z.mul_assoc, <- Z.pow_add_r by (subst ez; lia).
      f_equal. f_equal. lia. }
    assert (Hvb : Zpos (fst (shl_align (shl pb (53 - db)) (db - 53) ez))
                  = Zpos pb * 2 ^ (- ez)).
    { rewrite shl_align_value, Zpos_shl by (subst ez; lia).
      rewrite <- Z.mul_assoc, <- Z.pow_add_r by (subst ez; lia).
      f_equal. f_equal. lia. }
    assert (Hsum : cond_Zopp sa (Zpos (fst (shl_align (shl pa (53 - da)) (da - 53) ez)))
                   + cond_Zopp sb (Zpos (fst (shl_align (shl pb (53 - db)) (db - 53) ez)))
                   = (cond_Zopp sa (Zpos pa) + cond_Zopp sb (Zpos pb)) * 2 ^ (- ez)).
    { rewrite Hva, Hvb. destruct sa, sb; unfold cond_Zopp; ring. }
    rewrite Hsum. clear Hsum Hva Hvb.
    assert (Hez : 0 <= - ez) by (subst ez; lia).
    destruct (cond_Zopp sa (Zpos pa) + cond_Zopp sb (Zpos pb)) as [|p|p].
    - reflexivity.
    - replace (Zpos p * 2 ^ (- ez)) with (Zpos (shl p (- ez)))
        by (now rewrite Zpos_shl).
      unfold binary_normalize.
      replace ez with (- - ez) at 2 by lia.
      apply binary_round_small; [|exact Hez].
      apply digits2_pos_le. simpl Z.abs in Hab. lia.
    - replace (Zneg p * 2 ^ (- ez)) with (Zneg (shl p (- ez)))
        by (rewrite <- !Pos2Z.opp_pos, Zpos_shl by lia; ring).
      unfold binary_normalize.
      replace ez with (- - ez) at 2 by lia.
      apply binary_round_small; [|exact Hez].
      apply digits2_pos_le. simpl Z.abs in Hab. lia. }
  destruct a as [|pa|pa], b as [|pb|pb]; try reflexivity.
  - apply (Hgen false false pa pb); assumption.
  - apply (Hgen false true pa pb); assumption.
  - apply (Hgen true false pa pb); assumption.
  - apply (Hgen true true pa pb); assumption.
Qed.

End ExactSums.

(** ** What one call does to the renderer *)

Section Calls.

Lemma applyTransform_this (r : Renderer.t) (e : HTMLElement) :
  this (Renderer.applyTransform r e) = r.
Proof.
  unfold Renderer.applyTransform.
  destruct (negb _); reflexivity.
Qed.

Lemma zoom_active (r : Renderer.t) (p : IZoomParams.t) :
  Renderer.isActiveFlag r = true ->
  this (Renderer.zoom r p)
  = Renderer.set_state r
      (Renderer.set_scale (Renderer.state r)
         (Math.max (minScale (Renderer.config r))
            (Math.min (maxScale (Renderer.config r))
               (scale (Renderer.state r)
                + IZoomParams.deltaScale p
                  / to_number (scaleSensitivity (Renderer.config r)))%js))).
Proof.
  intros H. unfold Renderer.zoom. rewrite H. simpl.
  apply applyTransform_this.
Qed.

Lemma panBy_active (r : Renderer.t) (p : IPanByParams.t) :
  Renderer.isActiveFlag r = true ->
  this (Renderer.panBy r p)
  = Renderer.set_state r
      {| originX := originX (Renderer.state r);
         originY := originY (Renderer.state r);
         translateX :=
           (translateX (Renderer.state r) + IPanByParams.originX p)%js;
         translateY :=
           (translateY (Renderer.state r) + IPanByParams.originY p)%js;
         scale := scale (Renderer.state r) |}.
Proof.
  intros H. unfold Renderer.panBy. rewrite H. simpl.
  apply applyTransform_this.
Qed.

Lemma zoom_outcome (r : Renderer.t) (p : IZoomParams.t) :
  Renderer.isActiveFlag r = true ->
  Renderer.zoom r p
  = Renderer.applyTransform
      (Renderer.set_state r
         (Renderer.set_scale (Renderer.state r)
            (Math.max (minScale (Renderer.config r))
               (Math.min (maxScale (Renderer.config r))
                  (scale (Renderer.state r)
                   + IZoomParams.deltaScale p
                     / to_number (scaleSensitivity (Renderer.config r)))%js))))
      (IZoomParams.element p).
Proof. intros H. unfold Renderer.zoom. now rewrite H. Qed.

Lemma panBy_outcome (r : Renderer.t) (p : IPanByParams.t) :
  Renderer.isActiveFlag r = true ->
  Renderer.panBy r p
  = Renderer.applyTransform
      (Renderer.set_state r
         {| originX := originX (Renderer.state r);
            originY := originY (Renderer.state r);
            translateX :=
              (translateX (Renderer.state r) + IPanByParams.originX p)%js;
            translateY :=
              (translateY (Renderer.state r) + IPanByParams.originY p)%js;
            scale := scale (Renderer.state r) |})
      (IPanByParams.element p).
Proof. intros H. unfold Renderer.panBy. now rewrite H. Qed.

Lemma panTo_outcome (r : Renderer.t) (p : IPanToParams.t) :
  Renderer.isActiveFlag r = true ->
  Renderer.panTo r p
  = Renderer.applyTransform
      (Renderer.set_state r
         {| originX := originX (Renderer.state r);
            originY := originY (Renderer.state r);
            translateX := IPanToParams.originX p;
            translateY := IPanToParams.originY p;
            scale :=
              match IPanToParams.scale p with
              | Some v =>
                  Math.max (minScale (Renderer.config r))
                    (Math.min (maxScale (Renderer.config r)) v)
              | None => scale (Renderer.state r)
              end |})
      (IPanToParams.element p).
Proof.
  intros H. unfold Renderer.panTo. rewrite H.
  destruct (IPanToParams.scale p); reflexivity.
Qed.

Lemma zoom_inactive (r : Renderer.t) (p : IZoomParams.t) :
  Renderer.isActiveFlag r = false ->
  Renderer.zoom r p
  = {| this := r; target := IZoomParams.element p; warnings := [] |}.
Proof. intros H. unfold Renderer.zoom. now rewrite H. Qed.

Lemma panBy_inactive (r : Renderer.t) (p : IPanByParams.t) :
  Renderer.isActiveFlag r = false ->
  Renderer.panBy r p
  = {| this := r; target := IPanByParams.element p; warnings := [] |}.
Proof. intros H. unfold Renderer.panBy. now rewrite H. Qed.

Lemma panTo_inactive (r : Renderer.t) (p : IPanToParams.t) :
  Renderer.isActiveFlag r = false ->
  Renderer.panTo r p
  = {| this := r; target := IPanToParams.element p; warnings := [] |}.
Proof. intros H. unfold Renderer.panTo. now rewrite H. Qed.

Lemma reset_inactive (r : Renderer.t) :
  Renderer.isActiveFlag r = false -> Renderer.reset r = r.
Proof. intros H. unfold Renderer.reset. now rewrite H. Qed.

End Calls.

(** ** The clamping invariant *)

Section ClampingInvariant.

Lemma zoom_step (r : Renderer.t) (p : IZoomParams.t) :
  well_configured r ->
  isNaN (IZoomParams.deltaScale p) = false ->
  well_configured (this (Renderer.zoom r p))
  /\ scale_in_bounds (this (Renderer.zoom r p)) = true.
Proof.
  intros (Hact & Hlo & Hhi & Hle & Hs & Hz & Hsc) Hd.
  rewrite (zoom_active r p Hact).
  set (cand := (scale (Renderer.state r) + _)%js).
  assert (Hc : isNaN cand = false).
  { apply add_finite_not_nan; [exact Hsc|].
    now apply div_finite_not_nan. }
  destruct (max_min_bounds _ _ cand Hle Hc) as [B1 B2].
  unfold well_configured, scale_in_bounds. simpl.
  rewrite B1, B2.
  repeat split; auto.
  now apply (between_finite _ _ _ Hlo Hhi B1 B2).
Qed.

Lemma constructor_well_configured (cfg : IRendererConfig) :
  Number.isFinite (minScale cfg) = true ->
  Number.isFinite (maxScale cfg) = true ->
  le (minScale cfg) (maxScale cfg) = true ->
  match scaleSensitivity cfg with
  | Absent => True
  | Undefined => False
  | Value s => Number.isFinite s = true /\ is_zero s = false
  end ->
  well_configured (Renderer.constructor cfg).
Proof.
  intros Hlo Hhi Hle Hs. unfold well_configured. simpl.
  repeat split; auto;
    destruct (scaleSensitivity cfg); simpl; try reflexivity; tauto.
Qed.

(** C1, the claim as stated fails: bounds in order and real deltas are
    not enough.  With [minScale = 0.1 <= maxScale = 10], a sensitivity of
    [0] and a delta of [0], the quotient [0 / 0] is [NaN] and so is the
    scale, which is then on neither side of either bound.  The same on the
    configuration whose [scaleSensitivity] holds [undefined]: the default
    does not apply and every delta is divided by [undefined].  And with
    [maxScale = Infinity] the scale can reach [Infinity], here by the step
    [1e300 / 1e-300], from where the step back gives [NaN]. *)
Lemma zoom_clamping_counterexample :
  let zero :=
    {| minScale := of_decimal false 1 (-1); maxScale := of_Z 10;
       scaleSensitivity := Value (of_Z 0) |} in
  let undef :=
    {| minScale := of_decimal false 1 (-1); maxScale := of_Z 10;
       scaleSensitivity := Undefined |} in
  let unbounded :=
    {| minScale := of_decimal false 1 (-1); maxScale := S754_infinity false;
       scaleSensitivity := Value (of_decimal false 1 (-300)) |} in
  let r0 :=
    zooms (Renderer.constructor zero)
      [zoom_params blank (of_Z 250) (of_Z 250) (of_Z 0)] in
  let r1 :=
    zooms (Renderer.constructor undef)
      [zoom_params blank (of_Z 250) (of_Z 250) (of_Z 1)] in
  let r2 :=
    zooms (Renderer.constructor unbounded)
      [zoom_params blank (of_Z 250) (of_Z 250) (of_decimal false 1 300);
       zoom_params blank (of_Z 250) (of_Z 250) (of_decimal true 1 300)] in
  le (minScale zero) (maxScale zero) = true
  /\ scale (Renderer.getState r0) = NaN
  /\ le (minScale zero) (scale (Renderer.getState r0)) = false
  /\ le (scale (Renderer.getState r0)) (maxScale zero) = false
  /\ scale (Renderer.getState r1) = NaN
  /\ le (minScale undef) (scale (Renderer.getState r1)) = false
  /\ le (scale (Renderer.getState r1)) (maxScale undef) = false
  /\ le (minScale unbounded) (maxScale unbounded) = true
  /\ scale (Renderer.getState r2) = NaN
  /\ le (minScale unbounded) (scale (Renderer.getState r2)) = false.
Proof. cbv zeta. repeat split; vm_compute; reflexivity. Qed.

(** C1, amended. For an engine built from finite bounds
    [minScale <= maxScale] and a sensitivity that is left out (the default
    [10] then applies) or is a finite number other than zero, and for every
    run of [zoom] calls whose deltas are numbers of any size, the
    infinities included (anything but [NaN]), the state after each call has
    [minScale <= scale <= maxScale]: [ps] is the run before the call and
    [p] the call looked at. *)
Theorem zoom_clamping_invariant
    (cfg : IRendererConfig) (ps : list IZoomParams.t) (p : IZoomParams.t) :
  Number.isFinite (minScale cfg) = true ->
  Number.isFinite (maxScale cfg) = true ->
  le (minScale cfg) (maxScale cfg) = true ->
  match scaleSensitivity cfg with
  | Absent => True
  | Undefined => False
  | Value s => Number.isFinite s = true /\ is_zero s = false
  end ->
  Forall (fun q => isNaN (IZoomParams.deltaScale q) = false) (ps ++ [p]) ->
  let r := zooms (Renderer.constructor cfg) (ps ++ [p]) in
  le (minScale cfg) (scale (Renderer.getState r)) = true
  /\ le (scale (Renderer.getState r)) (maxScale cfg) = true.
Proof.
  intros Hlo Hhi Hle Hs Hall.
  pose proof (constructor_well_configured cfg Hlo Hhi Hle Hs) as Hwc.
  assert (Hcfg : minScale (Renderer.config (Renderer.constructor cfg)) = minScale cfg
                 /\ maxScale (Renderer.config (Renderer.constructor cfg)) = maxScale cfg)
    by (split; reflexivity).
  destruct Hcfg as [E1 E2]. rewrite <- E1, <- E2. clear E1 E2.
  generalize dependent (Renderer.constructor cfg). clear Hlo Hhi Hle Hs.
  induction ps as [|a ps IH]; intros r0 Hwc; simpl in *.
  - inversion_clear Hall as [|? ? Hp _].
    destruct (zoom_step r0 p Hwc Hp) as [_ Hb].
    rewrite (zoom_active r0 p (proj1 Hwc)) in *.
    unfold scale_in_bounds in Hb. simpl in Hb.
    apply andb_true_iff in Hb. exact Hb.
  - inversion_clear Hall as [|? ? Ha Hrest].
    destruct (zoom_step r0 a Hwc Ha) as [Hwc' _].
    specialize (IH Hrest _ Hwc').
    rewrite (zoom_active r0 a (proj1 Hwc)) in *.
    simpl in IH. exact IH.
Qed.

End ClampingInvariant.

Lemma zoom_clamping_invariant_witness :
  let r :=
    zooms (Renderer.constructor test_config)
      ([zoom_params blank (of_Z 250) (of_Z 250) (of_Z 1000);
        zoom_params blank (of_Z 250) (of_Z 250) (S754_infinity true)]
       ++ [zoom_params blank (of_Z 250) (of_Z 250) (of_Z 1)])%list in
  le (minScale test_config) (scale (Renderer.getState r)) = true
  /\ le (scale (Renderer.getState r)) (maxScale test_config) = true.
Proof.
  apply (zoom_clamping_invariant test_config
           [zoom_params blank (of_Z 250) (of_Z 250) (of_Z 1000);
            zoom_params blank (of_Z 250) (of_Z 250) (S754_infinity true)]
           (zoom_params blank (of_Z 250) (of_Z 250) (of_Z 1))).
  - reflexivity.
  - reflexivity.
  - reflexivity.
  - simpl. split; reflexivity.
  - repeat constructor.
Defined.

(** ** The scenario of a thousand steps *)

(** C8. With [minScale = 0.1], [maxScale = 10] and [scaleSensitivity = 10],
    from the initial scale [1], a thousand calls [zoom(x, y, +1)] leave the
    scale at the double [10], and a thousand calls [zoom(x, y, -1)] leave it
    at the double [0.1], whatever the point and the element. *)
Theorem thousand_zooms_reach_the_bounds
    (element : HTMLElement) (x y : number) :
  scale (Renderer.getState
           (zoom_times 1000 (zoom_params element x y (of_Z 1))
              (Renderer.constructor test_config)))
  = of_Z 10
  /\ scale (Renderer.getState
              (zoom_times 1000 (zoom_params element x y (of_Z (-1)))
                 (Renderer.constructor test_config)))
     = of_decimal false 1 (-1).
Proof.
  split; vm_compute; reflexivity.
Qed.

(** ** After [destroy] *)

Section Destroyed.

Lemma invoke_inactive (r : Renderer.t) (c : Call) :
  Renderer.isActiveFlag r = false -> invoke r c = r.
Proof.
  intros H. destruct c as [p|p|p| |]; simpl.
  - now rewrite zoom_inactive.
  - now rewrite panBy_inactive.
  - now rewrite panTo_inactive.
  - now apply reset_inactive.
  - destruct r as [s c a]. simpl in H. subst a. reflexivity.
Qed.

Lemma run_inactive (cs : list Call) (r : Renderer.t) :
  Renderer.isActiveFlag r = false -> run r cs = r.
Proof.
  induction cs as [|c cs IH]; intros H; simpl.
  - reflexivity.
  - rewrite (invoke_inactive r c H). now apply IH.
Qed.

(** C5. Once [destroy()] has been called, every run of [zoom], [panBy],
    [panTo], [reset] (and further [destroy]) calls returns normally and
    leaves the engine as [destroy] left it, so [getState()] is what it was
    before; each of the calls hands the element back untouched and writes
    no warning; and a second [destroy()] changes nothing. *)
Theorem destroyed_engine_is_frozen (r : Renderer.t) (cs : list Call) :
  run (Renderer.destroy r) cs = Renderer.destroy r
  /\ Renderer.getState (run (Renderer.destroy r) cs) = Renderer.getState r
  /\ Renderer.isActive (run (Renderer.destroy r) cs) = false
  /\ (forall p,
        Renderer.zoom (Renderer.destroy r) p
        = {| this := Renderer.destroy r;
             target := IZoomParams.element p; warnings := [] |})
  /\ (forall p,
        Renderer.panBy (Renderer.destroy r) p
        = {| this := Renderer.destroy r;
             target := IPanByParams.element p; warnings := [] |})
  /\ (forall p,
        Renderer.panTo (Renderer.destroy r) p
        = {| this := Renderer.destroy r;
             target := IPanToParams.element p; warnings := [] |})
  /\ Renderer.reset (Renderer.destroy r) = Renderer.destroy r
  /\ Renderer.destroy (Renderer.destroy r) = Renderer.destroy r.
Proof.
  assert (H : Renderer.isActiveFlag (Renderer.destroy r) = false)
    by reflexivity.
  rewrite (run_inactive cs _ H).
  repeat split; intros;
    auto using zoom_inactive, panBy_inactive, panTo_inactive, reset_inactive.
Qed.

End Destroyed.

(** ** What [panBy] touches *)

Section Pan.

(** C10. [panBy] changes nothing but [translateX] and [translateY]: the
    scale, both origins, the configuration and the active flag of the
    engine are after the call what they were before, for every engine
    (active or not) and all deltas. *)
Theorem panBy_frame (r : Renderer.t) (p : IPanByParams.t) :
  let r' := this (Renderer.panBy r p) in
  scale (Renderer.getState r') = scale (Renderer.getState r)
  /\ originX (Renderer.getState r') = originX (Renderer.getState r)
  /\ originY (Renderer.getState r') = originY (Renderer.getState r)
  /\ Renderer.config r' = Renderer.config r
  /\ Renderer.isActiveFlag r' = Renderer.isActiveFlag r.
Proof.
  destruct (Renderer.isActiveFlag r) eqn:H; cbv zeta.
  - rewrite (panBy_active r p H). simpl. rewrite H. tauto.
  - rewrite (panBy_inactive r p H). simpl. rewrite H. tauto.
Qed.

(** C6, the claim as stated fails: from [translateX = 1], [panBy(0.1, 0)]
    then [panBy(0.1, 0)] leaves [translateX = 1.2000000000000002], while
    the single call [panBy(0.1 + 0.1, 0 + 0)], whose first delta is the
    double [0.2] with nothing lost, leaves [1.2]. *)
Lemma pan_additivity_counterexample :
  let r0 :=
    this (Renderer.panTo (Renderer.constructor test_config)
            (panTo_params blank (of_Z 1) (of_Z 0) None)) in
  let a := of_decimal false 1 (-1) in
  let c := of_decimal false 1 (-1) in
  let two :=
    this (Renderer.panBy (this (Renderer.panBy r0 (panBy_params blank a (of_Z 0))))
            (panBy_params blank c (of_Z 0))) in
  let one :=
    this (Renderer.panBy r0
            (panBy_params blank (a + c)%js (of_Z 0 + of_Z 0)%js)) in
  Renderer.isActive r0 = true
  /\ (a + c)%js = of_decimal false 2 (-1)
  /\ toString (translateX (Renderer.getState two)) = "1.2000000000000002"
  /\ toString (translateX (Renderer.getState one)) = "1.2"
  /\ translateX (Renderer.getState two) <> translateX (Renderer.getState one).
Proof.
  cbv zeta. repeat split; try (vm_compute; reflexivity).
  vm_compute. discriminate.
Qed.

(** C6, amended. On an active engine [panBy(a, b)] then [panBy(c, d)]
    leaves [translateX = (tx + a) + c] and [translateY = (ty + b) + d],
    each sum rounded to a double as it is made, and the single call
    [panBy(a + c, b + d)] leaves [tx + (a + c)] and [ty + (b + d)]; so the
    two translations are the same whenever the sums of doubles associate at
    these values.  They do when the translation and the deltas are integers
    and every sum formed is a safe integer (below [2^53] in absolute
    value): both ways then end at the doubles of [x + a + c] and
    [y + b + d]. *)
Theorem pan_additivity_up_to_rounding
    (r : Renderer.t) (e1 e2 e3 : HTMLElement) :
  Renderer.isActiveFlag r = true ->
  let tx := translateX (Renderer.getState r) in
  let ty := translateY (Renderer.getState r) in
  let two a b c d :=
    Renderer.getState
      (this (Renderer.panBy (this (Renderer.panBy r (panBy_params e1 a b)))
               (panBy_params e2 c d))) in
  let one a b c d :=
    Renderer.getState
      (this (Renderer.panBy r (panBy_params e3 (a + c)%js (b + d)%js))) in
  (forall a b c d : number,
      translateX (two a b c d) = ((tx + a) + c)%js
      /\ translateY (two a b c d) = ((ty + b) + d)%js
      /\ translateX (one a b c d) = (tx + (a + c))%js
      /\ translateY (one a b c d) = (ty + (b + d))%js
      /\ (((tx + a) + c = tx + (a + c))%js ->
          ((ty + b) + d = ty + (b + d))%js ->
          translateX (two a b c d) = translateX (one a b c d)
          /\ translateY (two a b c d) = translateY (one a b c d)))
  /\ (forall x y a b c d : Z,
        tx = of_Z x -> ty = of_Z y ->
        safe_sums x a c -> safe_sums y b d ->
        translateX (two (of_Z a) (of_Z b) (of_Z c) (of_Z d)) = of_Z (x + a + c)
        /\ translateY (two (of_Z a) (of_Z b) (of_Z c) (of_Z d))
           = of_Z (y + b + d)
        /\ translateX (one (of_Z a) (of_Z b) (of_Z c) (of_Z d))
           = of_Z (x + a + c)
        /\ translateY (one (of_Z a) (of_Z b) (of_Z c) (of_Z d))
           = of_Z (y + b + d)).
Proof.
  intros H. cbv zeta.
  assert (Hform : forall a b c d : number,
             Renderer.getState
               (this (Renderer.panBy
                        (this (Renderer.panBy r (panBy_params e1 a b)))
                        (panBy_params e2 c d)))
             = {| originX := originX (Renderer.state r);
                  originY := originY (Renderer.state r);
                  translateX := ((translateX (Renderer.state r) + a) + c)%js;
                  translateY := ((translateY (Renderer.state r) + b) + d)%js;
                  scale := scale (Renderer.state r) |}
             /\ Renderer.getState
                  (this (Renderer.panBy r (panBy_params e3 (a + c)%js (b + d)%js)))
                = {| originX := originX (Renderer.state r);
                     originY := originY (Renderer.state r);
                     translateX := (translateX (Renderer.state r) + (a + c))%js;
                     translateY := (translateY (Renderer.state r) + (b + d))%js;
                     scale := scale (Renderer.state r) |}).
  { intros a b c d.
    rewrite (panBy_active r (panBy_params e3 _ _) H).
    rewrite (panBy_active r (panBy_params e1 _ _) H).
    rewrite panBy_active by (simpl; exact H).
    split; reflexivity. }
  split.
  - intros a b c d. destruct (Hform a b c d) as [E2 E1].
    rewrite E2, E1. simpl. repeat split; auto.
  - intros x y a b c d Ex Ey (Sx & Sa & Sc & Sac & Sxa & Sxac)
      (Sy & Sb & Sd & Sbd & Syb & Sybd).
    destruct (Hform (of_Z a) (of_Z b) (of_Z c) (of_Z d)) as [E2 E1].
    rewrite E2, E1. simpl.
    unfold Renderer.getState in Ex, Ey. rewrite Ex, Ey.
    rewrite !add_of_Z; try assumption.
    + repeat split; f_equal; ring.
    + now replace (y + (b + d)) with (y + b + d) by ring.
    + now replace (x + (a + c)) with (x + a + c) by ring.
Qed.

Lemma pan_additivity_up_to_rounding_witness :
  let r := Renderer.constructor test_config in
  let two :=
    this (Renderer.panBy
            (this (Renderer.panBy r (panBy_params blank (of_Z 50) (of_Z 50))))
            (panBy_params blank (of_Z 30) (of_Z (-20)))) in
  let one :=
    this (Renderer.panBy r
            (panBy_params blank (of_Z 50 + of_Z 30)%js
               (of_Z 50 + of_Z (-20))%js)) in
  translateX (Renderer.getState two) = translateX (Renderer.getState one)
  /\ translateY (Renderer.getState two) = translateY (Renderer.getState one).
Proof.
  cbv zeta.
  destruct (pan_additivity_up_to_rounding (Renderer.constructor test_config)
              blank blank blank eq_refl) as [_ Hint].
  destruct (Hint 0 0 50 50 30 (-20) eq_refl eq_refl) as (X2 & Y2 & X1 & Y1).
  - unfold safe_sums, safe_integer. simpl. lia.
  - unfold safe_sums, safe_integer. simpl. lia.
  - rewrite X2, Y2, X1, Y1. split; reflexivity.
Defined.

End Pan.

(** ** The point handed to [zoom] *)

Section ZoomOrigin.

(** C3. The code at a point other than the origin: [zoom] at [(250, 250)]
    on a new engine leaves both origins at [0], writes [0px 0px] as the
    [transformOrigin] of the element, and leaves the translation at [0]
    too.  The method is documented to zoom at the point it is handed and
    the parameters [x] and [y] to be that point; it reads neither. *)
Lemma zoom_origin_counterexample :
  let r := Renderer.constructor test_config in
  let o := Renderer.zoom r (zoom_params blank (of_Z 250) (of_Z 250) (of_Z 1)) in
  Renderer.isActive r = true
  /\ originX (Renderer.getState (this o)) = of_Z 0
  /\ originY (Renderer.getState (this o)) = of_Z 0
  /\ originX (Renderer.getState (this o)) <> of_Z 250
  /\ originY (Renderer.getState (this o)) <> of_Z 250
  /\ transformOrigin (style (target o)) = "0px 0px"
  /\ translateX (Renderer.getState (this o)) = of_Z 0
  /\ translateY (Renderer.getState (this o)) = of_Z 0
  /\ transform (style (target o)) = "matrix(1.1, 0, 0, 1.1, 0, 0)".
Proof.
  cbv zeta. repeat split; try (vm_compute; reflexivity);
    vm_compute; discriminate.
Qed.

(** The same at every input: [zoom] does not read the point.  For every
    engine and every call, [originX] and [originY] are after the call what
    they were before, and the outcome of the call is the same for every
    [x] and [y]. *)
Theorem zoom_keeps_origin
    (r : Renderer.t) (element : HTMLElement) (x y deltaScale : number) :
  let o := Renderer.zoom r (zoom_params element x y deltaScale) in
  originX (Renderer.getState (this o)) = originX (Renderer.getState r)
  /\ originY (Renderer.getState (this o)) = originY (Renderer.getState r)
  /\ forall x' y',
       Renderer.zoom r (zoom_params element x' y' deltaScale) = o.
Proof.
  cbv zeta. destruct (Renderer.isActiveFlag r) eqn:H.
  - rewrite (zoom_active r _ H). simpl. repeat split; reflexivity.
  - rewrite (zoom_inactive r _ H). simpl. repeat split.
    intros. now rewrite (zoom_inactive r _ H).
Qed.

End ZoomOrigin.

(** ** The two formulas for the new scale *)

Section ScaleFormula.

(** C4, the claim as stated fails: at scale [2] with delta [1] and
    sensitivity [10], [calculateScale] gives [2.2], not the clamp of
    [2 + 1 / 10 = 2.1]. *)
Lemma calculateScale_counterexample :
  let lo := of_decimal false 1 (-1) in
  let got := snd (calc.calculateScale (of_Z 2) (of_Z 1) lo (of_Z 10) (of_Z 10)) in
  let plain := clamp (of_Z 2 + of_Z 1 / of_Z 10)%js lo (of_Z 10) in
  toString got = "2.2" /\ toString plain = "2.1" /\ got <> plain.
Proof.
  cbv zeta. repeat split; try (vm_compute; reflexivity).
  vm_compute. discriminate.
Qed.

(** C4, amended. [calculateScale] returns the old scale and the clamp of
    [scale + deltaScale / (scaleSensitivity / scale)]: its divisor is the
    sensitivity divided by the current scale.  The plain divisor is what
    [Renderer.zoom] uses: on an active engine it stores the clamp of
    [scale + deltaScale / scaleSensitivity]. *)
Theorem scale_formulas
    (scale0 deltaScale minScale0 maxScale0 sensitivity : number)
    (r : Renderer.t) (p : IZoomParams.t) :
  Renderer.isActiveFlag r = true ->
  calc.calculateScale scale0 deltaScale minScale0 maxScale0 sensitivity
  = (scale0,
     Math.max minScale0
       (Math.min (scale0 + deltaScale / (sensitivity / scale0))%js maxScale0))
  /\ scale (Renderer.getState (this (Renderer.zoom r p)))
     = Math.max (minScale (Renderer.config r))
         (Math.min (maxScale (Renderer.config r))
            (scale (Renderer.getState r)
             + IZoomParams.deltaScale p
               / to_number (scaleSensitivity (Renderer.config r)))%js).
Proof.
  intros H. split.
  - reflexivity.
  - rewrite (zoom_active r p H). reflexivity.
Qed.

Lemma scale_formulas_witness :
  calc.calculateScale (of_Z 2) (of_Z 1) (of_decimal false 1 (-1)) (of_Z 10)
    (of_Z 10)
  = (of_Z 2, of_decimal false 22 (-1))
  /\ scale (Renderer.getState
              (this (Renderer.zoom (Renderer.constructor test_config)
                       (zoom_params blank (of_Z 250) (of_Z 250) (of_Z 1)))))
     = of_decimal false 11 (-1).
Proof.
  destruct (scale_formulas (of_Z 2) (of_Z 1) (of_decimal false 1 (-1))
              (of_Z 10) (of_Z 10) (Renderer.constructor test_config)
              (zoom_params blank (of_Z 250) (of_Z 250) (of_Z 1))
              eq_refl) as [H1 H2].
  split.
  - rewrite H1. vm_compute. reflexivity.
  - rewrite H2. vm_compute. reflexivity.
Defined.

End ScaleFormula.

(** ** Candidates that are not finite *)

Section InvalidCandidates.

Lemma applyTransform_invalid (r : Renderer.t) (e : HTMLElement) :
  valid_state (Renderer.state r) = false ->
  Renderer.applyTransform r e
  = {| this := r; target := e; warnings := [Renderer.warning] |}.
Proof.
  unfold valid_state, Renderer.applyTransform. intros H. now rewrite H.
Qed.

Lemma applyTransform_valid (r : Renderer.t) (e : HTMLElement) :
  valid_state (Renderer.state r) = true ->
  Renderer.applyTransform r e
  = {| this := r;
       target :=
         {| style :=
              {| transformOrigin :=
                   toString (originX (Renderer.state r)) ++ "px "
                   ++ toString (originY (Renderer.state r)) ++ "px";
                 transform :=
                   calc.getMatrixTransform (scale (Renderer.state r))
                     (translateX (Renderer.state r))
                     (translateY (Renderer.state r)) |} |};
       warnings := [] |}.
Proof.
  unfold valid_state, Renderer.applyTransform. intros H. now rewrite H.
Qed.

(** C2, the claim as stated fails: [zoom] with [deltaScale = NaN] on a new
    engine has the candidate [1 + NaN / 10 = NaN], and afterwards
    [getState()] is not what it was: the scale is [NaN]. *)
Lemma nan_zoom_counterexample :
  let r := Renderer.constructor test_config in
  let p := zoom_params blank (of_Z 250) (of_Z 250) NaN in
  let candidate :=
    (scale (Renderer.getState r)
     + IZoomParams.deltaScale p
       / to_number (scaleSensitivity (Renderer.config r)))%js in
  Renderer.isActive r = true
  /\ Number.isFinite candidate = false
  /\ scale (Renderer.getState (this (Renderer.zoom r p))) = NaN
  /\ Renderer.getState (this (Renderer.zoom r p)) <> Renderer.getState r.
Proof.
  cbv zeta. repeat split; try (vm_compute; reflexivity).
  vm_compute. discriminate.
Qed.

(** C2, amended. On an active engine [zoom], [panBy] and [panTo] store
    what they computed whether it is finite or not: the clamp of the
    candidate scale (which is [NaN] when the candidate is), the sums, the
    targets.  When the state they leave is not finite in [scale],
    [translateX] or [translateY], what is withheld is the emission: the
    element is handed back untouched and one warning is written. *)
Theorem invalid_candidate_is_stored_not_emitted (r : Renderer.t) :
  Renderer.isActiveFlag r = true ->
  (forall p : IZoomParams.t,
      let o := Renderer.zoom r p in
      let candidate :=
        (scale (Renderer.getState r)
         + IZoomParams.deltaScale p
           / to_number (scaleSensitivity (Renderer.config r)))%js in
      scale (Renderer.getState (this o))
      = Math.max (minScale (Renderer.config r))
          (Math.min (maxScale (Renderer.config r)) candidate)
      /\ (isNaN candidate = true -> scale (Renderer.getState (this o)) = NaN)
      /\ (valid_state (Renderer.getState (this o)) = false ->
          target o = IZoomParams.element p
          /\ warnings o = [Renderer.warning]))
  /\ (forall p : IPanByParams.t,
        let o := Renderer.panBy r p in
        translateX (Renderer.getState (this o))
        = (translateX (Renderer.getState r) + IPanByParams.originX p)%js
        /\ translateY (Renderer.getState (this o))
           = (translateY (Renderer.getState r) + IPanByParams.originY p)%js
        /\ (valid_state (Renderer.getState (this o)) = false ->
            target o = IPanByParams.element p
            /\ warnings o = [Renderer.warning]))
  /\ (forall p : IPanToParams.t,
        let o := Renderer.panTo r p in
        translateX (Renderer.getState (this o)) = IPanToParams.originX p
        /\ translateY (Renderer.getState (this o)) = IPanToParams.originY p
        /\ (valid_state (Renderer.getState (this o)) = false ->
            target o = IPanToParams.element p
            /\ warnings o = [Renderer.warning])).
Proof.
  intros H. split; [|split]; intros p; cbv zeta.
  - rewrite (zoom_outcome r p H), applyTransform_this.
    split; [reflexivity|split].
    + intros Hc. simpl.
      destruct (_ + _)%js; try discriminate. apply max_min_nan.
    + intros Hv. now rewrite (applyTransform_invalid _ _ Hv).
  - rewrite (panBy_outcome r p H), applyTransform_this.
    split; [reflexivity|split; [reflexivity|]]. intros Hv.
    now rewrite (applyTransform_invalid _ _ Hv).
  - rewrite (panTo_outcome r p H), applyTransform_this.
    split; [reflexivity|split; [reflexivity|]]. intros Hv.
    now rewrite (applyTransform_invalid _ _ Hv).
Qed.

End InvalidCandidates.

Lemma invalid_candidate_is_stored_not_emitted_witness :
  let r := Renderer.constructor test_config in
  let e := {| style := {| transformOrigin := "0px 0px";
                          transform := "matrix(1, 0, 0, 1, 0, 0)" |} |} in
  let o := Renderer.zoom r (zoom_params e (of_Z 250) (of_Z 250) NaN) in
  scale (Renderer.getState (this o)) = NaN
  /\ target o = e
  /\ warnings o = [Renderer.warning].
Proof.
  cbv zeta.
  destruct (invalid_candidate_is_stored_not_emitted
              (Renderer.constructor test_config) eq_refl) as [Hzoom _].
  destruct (Hzoom (zoom_params
                     {| style := {| transformOrigin := "0px 0px";
                                    transform := "matrix(1, 0, 0, 1, 0, 0)" |} |}
                     (of_Z 250) (of_Z 250) NaN)) as (_ & H1 & H2).
  split.
  - apply H1. reflexivity.
  - apply H2. vm_compute. reflexivity.
Defined.

(** ** [applyTransform] and the active flag *)

Section ApplyTransform.

(** C9. [applyTransform] does not look at the active flag: after
    [destroy()] it does to the element, and writes to the console, what it
    does on the engine before [destroy()]; and when the scale and both
    translations are finite it sets [transformOrigin] to the two origins
    in pixels and [transform] to the descriptor, without a warning. *)
Theorem applyTransform_after_destroy (r : Renderer.t) (e : HTMLElement) :
  valid_state (Renderer.getState r) = true ->
  let o := Renderer.applyTransform (Renderer.destroy r) e in
  target o = target (Renderer.applyTransform r e)
  /\ warnings o = warnings (Renderer.applyTransform r e)
  /\ Renderer.isActive (this o) = false
  /\ transformOrigin (style (target o))
     = toString (originX (Renderer.getState r)) ++ "px "
       ++ toString (originY (Renderer.getState r)) ++ "px"
  /\ transform (style (target o))
     = calc.getMatrixTransform (scale (Renderer.getState r))
         (translateX (Renderer.getState r))
         (translateY (Renderer.getState r))
  /\ warnings o = [].
Proof.
  intros H. cbv zeta.
  rewrite (applyTransform_valid (Renderer.destroy r) e H).
  rewrite (applyTransform_valid r e H).
  simpl. repeat split; reflexivity.
Qed.

Lemma applyTransform_after_destroy_witness :
  let r :=
    this (Renderer.panTo (Renderer.constructor test_config)
            (panTo_params blank (of_Z 100) (of_Z 150) (Some (of_Z 2)))) in
  let o := Renderer.applyTransform (Renderer.destroy r) blank in
  Renderer.isActive (this o) = false
  /\ transformOrigin (style (target o)) = "0px 0px"
  /\ transform (style (target o)) = "matrix(2, 0, 0, 2, 100, 150)".
Proof.
  cbv zeta.
  destruct (applyTransform_after_destroy
              (this (Renderer.panTo (Renderer.constructor test_config)
                       (panTo_params blank (of_Z 100) (of_Z 150)
                          (Some (of_Z 2)))))
              blank eq_refl) as (_ & _ & H3 & H4 & H5 & _).
  split; [exact H3|split].
  - rewrite H4. vm_compute. reflexivity.
  - rewrite H5. vm_compute. reflexivity.
Defined.

End ApplyTransform.

(** ** Strings of plain characters *)

Section PlainStrings.

Lemma string_forall_app (P : ascii -> bool) (s1 s2 : string) :
  string_forall P (s1 ++ s2) = string_forall P s1 && string_forall P s2.
Proof.
  induction s1 as [|c s1 IH]; simpl.
  - reflexivity.
  - now rewrite IH, andb_assoc.
Qed.

Lemma string_forall_impl (P Q : ascii -> bool) (s : string) :
  (forall c, P c = true -> Q c = true) ->
  string_forall P s = true -> string_forall Q s = true.
Proof.
  intros HPQ. induction s as [|c s IH]; simpl; auto.
  intros H. apply andb_true_iff in H. destruct H as [H1 H2].
  now rewrite (HPQ c H1), IH.
Qed.

Lemma string_forall_take (P : ascii -> bool) (n : nat) (s : string) :
  string_forall P s = true -> string_forall P (string_take n s) = true.
Proof.
  revert s. induction n as [|n IH]; intros [|c s]; simpl; auto.
  intros H. apply andb_true_iff in H. destruct H as [H1 H2].
  now rewrite H1, IH.
Qed.

Lemma string_forall_drop (P : ascii -> bool) (n : nat) (s : string) :
  string_forall P s = true -> string_forall P (string_drop n s) = true.
Proof.
  revert s. induction n as [|n IH]; intros [|c s]; simpl; auto.
  intros H. apply andb_true_iff in H. destruct H as [H1 H2]. now apply IH.
Qed.

Lemma string_forall_repeat (P : ascii -> bool) (c : ascii) (n : nat) :
  P c = true -> string_forall P (string_repeat c n) = true.
Proof.
  intros H. induction n as [|n IH]; simpl; auto. now rewrite H, IH.
Qed.

Lemma is_digit_plain (c : ascii) : is_digit c = true -> plain_char c = true.
Proof.
  destruct c as [[] [] [] [] [] [] [] []]; vm_compute; congruence.
Qed.

Lemma uint_digits (d : Decimal.uint) :
  string_forall is_digit (NilEmpty.string_of_uint d) = true.
Proof.
  induction d; simpl; auto.
Qed.

Lemma digit_string_digits (n : N) :
  string_forall is_digit (digit_string n) = true.
Proof.
  unfold digit_string, NilZero.string_of_uint.
  destruct (N.to_uint n) eqn:E; try reflexivity; rewrite <- E;
    apply uint_digits.
Qed.

Lemma digit_string_plain (n : N) :
  string_forall plain_char (digit_string n) = true.
Proof.
  apply (string_forall_impl is_digit); auto using is_digit_plain, digit_string_digits.
Qed.

Lemma format_digits_plain (s k n : Z) :
  string_forall plain_char (format_digits s k n) = true.
Proof.
  unfold format_digits.
  pose proof (digit_string_plain (Z.to_N s)) as Hs.
  pose proof (digit_string_plain (Z.to_N (Z.abs (n - 1)))) as He.
  assert (Hsign : string_forall plain_char (if n - 1 <? 0 then "-" else "+")
                  = true) by (destruct (n - 1 <? 0); reflexivity).
  repeat match goal with
         | |- context [if ?b && ?c then _ else _] => destruct (b && c)
         | |- context [if ?k =? 1 then _ else _] => destruct (k =? 1)
         end;
    repeat rewrite string_forall_app;
    rewrite ?string_forall_take, ?string_forall_drop, ?string_forall_repeat,
      ?Hs, ?He, ?Hsign by (exact Hs || reflexivity);
    reflexivity.
Qed.

(** The text of a number has no comma, no parenthesis and no space. *)
Lemma toString_plain (x : number) :
  string_forall plain_char (toString x) = true.
Proof.
  destruct x as [s|[]| |s m e]; try reflexivity.
  unfold toString, positive_toString.
  rewrite string_forall_app.
  destruct (ratio_of m e) as [p q].
  assert (H : string_forall plain_char (if s then "-" else "") = true)
    by (destruct s; reflexivity).
  rewrite H, andb_true_l.
  match goal with
  | |- context [shortest ?f ?x ?a ?b ?c ?d] =>
      destruct (shortest f x a b c d) as [[[s' k] n']|]
  end; apply format_digits_plain.
Qed.

End PlainStrings.

(** ** Reading a descriptor back *)

Section ReadBack.

Lemma append_assoc (a b c : string) : ((a ++ b) ++ c = a ++ (b ++ c))%string.
Proof.
  induction a as [|x a IH]; simpl; [reflexivity | now rewrite IH].
Qed.

Lemma append_nil_r (a : string) : (a ++ "" = a)%string.
Proof.
  induction a as [|x a IH]; simpl; [reflexivity | now rewrite IH].
Qed.

Lemma string_rev_append_twice (s acc acc' : string) :
  string_rev_append (string_rev_append s acc) acc'
  = string_rev_append acc (s ++ acc').
Proof.
  revert acc acc'. induction s as [|c s IH]; intros acc acc'; simpl.
  - reflexivity.
  - now rewrite IH.
Qed.

Lemma string_rev_involutive (s : string) : string_rev (string_rev s) = s.
Proof.
  unfold string_rev. rewrite string_rev_append_twice. simpl.
  apply append_nil_r.
Qed.

Lemma string_forall_rev_append (P : ascii -> bool) (s acc : string) :
  string_forall P (string_rev_append s acc)
  = string_forall P s && string_forall P acc.
Proof.
  revert acc. induction s as [|c s IH]; intros acc; simpl.
  - reflexivity.
  - rewrite IH. simpl. now rewrite andb_assoc, (andb_comm (P c)).
Qed.

Lemma trimStart_plain (s : string) :
  string_forall plain_char s = true -> trimStart s = s.
Proof.
  destruct s as [|c s]; simpl; [reflexivity|].
  unfold plain_char. intros H.
  destruct (is_white_space c); [|reflexivity].
  rewrite andb_false_r in H. discriminate.
Qed.

Lemma trim_plain (s : string) :
  string_forall plain_char s = true -> trim s = s.
Proof.
  intros H. unfold trim, trimEnd. rewrite (trimStart_plain s H).
  rewrite trimStart_plain.
  - apply string_rev_involutive.
  - unfold string_rev. rewrite string_forall_rev_append, H. reflexivity.
Qed.

Lemma trim_space_plain (s : string) :
  string_forall plain_char s = true -> trim (String " " s) = s.
Proof.
  intros H. unfold trim. simpl trimStart.
  rewrite (trimStart_plain s H). unfold trimEnd.
  rewrite trimStart_plain.
  - apply string_rev_involutive.
  - unfold string_rev. rewrite string_forall_rev_append, H. reflexivity.
Qed.

Lemma split_no_sep (sep : ascii) (a : string) :
  string_forall (fun c => negb (Ascii.eqb c sep)) a = true ->
  split sep a = [a].
Proof.
  induction a as [|c a IH]; simpl; [reflexivity|].
  intros H. apply andb_true_iff in H. destruct H as [H1 H2].
  apply negb_true_iff in H1. now rewrite H1, (IH H2).
Qed.

Lemma split_app_sep (sep : ascii) (a rest : string) :
  string_forall (fun c => negb (Ascii.eqb c sep)) a = true ->
  split sep (a ++ String sep rest) = a :: split sep rest.
Proof.
  induction a as [|c a IH]; simpl.
  - intros _. now rewrite Ascii.eqb_refl.
  - intros H. apply andb_true_iff in H. destruct H as [H1 H2].
    apply negb_true_iff in H1. now rewrite H1, (IH H2).
Qed.

(** [split(",")] undoes [join(",")] on parts without a comma. *)
Lemma split_join_commas (parts : list string) :
  parts <> [] ->
  Forall (fun a => string_forall (fun c => negb (Ascii.eqb c ",")) a = true)
    parts ->
  split "," (join_commas parts) = parts.
Proof.
  induction parts as [|a [|b rest] IH]; intros Hne Hall.
  - congruence.
  - inversion_clear Hall. simpl. now apply split_no_sep.
  - inversion_clear Hall as [|? ? Ha Hrest].
    change (join_commas (a :: b :: rest))
      with (a ++ String "," (join_commas (b :: rest)))%string.
    rewrite (split_app_sep _ _ _ Ha), IH; [reflexivity|discriminate|exact Hrest].
Qed.

Lemma dot_plus_paren_body (body : string) :
  body <> EmptyString ->
  string_forall inner_char body = true ->
  dot_plus_paren (body ++ ")") = Some body.
Proof.
  induction body as [|c body IH]; [congruence|].
  intros _ H. simpl in H. apply andb_true_iff in H. destruct H as [Hc Hb].
  unfold inner_char in Hc. apply andb_true_iff in Hc.
  destruct Hc as [_ Hlt]. apply negb_true_iff in Hlt.
  change (dot_plus_paren (String c body ++ ")"))
    with (if is_line_terminator c then None
          else match dot_plus_paren (body ++ ")") with
               | Some cap => Some (String c cap)
               | None =>
                   match (body ++ ")")%string with
                   | String c' _ =>
                       if Ascii.eqb c' ")" then Some (String c EmptyString)
                       else None
                   | EmptyString => None
                   end
               end).
  rewrite Hlt.
  destruct body as [|c' body'].
  - reflexivity.
  - rewrite IH; [reflexivity|discriminate|exact Hb].
Qed.

Lemma match_matrix_body (body : string) :
  body <> EmptyString ->
  string_forall inner_char body = true ->
  match_matrix ("matrix(" ++ (body ++ ")")) = Some body.
Proof.
  intros Hne Hin. cbn - [dot_plus_paren].
  assert (Hp : prefix "" (body ++ ")") = true)
    by (destruct (body ++ ")")%string; reflexivity).
  now rewrite Hp, (dot_plus_paren_body body Hne Hin).
Qed.

Lemma plain_no_comma (s : string) :
  string_forall plain_char s = true ->
  string_forall (fun c => negb (Ascii.eqb c ",")) s = true.
Proof.
  apply string_forall_impl. unfold plain_char. intros c H.
  apply andb_true_iff in H. destruct H as [H _].
  apply andb_true_iff in H. tauto.
Qed.

Lemma plain_inner (s : string) :
  string_forall plain_char s = true -> string_forall inner_char s = true.
Proof.
  apply string_forall_impl. intros c.
  destruct c as [[] [] [] [] [] [] [] []]; vm_compute; congruence.
Qed.

(** The descriptor is ["matrix("], six parts joined by commas, and [")"]. *)
Lemma getMatrixTransform_join (s tx ty : number) :
  calc.getMatrixTransform s tx ty
  = ("matrix("
     ++ (join_commas
           [toString s; " 0"; " 0"; String " " (toString s);
            String " " (toString tx); String " " (toString ty)]
         ++ ")"))%string.
Proof.
  unfold calc.getMatrixTransform. cbn [join_commas].
  repeat (rewrite append_assoc || cbn [append]).
  reflexivity.
Qed.

(** Reading a descriptor back gives, part by part, what [parseFloat]
    makes of the text of each number. *)
Lemma matrixValues_getMatrixTransform (s tx ty : number) :
  matrixValues (calc.getMatrixTransform s tx ty)
  = Some [parseFloat (toString s); of_Z 0; of_Z 0; parseFloat (toString s);
          parseFloat (toString tx); parseFloat (toString ty)].
Proof.
  pose proof (toString_plain s) as Ps.
  pose proof (toString_plain tx) as Px.
  pose proof (toString_plain ty) as Py.
  rewrite getMatrixTransform_join. unfold matrixValues.
  rewrite match_matrix_body.
  - rewrite split_join_commas.
    + cbn [map].
      rewrite (trim_plain _ Ps).
      rewrite !trim_space_plain by (assumption || reflexivity).
      reflexivity.
    + discriminate.
    + repeat constructor; cbn [string_forall];
        rewrite ?plain_no_comma by assumption; reflexivity.
  - cbn [join_commas]. destruct (toString s); discriminate.
  - cbn [join_commas].
    repeat (rewrite string_forall_app || cbn [string_forall]).
    rewrite !plain_inner by assumption. reflexivity.
Qed.

End ReadBack.

(** ** Decimal digits *)

Section Digits.

Lemma read_digits_uint (d : Decimal.uint) (rest : string) (acc : N) (cnt : Z) :
  read_digits (NilEmpty.string_of_uint d ++ rest) acc cnt
  = read_digits rest (uint_acc d acc) (cnt + Z.of_nat (Decimal.nb_digits d)).
Proof.
  revert acc cnt.
  induction d; intros acc cnt;
    try (simpl NilEmpty.string_of_uint; cbn [append read_digits];
         change (is_digit _) with true; cbv iota;
         rewrite IHd; cbn [uint_acc Decimal.nb_digits]; f_equal; lia).
  simpl. f_equal. lia.
Qed.

Lemma uint_acc_pos (d : Decimal.uint) (a : positive) :
  uint_acc d (Npos a) = Npos (Pos.of_uint_acc d a).
Proof.
  revert a. induction d; intros a; cbn [uint_acc Pos.of_uint_acc];
    try reflexivity; rewrite <- IHd; f_equal; lia.
Qed.

Lemma uint_acc_zero (d : Decimal.uint) : uint_acc d 0 = Pos.of_uint d.
Proof.
  induction d; cbn [uint_acc Pos.of_uint]; try reflexivity; try exact IHd;
    apply uint_acc_pos.
Qed.

Lemma uint_acc_split (d : Decimal.uint) (acc : N) :
  Z.of_N (uint_acc d acc)
  = Z.of_N acc * 10 ^ Z.of_nat (Decimal.nb_digits d) + Z.of_N (uint_acc d 0).
Proof.
  revert acc. induction d; intros acc;
    try (cbn [uint_acc Decimal.nb_digits];
         rewrite IHd, (IHd (0 * 10 + _)%N), Nat2Z.inj_succ, Z.pow_succ_r by lia;
         lia).
  simpl. lia.
Qed.

Lemma uint_acc_lt (d : Decimal.uint) :
  Z.of_N (uint_acc d 0) < 10 ^ Z.of_nat (Decimal.nb_digits d).
Proof.
  induction d;
    try (cbn [uint_acc Decimal.nb_digits];
         rewrite uint_acc_split, Nat2Z.inj_succ, Z.pow_succ_r by lia; lia).
  simpl. lia.
Qed.

Lemma uint_acc_ge (d : Decimal.uint) :
  Decimal.unorm d = d -> d <> Decimal.zero ->
  10 ^ (Z.of_nat (Decimal.nb_digits d) - 1) <= Z.of_N (uint_acc d 0).
Proof.
  intros Hn Hz.
  destruct d;
    try (cbn [uint_acc Decimal.nb_digits];
         rewrite uint_acc_split, Nat2Z.inj_succ;
         replace (Z.succ (Z.of_nat (Decimal.nb_digits d)) - 1)
           with (Z.of_nat (Decimal.nb_digits d)) by lia;
         pose proof (N2Z.is_nonneg (uint_acc d 0));
         assert (0 < 10 ^ Z.of_nat (Decimal.nb_digits d))
           by (apply Z.pow_pos_nonneg; lia);
         simpl Z.of_N; nia).
  - now destruct (unorm_nonnil Decimal.Nil).
  - exfalso. rewrite unorm_D0 in Hn. unfold Decimal.unorm in Hn.
    destruct (Decimal.nzhead d) eqn:E; try discriminate.
    + inversion Hn. subst d. now apply Hz.
    + exact (nzhead_nonzero _ _ E).
Qed.

(** The decimal digits of [p] are as many as its size says. *)
Lemma digits_bounds (p : positive) :
  let n := Z.of_nat (Decimal.nb_digits (N.to_uint (Npos p))) in
  10 ^ (n - 1) <= Zpos p < 10 ^ n.
Proof.
  cbv zeta. change (N.to_uint (Npos p)) with (Pos.to_uint p).
  assert (Hv : uint_acc (Pos.to_uint p) 0 = Npos p)
    by (rewrite uint_acc_zero; apply DecimalPos.Unsigned.of_to).
  assert (Hn : Decimal.unorm (Pos.to_uint p) = Pos.to_uint p).
  { rewrite <- (DecimalPos.Unsigned.to_of (Pos.to_uint p)).
    now rewrite DecimalPos.Unsigned.of_to. }
  pose proof (uint_acc_lt (Pos.to_uint p)) as Hlt.
  pose proof (uint_acc_ge (Pos.to_uint p) Hn
                (DecimalPos.Unsigned.to_uint_nonzero p)) as Hge.
  rewrite Hv in Hlt, Hge. simpl Z.of_N in Hlt, Hge. lia.
Qed.

(** Reading the digits of [v] gives [v] back. *)
Lemma read_digits_digit_string (v : N) (rest : string) :
  read_digits (digit_string v ++ rest) 0 0
  = read_digits rest v (Z.of_nat (Decimal.nb_digits (N.to_uint v))).
Proof.
  unfold digit_string, NilZero.string_of_uint.
  assert (Hd : N.to_uint v <> Decimal.Nil).
  { destruct v; [discriminate|apply DecimalPos.Unsigned.to_uint_nonnil]. }
  transitivity (read_digits (NilEmpty.string_of_uint (N.to_uint v) ++ rest) 0 0).
  { destruct (N.to_uint v); try reflexivity. congruence. }
  rewrite read_digits_uint, uint_acc_zero.
  change (Pos.of_uint (N.to_uint v)) with (N.of_uint (N.to_uint v)).
  now rewrite DecimalN.Unsigned.of_to.
Qed.

Lemma read_digits_zeros (j : nat) (rest : string) (acc : N) (cnt : Z) :
  read_digits (string_repeat "0" j ++ rest) acc cnt
  = read_digits rest (acc * 10 ^ N.of_nat j)%N (cnt + Z.of_nat j).
Proof.
  revert acc cnt. induction j as [|j IH]; intros acc cnt.
  - simpl. f_equal; lia.
  - cbn [string_repeat append read_digits].
    change (is_digit "0") with true. cbv iota.
    rewrite IH. f_equal; try lia.
    change (N_of_ascii "0" - 48)%N with 0%N.
    rewrite Nnat.Nat2N.inj_succ, N.pow_succ_r'. lia.
Qed.

End Digits.

(** ** The search for the shortest digits *)

Section ShortestDigits.

Lemma same_value_eq (x y : number) : same_value x y = true -> x = y.
Proof.
  destruct x as [s1|s1| |s1 m1 e1], y as [s2|s2| |s2 m2 e2]; simpl;
    try discriminate; try reflexivity; intros H.
  - apply Bool.eqb_prop in H. now subst.
  - apply Bool.eqb_prop in H. now subst.
  - apply andb_true_iff in H. destruct H as [H He].
    apply andb_true_iff in H. destruct H as [Hs Hm].
    apply Bool.eqb_prop in Hs. apply Pos.eqb_eq in Hm. apply Z.eqb_eq in He.
    now subst.
Qed.

Lemma same_value_refl (x : number) : same_value x x = true.
Proof.
  destruct x as [s|s| |s m e]; simpl; try reflexivity;
    rewrite ?Bool.eqb_reflx, ?Pos.eqb_refl, ?Z.eqb_refl; reflexivity.
Qed.

(** What [candidate] returns has [k] digits and rounds to [x]. *)
Lemma candidate_sound (x : number) (p q : positive) (k n s : Z) :
  candidate x p q k n = Some s ->
  10 ^ (k - 1) <= s < 10 ^ k
  /\ of_decimal false (Z.to_N s) (n - k) = x.
Proof.
  unfold candidate. cbv zeta.
  set (num := match k - n with Zneg _ => _ | _ => _ end).
  set (den := match k - n with Zneg _ => _ | _ => _ end).
  assert (Hok : forall t, digits_ok x k n t = true ->
                  10 ^ (k - 1) <= t < 10 ^ k
                  /\ of_decimal false (Z.to_N t) (n - k) = x).
  { intros t Ht. unfold digits_ok in Ht.
    apply andb_true_iff in Ht. destruct Ht as [Ht H3].
    apply andb_true_iff in Ht. destruct Ht as [H1 H2].
    apply Z.leb_le in H1. apply Z.ltb_lt in H2.
    apply same_value_eq in H3. auto. }
  destruct (digits_ok x k n (num / den)) eqn:E1,
           (digits_ok x k n (num / den + 1)) eqn:E2;
    intros H; inversion H; auto.
  match goal with
  | |- context [if ?b then _ else _] => destruct b
  end; auto.
Qed.

(** [candidate] finds digits as soon as the lower one fits. *)
Lemma candidate_exact (x : number) (p q v : positive) (n : Z) :
  Zpos p = Zpos v * Zpos q ->
  10 ^ (n - 1) <= Zpos v < 10 ^ n ->
  of_decimal false (Npos v) 0 = x ->
  candidate x p q n n <> None.
Proof.
  intros Hp Hb Hx. unfold candidate. rewrite Z.sub_diag.
  cbv zeta. simpl (10 ^ 0). rewrite Z.mul_1_r, Hp, Z.div_mul by lia.
  assert (H : digits_ok x n n (Zpos v) = true).
  { unfold digits_ok. rewrite Z.sub_diag. simpl Z.to_N.
    rewrite Hx, same_value_refl.
    assert (H1 : (10 ^ (n - 1) <=? Zpos v) = true) by (apply Z.leb_le; lia).
    assert (H2 : (Zpos v <? 10 ^ n) = true) by (apply Z.ltb_lt; lia).
    now rewrite H1, H2. }
  rewrite H. destruct (digits_ok x n n (Zpos v + 1)); discriminate.
Qed.

Lemma shortest_found (fuel : nat) (x : number) (p q : positive) (n k j : Z) :
  0 <= j < Z.of_nat fuel ->
  candidate x p q (k + j) n <> None ->
  exists s k' n',
    shortest fuel x p q n k = Some (s, k', n')
    /\ candidate x p q k' n' = Some s
    /\ k <= k' <= k + j /\ n <= n' <= n + 1.
Proof.
  revert k j. induction fuel as [|fuel IH]; intros k j Hj Hc; [simpl in Hj; lia|].
  cbn [shortest].
  destruct (candidate x p q k n) as [s|] eqn:E1.
  { exists s, k, n. repeat split; auto; lia. }
  destruct (candidate x p q k (n + 1)) as [s|] eqn:E2.
  { exists s, k, (n + 1). repeat split; auto; lia. }
  assert (j <> 0) by (intros ->; rewrite Z.add_0_r in Hc; congruence).
  destruct (IH (k + 1) (j - 1)) as (s & k' & n' & Hs & Hcand & Hk & Hn).
  - lia.
  - now replace (k + 1 + (j - 1)) with (k + j) by ring.
  - exists s, k', n'. repeat split; auto; lia.
Qed.

End ShortestDigits.

(** ** Safe integers read back from their text *)

Section IntegersReadBack.

Lemma binary_round_aux_opp (mx ex : Z) (lx : location) :
  binary_round_aux prec emax true mx ex lx
  = SFopp (binary_round_aux prec emax false mx ex lx).
Proof.
  unfold binary_round_aux.
  destruct (shr_fexp prec emax mx ex lx) as [mrs' e'].
  destruct (shr_fexp prec emax _ e' loc_Exact) as [mrs'' e''].
  destruct (shr_m mrs''); try reflexivity.
  destruct (e'' <=? emax - prec); reflexivity.
Qed.

Lemma of_decimal_opp (d : N) (e : Z) :
  of_decimal true d e = SFopp (of_decimal false d e).
Proof.
  destruct d as [|p]; [reflexivity|].
  unfold of_decimal, round_ratio, binary_round.
  destruct e as [|k|k].
  - destruct (shl_align _ _ _). apply binary_round_aux_opp.
  - destruct (shl_align _ _ _). apply binary_round_aux_opp.
  - destruct (SFdiv_core_binary _ _ _ _ _ _) as [[mz ez] lz].
    apply binary_round_aux_opp.
Qed.

Lemma ratio_of_canonical (p : positive) :
  Zpos (digits2_pos p) <= 53 ->
  let d := Zpos (digits2_pos p) in
  let '(pr, qr) := ratio_of (shl p (53 - d)) (d - 53) in
  Zpos pr = Zpos p * Zpos qr.
Proof.
  intros Hd. cbv zeta. unfold ratio_of.
  destruct (Zpos (digits2_pos p) - 53) as [|k|k] eqn:E; try lia.
  - replace (53 - Zpos (digits2_pos p)) with 0 by lia. simpl. lia.
  - rewrite Zpos_shl by lia. rewrite Pos2Z.inj_pow.
    f_equal. f_equal. lia.
Qed.

Lemma digit_is_not_sign (c : ascii) :
  is_digit c = true ->
  is_white_space c = false /\ Ascii.eqb c "-" = false
  /\ Ascii.eqb c "+" = false /\ Ascii.eqb c "I" = false
  /\ Ascii.eqb c "." = false.
Proof.
  destruct c as [[] [] [] [] [] [] [] []]; vm_compute; intros H;
    try discriminate; repeat split.
Qed.

(** Digits followed by zeroes read as the integer they write. *)
Lemma read_unsigned_integer (sx : bool) (s : positive) (j : nat) :
  read_unsigned sx (digit_string (Npos s) ++ string_repeat "0" j)
  = of_decimal sx (Npos s) (Z.of_nat j).
Proof.
  pose proof (digit_string_digits (Npos s)) as Hd.
  pose proof (digits_bounds s) as Hb. cbv zeta in Hb.
  set (len := Z.of_nat (Decimal.nb_digits (N.to_uint (Npos s)))) in *.
  assert (Hlen : 1 <= len).
  { destruct (Z_lt_le_dec len 1) as [Hl|Hl]; [|exact Hl].
    assert (len = 0) by (subst len; lia).
    rewrite H in Hb. simpl in Hb. lia. }
  unfold read_unsigned.
  assert (Hpre : prefix "Infinity"
                   (digit_string (Npos s) ++ string_repeat "0" j) = false).
  { destruct (digit_string (Npos s)) as [|c r] eqn:E.
    - unfold digit_string, NilZero.string_of_uint in E.
      change (N.to_uint (Npos s)) with (Pos.to_uint s) in E.
      pose proof (DecimalPos.Unsigned.to_uint_nonnil s).
      destruct (Pos.to_uint s); try discriminate; congruence.
    - simpl in Hd. apply andb_true_iff in Hd. destruct Hd as [Hc _].
      destruct (digit_is_not_sign c Hc) as (_ & _ & _ & HI & _).
      cbn [append prefix].
      destruct (ascii_dec "I" c) as [<-|]; [discriminate|reflexivity]. }
  rewrite Hpre.
  rewrite <- (append_nil_r (string_repeat "0" j)).
  rewrite read_digits_digit_string, read_digits_zeros. fold len.
  cbn [read_digits].
  assert (Hne : (len + Z.of_nat j + 0 =? 0) = false) by (apply Z.eqb_neq; lia).
  rewrite Hne.
  change (read_exponent "") with 0.
  unfold of_decimal.
  assert (Hv : (Npos s * 10 ^ N.of_nat j)%N
               = Npos (s * Z.to_pos (10 ^ Z.of_nat j))).
  { apply N2Z.inj. rewrite N2Z.inj_mul, N2Z.inj_pow, nat_N_Z.
    simpl Z.of_N.
    assert (0 < 10 ^ Z.of_nat j) by (apply Z.pow_pos_nonneg; lia).
    rewrite Pos2Z.inj_mul, Z2Pos.id by lia. reflexivity. }
  rewrite Hv.
  replace (0 - (len + Z.of_nat j - (len + Z.of_nat j))) with 0 by lia.
  destruct (Z.of_nat j) eqn:Ej; try lia;
    change (Z.to_pos (10 ^ 0)) with 1%positive; now rewrite !Pos.mul_1_r.
Qed.

(** The text of a safe integer is digits followed by zeroes that write a
    number rounding to it. *)
Lemma positive_toString_integer (p : positive) :
  Zpos p < 2 ^ 53 ->
  let d := Zpos (digits2_pos p) in
  exists (s : positive) (j : nat),
    positive_toString (shl p (53 - d)) (d - 53)
    = (digit_string (Npos s) ++ string_repeat "0" j)%string
    /\ of_decimal false (Npos s) (Z.of_nat j) = canonical false p.
Proof.
  intros Hp. cbv zeta.
  pose proof (digits2_pos_le p 53 Hp) as Hd.
  pose proof (ratio_of_canonical p Hd) as Hr. cbv zeta in Hr.
  unfold positive_toString.
  destruct (ratio_of _ _) as [pr qr].
  pose proof (digits_bounds p) as Hb. cbv zeta in Hb.
  set (n := Z.of_nat (Decimal.nb_digits (N.to_uint (Npos p)))) in *.
  assert (Hmag : magnitude pr qr = n).
  { unfold magnitude.
    assert (Hle : (qr <=? pr)%positive = true) by (apply Pos.leb_le; nia).
    rewrite Hle, Hr, Z.div_mul by lia. reflexivity. }
  rewrite Hmag.
  assert (Hn : 1 <= n <= 16).
  { split.
    - destruct (Z_lt_le_dec n 1) as [Hl|Hl]; [|exact Hl].
      assert (n = 0) by (subst n; lia).
      rewrite H in Hb. simpl in Hb. lia.
    - destruct (Z_lt_le_dec 16 n) as [Hl|Hl]; [|exact Hl].
      assert (10 ^ 16 <= 10 ^ (n - 1)) by (apply Z.pow_le_mono_r; lia).
      change (2 ^ 53) with 9007199254740992 in Hp.
      change (10 ^ 16) with 10000000000000000 in H. lia. }
  assert (Hx : of_decimal false (Npos p) 0 = canonical false p).
  { change (of_decimal false (Npos p) 0) with (of_Z (Zpos p)).
    apply (of_Z_canonical (Zpos p)). unfold safe_integer. simpl. lia. }
  destruct (shortest_found 800 (canonical false p) pr qr n 1 (n - 1))
    as (s & k' & n' & Hs & Hc & Hk & Hn').
  - lia.
  - replace (1 + (n - 1)) with n by ring.
    now apply (candidate_exact _ pr qr p n).
  - unfold canonical in Hs. rewrite Hs.
    destruct (candidate_sound _ _ _ _ _ _ Hc) as [Hrange Hval].
    assert (0 < 10 ^ (k' - 1)) by (apply Z.pow_pos_nonneg; lia).
    destruct s as [|ps|ps]; try lia.
    exists ps, (Z.to_nat (n' - k')).
    unfold format_digits.
    assert (Hbr : ((k' <=? n') && (n' <=? 21)) = true).
    { apply andb_true_iff. split; apply Z.leb_le; lia. }
    rewrite Hbr. split; [reflexivity|].
    rewrite Z2Nat.id by lia. exact Hval.
Qed.

(** The text of a safe integer reads back as the same double. *)
Lemma parseFloat_toString_integer (z : Z) :
  safe_integer z -> parseFloat (toString (of_Z z)) = of_Z z.
Proof.
  intros Hz. rewrite (of_Z_canonical z Hz).
  destruct z as [|p|p]; [reflexivity| |];
    unfold safe_integer in Hz; simpl Z.abs in Hz;
    destruct (positive_toString_integer p Hz) as (s & j & Htxt & Hval);
    cbv zeta in Htxt; unfold canonical at 1; unfold toString;
    rewrite Htxt.
  - cbn [append].
    pose proof (digit_string_digits (Npos s)) as Hd.
    destruct (digit_string (Npos s)) as [|c r] eqn:E.
    + unfold digit_string, NilZero.string_of_uint in E.
      change (N.to_uint (Npos s)) with (Pos.to_uint s) in E.
      pose proof (DecimalPos.Unsigned.to_uint_nonnil s).
      destruct (Pos.to_uint s); try discriminate; congruence.
    + simpl in Hd. apply andb_true_iff in Hd. destruct Hd as [Hc _].
      destruct (digit_is_not_sign c Hc) as (Hw & Hm & Hp & _).
      unfold parseFloat. cbn [append trimStart]. rewrite Hw, Hm, Hp.
      change (String c (r ++ string_repeat "0" j))
        with (String c r ++ string_repeat "0" j)%string.
      rewrite <- E, read_unsigned_integer. exact Hval.
  - unfold parseFloat. cbn [append trimStart].
    change (is_white_space "-") with false. cbv iota.
    change (Ascii.eqb "-" "-") with true. cbv iota.
    rewrite read_unsigned_integer, of_decimal_opp, Hval. reflexivity.
Qed.

Lemma safe_integer_reads_back (z : Z) :
  safe_integer z -> reads_back (of_Z z) = true.
Proof.
  intros Hz. unfold reads_back. rewrite (parseFloat_toString_integer z Hz).
  unfold strict_eq, SFeqb. rewrite SFcompare_refl; [reflexivity|].
  rewrite (of_Z_canonical z Hz). destruct z; reflexivity.
Qed.

End IntegersReadBack.

(** ** Doubles and their exact decimal expansions *)

Section ExactDecimals.

(** The mantissa and the exponent of a double. *)
Lemma valid_finite (s : bool) (m : positive) (e : Z) :
  is_double (S754_finite s m e) = true ->
  fexp prec emax (Zpos (digits2_pos m) + e) = e /\ e <= emax - prec.
Proof.
  unfold is_double, valid_binary, bounded, canonical_mantissa.
  intros H. apply andb_true_iff in H. destruct H as [H1 H2].
  split.
  - now apply Z.eqb_eq.
  - now apply Z.leb_le.
Qed.

Lemma digits2_pos_bounds (m : positive) :
  2 ^ (Zpos (digits2_pos m) - 1) <= Zpos m < 2 ^ Zpos (digits2_pos m).
Proof.
  induction m as [m IH|m IH|]; simpl digits2_pos.
  - rewrite Pos2Z.inj_succ.
    replace (Z.succ (Zpos (digits2_pos m)) - 1)
      with (Z.succ (Zpos (digits2_pos m) - 1)) by lia.
    rewrite !Z.pow_succ_r by lia. lia.
  - rewrite Pos2Z.inj_succ.
    replace (Z.succ (Zpos (digits2_pos m)) - 1)
      with (Z.succ (Zpos (digits2_pos m) - 1)) by lia.
    rewrite !Z.pow_succ_r by lia. lia.
  - simpl. lia.
Qed.

(** A double that is an integer is the rounding of that integer. *)
Lemma binary_round_exact (sx : bool) (m : positive) (e : Z) :
  fexp prec emax (Zpos (digits2_pos m) + e) = e ->
  e <= emax - prec -> 0 <= e ->
  binary_round prec emax sx (shl m e) 0 = S754_finite sx m e.
Proof.
  intros Hc He H0. unfold binary_round.
  rewrite digits2_pos_shl by lia. rewrite Z.add_0_r, Hc.
  unfold shl_align. rewrite Z.sub_0_r.
  destruct e as [|p|p] eqn:E; try lia.
  - change (shl m 0) with m.
    change (Zpos m) with (Zpos (shl m 0)). change 0 with (0 - 0) at 2.
    apply binary_round_aux_trailing; auto; lia.
  - replace 0 with (Zpos p - Zpos p) at 1 by lia.
    apply binary_round_aux_trailing; auto; lia.
Qed.

(** A double below the integers is the rounding of its own decimal
    expansion [m * 5^j / 10^j]. *)
Lemma round_ratio_exact (sx : bool) (m j : positive) :
  fexp prec emax (Zpos (digits2_pos m) + Zneg j) = Zneg j ->
  round_ratio sx (m * 5 ^ j) (10 ^ j) = S754_finite sx m (Zneg j).
Proof.
  intros Hc. unfold round_ratio, SFdiv_core_binary. cbn [Zdigits2].
  set (a := (m * 5 ^ j)%positive). set (b := (10 ^ j)%positive).
  set (J := Zpos j).
  assert (Ha : Zpos a = Zpos m * 5 ^ J).
  { subst a J. now rewrite Pos2Z.inj_mul, Pos2Z.inj_pow. }
  assert (Hb : Zpos b = 2 ^ J * 5 ^ J).
  { subst b J. rewrite Pos2Z.inj_pow.
    change (Zpos 10) with (2 * 5). now rewrite Z.pow_mul_l. }
  set (dm := Zpos (digits2_pos m)) in *.
  set (d1 := Zpos (digits2_pos a)). set (d2 := Zpos (digits2_pos b)).
  assert (H5 : 0 < 5 ^ J) by (apply Z.pow_pos_nonneg; lia).
  assert (H2 : 0 < 2 ^ J) by (apply Z.pow_pos_nonneg; lia).
  assert (Hd : d1 - d2 <= dm - J).
  { pose proof (digits2_pos_bounds a) as Ba.
    pose proof (digits2_pos_bounds b) as Bb.
    pose proof (digits2_pos_bounds m) as Bm.
    fold d1 in Ba. fold d2 in Bb. fold dm in Bm.
    assert (H : 2 ^ (d1 - 1) * 2 ^ J < 2 ^ dm * 2 ^ d2).
    { apply Z.le_lt_trans with (Zpos a * 2 ^ J); [nia|].
      rewrite Ha.
      replace (Zpos m * 5 ^ J * 2 ^ J) with (Zpos m * Zpos b) by (rewrite Hb; ring).
      assert (0 < 2 ^ dm) by (apply Z.pow_pos_nonneg; subst dm; lia).
      nia. }
    rewrite <- !Z.pow_add_r in H by (subst d1 d2 dm J; lia).
    apply Z.pow_lt_mono_r_iff in H; subst d1 d2 dm J; lia. }
  replace (d1 + 0 - (d2 + 0)) with (d1 - d2) by ring.
  set (e' := Z.min (fexp prec emax (d1 - d2)) (0 - 0)).
  assert (He' : e' <= - J).
  { subst e'. change (Zneg j) with (- J) in Hc.
    unfold fexp, emin, prec, emax in *. lia. }
  destruct (0 - 0 - e') as [|s|s] eqn:Es; try (subst J; lia).
  rewrite Z.shiftl_mul_pow2 by lia.
  set (t := Zpos s - J).
  assert (Ht : 0 <= t) by (subst t J; lia).
  replace (Zpos a * 2 ^ Zpos s) with (Zpos m * 2 ^ t * Zpos b).
  2:{ rewrite Ha, Hb. replace (Zpos s) with (t + J) by (subst t; ring).
      rewrite Z.pow_add_r by (subst J; lia). ring. }
  pose proof (Z.div_eucl_eq (Zpos m * 2 ^ t * Zpos b) (Zpos b) ltac:(lia))
    as Hdiv.
  pose proof (Z.mod_pos_bound (Zpos m * 2 ^ t * Zpos b) (Zpos b) ltac:(lia))
    as Hmod.
  unfold Z.modulo in Hmod.
  destruct (Z.div_eucl _ _) as [q r].
  assert (Hr : r = 0 /\ q = Zpos m * 2 ^ t).
  { assert (Hq : Zpos b * (Zpos m * 2 ^ t - q) = r) by lia.
    assert (Zpos m * 2 ^ t - q = 0) by nia. lia. }
  destruct Hr as [-> ->].
  assert (Hloc : new_location (Zpos b) 0 = loc_Exact).
  { unfold new_location, new_location_even, new_location_odd.
    destruct (Z.even (Zpos b)); reflexivity. }
  rewrite Hloc.
  replace (Zpos m * 2 ^ t) with (Zpos (shl m t))
    by (rewrite Zpos_shl by lia; reflexivity).
  replace e' with (Zneg j - t) by (subst t J; lia).
  apply binary_round_aux_trailing; auto.
  unfold emax, prec. lia.
Qed.

End ExactDecimals.

(** ** Every double has digits *)

Section DigitsOfADouble.

Lemma leading_zeros_spec (fuel : nat) (p q : positive) :
  Zpos p < Zpos q -> Zpos q <= Zpos p * 10 ^ (Z.of_nat fuel + 1) ->
  let lz := leading_zeros fuel p q in
  1 <= lz /\ Zpos p * 10 ^ (lz - 1) < Zpos q <= Zpos p * 10 ^ lz.
Proof.
  revert p. induction fuel as [|fuel IH]; intros p Hlt Hle; cbv zeta.
  - simpl in *. lia.
  - cbn [leading_zeros].
    destruct (Pos.leb_spec q (p * 10)) as [H|H].
    + simpl. lia.
    + assert (Hlt' : Zpos (p * 10) < Zpos q) by lia.
      assert (Hle' : Zpos q <= Zpos (p * 10) * 10 ^ (Z.of_nat fuel + 1)).
      { rewrite Nat2Z.inj_succ in Hle.
        replace (Z.succ (Z.of_nat fuel) + 1) with (Z.succ (Z.of_nat fuel + 1))
          in Hle by lia.
        rewrite Z.pow_succ_r in Hle by lia. lia. }
      specialize (IH (p * 10)%positive Hlt' Hle'). cbv zeta in IH.
      destruct IH as (H1 & H2 & H3).
      set (lz := leading_zeros fuel (p * 10) q) in *.
      replace (1 + lz - 1) with (Z.succ (lz - 1)) by lia.
      replace (1 + lz) with (Z.succ lz) by lia.
      rewrite !Z.pow_succ_r by lia. lia.
Qed.

(** [candidate] finds digits when the lower one fits. *)
Lemma candidate_lower (x : number) (p q : positive) (k n : Z) :
  0 <= k - n ->
  digits_ok x k n (Zpos p * 10 ^ (k - n) / Zpos q) = true ->
  candidate x p q k n <> None.
Proof.
  intros Hsh H. unfold candidate. cbv zeta.
  assert (E1 : match k - n with Zneg _ => Zpos p | _ => Zpos p * 10 ^ (k - n) end
               = Zpos p * 10 ^ (k - n)) by (destruct (k - n); lia || reflexivity).
  assert (E2 : match k - n with
               | Zneg _ => Zpos q * 10 ^ (- (k - n)) | _ => Zpos q end
               = Zpos q) by (destruct (k - n); lia || reflexivity).
  rewrite E1, E2, H.
  destruct (digits_ok x k n (_ + 1)); discriminate.
Qed.

(** The search finds digits for every double: its exact decimal expansion
    at the latest. *)
Lemma shortest_total (m : positive) (e : Z) :
  is_double (S754_finite false m e) = true ->
  let '(p, q) := ratio_of m e in
  exists s k n,
    shortest 800 (S754_finite false m e) p q (magnitude p q) 1
    = Some (s, k, n)
    /\ 1 <= k
    /\ 10 ^ (k - 1) <= s < 10 ^ k
    /\ of_decimal false (Z.to_N s) (n - k) = S754_finite false m e.
Proof.
  intros Hv. destruct (valid_finite false m e Hv) as [Hc He].
  pose proof (digits2_pos_bounds m) as Bm.
  set (dm := Zpos (digits2_pos m)) in *.
  assert (Hdm : dm <= 53 /\ -1074 <= e).
  { unfold fexp, emin, prec, emax in Hc. lia. }
  assert (Hm : Zpos m < 2 ^ 53).
  { apply Z.lt_le_trans with (2 ^ dm); [lia|].
    apply Z.pow_le_mono_r; lia. }
  set (x := S754_finite false m e).
  assert (Hend : forall p q n k,
             1 <= k < 801 -> candidate x p q k n <> None ->
             exists s k' n',
               shortest 800 x p q n 1 = Some (s, k', n')
               /\ 1 <= k'
               /\ 10 ^ (k' - 1) <= s < 10 ^ k'
               /\ of_decimal false (Z.to_N s) (n' - k') = x).
  { intros p q n k Hk Hcand.
    destruct (shortest_found 800 x p q n 1 (k - 1))
      as (s & k' & n' & Hs & Hc' & Hk' & _).
    - lia.
    - now replace (1 + (k - 1)) with k by ring.
    - exists s, k', n'. split; [exact Hs|]. split; [lia|].
      exact (candidate_sound _ _ _ _ _ _ Hc'). }
  destruct (ratio_of m e) as [p q] eqn:Er.
  unfold ratio_of in Er.
  destruct e as [|pe|j] eqn:Ee.
  - (* an integer below 2^53 *)
    inversion Er. subst p q. clear Er.
    pose proof (digits_bounds (m * Z.to_pos (2 ^ 0))) as Hb. cbv zeta in Hb.
    set (P := (m * Z.to_pos (2 ^ 0))%positive) in *.
    set (n := Z.of_nat (Decimal.nb_digits (N.to_uint (Npos P)))) in *.
    assert (HP : Zpos P = Zpos m) by (subst P; simpl; lia).
    assert (Hmag : magnitude P 1 = n).
    { unfold magnitude.
      assert (Hle : (1 <=? P)%positive = true) by (apply Pos.leb_le; lia).
      rewrite Hle, Z.div_1_r. reflexivity. }
    apply (Hend P 1%positive (magnitude P 1) n); rewrite ?Hmag.
    + split.
      * destruct (Z_lt_le_dec n 1) as [Hl|Hl]; [|exact Hl].
        assert (n = 0) by (subst n; lia).
        rewrite H in Hb. simpl in Hb. lia.
      * destruct (Z_lt_le_dec n 801) as [Hl|Hl]; [exact Hl|].
        assert (10 ^ 17 <= 10 ^ (n - 1)) by (apply Z.pow_le_mono_r; lia).
        assert (2 ^ 53 < 10 ^ 17) by (vm_compute; reflexivity).
        lia.
    + apply (candidate_exact x P 1 P n); [lia|exact Hb|].
      unfold of_decimal. change (Z.to_pos (10 ^ 0)) with 1%positive.
      rewrite Pos.mul_1_r.
      replace P with (shl m 0) by (apply Pos2Z.inj; rewrite HP; reflexivity).
      apply binary_round_exact; auto. lia.
  - (* an integer from 2^53 on *)
    inversion Er. subst p q. clear Er.
    pose proof (digits_bounds (m * Z.to_pos (2 ^ Zpos pe))) as Hb.
    cbv zeta in Hb.
    set (P := (m * Z.to_pos (2 ^ Zpos pe))%positive) in *.
    set (n := Z.of_nat (Decimal.nb_digits (N.to_uint (Npos P)))) in *.
    assert (H2 : 0 < 2 ^ Zpos pe) by (apply Z.pow_pos_nonneg; lia).
    assert (HP : Zpos P = Zpos m * 2 ^ Zpos pe).
    { subst P. rewrite Pos2Z.inj_mul, Z2Pos.id by lia. reflexivity. }
    assert (Hmag : magnitude P 1 = n).
    { unfold magnitude.
      assert (Hle : (1 <=? P)%positive = true) by (apply Pos.leb_le; lia).
      rewrite Hle, Z.div_1_r. reflexivity. }
    apply (Hend P 1%positive (magnitude P 1) n); rewrite ?Hmag.
    + split.
      * destruct (Z_lt_le_dec n 1) as [Hl|Hl]; [|exact Hl].
        assert (n = 0) by (subst n; lia).
        rewrite H in Hb. simpl in Hb. lia.
      * destruct (Z_lt_le_dec n 801) as [Hl|Hl]; [exact Hl|].
        assert (10 ^ 800 <= 10 ^ (n - 1)) by (apply Z.pow_le_mono_r; lia).
        assert (2 ^ Zpos pe <= 2 ^ 971).
        { apply Z.pow_le_mono_r; unfold emax, prec in He; lia. }
        assert (2 ^ 53 * 2 ^ 971 < 10 ^ 800) by (vm_compute; reflexivity).
        assert (Zpos m * 2 ^ Zpos pe < 2 ^ 53 * 2 ^ 971) by nia.
        lia.
    + apply (candidate_exact x P 1 P n); [lia|exact Hb|].
      unfold of_decimal. change (Z.to_pos (10 ^ 0)) with 1%positive.
      rewrite Pos.mul_1_r.
      replace P with (shl m (Zpos pe))
        by (apply Pos2Z.inj; rewrite HP, Zpos_shl by lia; reflexivity).
      apply binary_round_exact; auto. lia.
  - (* below the integers *)
    inversion Er. subst p q. clear Er.
    set (J := Zpos j) in *.
    assert (HJ : J <= 1074) by (subst J; lia).
    assert (Hq : Zpos (2 ^ j) = 2 ^ J) by (subst J; now rewrite Pos2Z.inj_pow).
    assert (H2 : 0 < 2 ^ J) by (apply Z.pow_pos_nonneg; lia).
    assert (H5 : 0 < 5 ^ J) by (apply Z.pow_pos_nonneg; lia).
    assert (H10 : 10 ^ J = 2 ^ J * 5 ^ J).
    { change 10 with (2 * 5). now rewrite Z.pow_mul_l. }
    set (n := magnitude m (2 ^ j)).
    set (k := n + J).
    assert (Hrange : 10 ^ (k - 1) <= Zpos m * 5 ^ J < 10 ^ k /\ 1 <= k).
    { subst k n. unfold magnitude.
      destruct (Pos.leb_spec (2 ^ j) m) as [Hle|Hlt].
      - assert (Hpos : 0 < Zpos m / Zpos (2 ^ j)).
        { apply Z.div_str_pos. lia. }
        destruct (Zpos m / Zpos (2 ^ j)) as [|v|v] eqn:Ev; try lia.
        pose proof (digits_bounds v) as Hb. cbv zeta in Hb.
        simpl Z.to_N.
        set (n := Z.of_nat (Decimal.nb_digits (N.to_uint (Npos v)))) in *.
        assert (Hn : 1 <= n).
        { destruct (Z_lt_le_dec n 1) as [Hl|Hl]; [|exact Hl].
          assert (n = 0) by (subst n; lia).
          rewrite H in Hb. simpl in Hb. lia. }
        pose proof (Z.div_mod (Zpos m) (Zpos (2 ^ j)) ltac:(lia)) as Hdm'.
        pose proof (Z.mod_pos_bound (Zpos m) (Zpos (2 ^ j)) ltac:(lia)) as Hmb.
        rewrite Ev, Hq in *.
        replace (n + J - 1) with ((n - 1) + J) by ring.
        rewrite !Z.pow_add_r, H10 by lia.
        assert (0 < 10 ^ (n - 1)) by (apply Z.pow_pos_nonneg; lia).
        assert (0 < 10 ^ n) by (apply Z.pow_pos_nonneg; lia).
        split; [|lia]. split.
        + assert (10 ^ (n - 1) * 2 ^ J <= Zpos m) by nia. nia.
        + assert (Zpos m < 10 ^ n * 2 ^ J) by nia. nia.
      - assert (Hfuel : Zpos (2 ^ j) <= Zpos m * 10 ^ (Z.of_nat 400 + 1)).
        { rewrite Hq.
          assert (2 ^ J <= 2 ^ 1074) by (apply Z.pow_le_mono_r; lia).
          assert (2 ^ 1074 <= 10 ^ (Z.of_nat 400 + 1)) by (vm_compute; discriminate).
          assert (0 < 10 ^ (Z.of_nat 400 + 1)) by (apply Z.pow_pos_nonneg; lia).
          nia. }
        pose proof (leading_zeros_spec 400 m (2 ^ j) ltac:(lia) Hfuel) as Hlz.
        cbv zeta in Hlz. destruct Hlz as (L1 & L2 & L3).
        set (lz := leading_zeros 400 m (2 ^ j)) in *.
        rewrite Hq in L2, L3.
        assert (Hlz : lz <= J).
        { destruct (Z_lt_le_dec J lz) as [Hl|Hl]; [|exact Hl].
          assert (2 ^ J <= 10 ^ J).
          { apply Z.pow_le_mono_l. lia. }
          assert (10 ^ J <= 10 ^ (lz - 1)) by (apply Z.pow_le_mono_r; lia).
          nia. }
        replace (1 - lz + J - 1) with (J - lz) by ring.
        replace (1 - lz + J) with (Z.succ (J - lz)) by ring.
        rewrite Z.pow_succ_r by lia.
        assert (E1 : 10 ^ J = 10 ^ (J - lz) * 10 ^ lz).
        { rewrite <- Z.pow_add_r by lia. f_equal. ring. }
        assert (E2 : 10 ^ lz = 10 * 10 ^ (lz - 1)).
        { rewrite <- Z.pow_succ_r by lia. f_equal. lia. }
        assert (0 < 10 ^ (J - lz)) by (apply Z.pow_pos_nonneg; lia).
        assert (0 < 10 ^ (lz - 1)) by (apply Z.pow_pos_nonneg; lia).
        split; [|lia]. split.
        + (* 2^J <= m 10^lz *)
          assert (10 ^ J <= Zpos m * 5 ^ J * 10 ^ lz) by (rewrite H10; nia).
          rewrite E1 in H1. 
          assert (0 < 10 ^ lz) by lia.
          apply Z.mul_le_mono_pos_r with (p := 10 ^ lz); lia.
        + assert (Zpos m * 5 ^ J * 10 ^ (lz - 1) < 10 ^ J) by (rewrite H10; nia).
          rewrite E1, E2 in H1.
          apply Z.mul_lt_mono_pos_r with (p := 10 ^ (lz - 1)); lia. }
    destruct Hrange as [Hrange Hk1].
    apply (Hend m (2 ^ j)%positive n k).
    + split; [exact Hk1|].
      destruct (Z_lt_le_dec k 801) as [Hl|Hl]; [exact Hl|].
      assert (10 ^ 800 <= 10 ^ (k - 1)) by (apply Z.pow_le_mono_r; lia).
      assert (5 ^ J <= 5 ^ 1074) by (apply Z.pow_le_mono_r; lia).
      assert (2 ^ 53 * 5 ^ 1074 < 10 ^ 800) by (vm_compute; reflexivity).
      assert (Zpos m * 5 ^ J < 2 ^ 53 * 5 ^ 1074) by nia.
      lia.
    + apply candidate_lower.
      * subst k. lia.
      * replace (k - n) with J by (subst k; ring).
        rewrite Hq, H10.
        replace (Zpos m * (2 ^ J * 5 ^ J)) with (Zpos m * 5 ^ J * 2 ^ J) by ring.
        rewrite Z.div_mul by lia.
        unfold digits_ok.
        replace (n - k) with (Zneg j) by (subst k J; lia).
        assert (R1 : (10 ^ (k - 1) <=? Zpos m * 5 ^ J) = true)
          by (apply Z.leb_le; lia).
        assert (R2 : (Zpos m * 5 ^ J <? 10 ^ k) = true)
          by (apply Z.ltb_lt; lia).
        rewrite R1, R2.
        replace (Z.to_N (Zpos m * 5 ^ J)) with (Npos (m * 5 ^ j)).
        2:{ subst J. rewrite <- Pos2Z.inj_pow, <- Pos2Z.inj_mul. reflexivity. }
        unfold of_decimal. rewrite round_ratio_exact by exact Hc.
        apply same_value_refl.
Qed.

End DigitsOfADouble.

(** ** Reading digits *)

Section ReadingDigits.

Lemma read_digits_value_cnt (s : string) (acc : N) (cnt cnt' : Z) :
  fst (fst (read_digits s acc cnt)) = fst (fst (read_digits s acc cnt')).
Proof.
  revert acc cnt cnt'. induction s as [|c s IH]; intros acc cnt cnt'.
  - reflexivity.
  - cbn [read_digits]. destruct (is_digit c); [apply IH|reflexivity].
Qed.

Lemma read_digits_app (a rest : string) (acc : N) (cnt : Z) :
  string_forall is_digit a = true ->
  read_digits (a ++ rest) acc cnt
  = read_digits rest (fst (fst (read_digits a acc 0)))
      (cnt + Z.of_nat (String.length a)).
Proof.
  revert acc cnt. induction a as [|c a IH]; intros acc cnt H.
  - simpl. f_equal. lia.
  - simpl in H. apply andb_true_iff in H. destruct H as [Hc Ha].
    cbn [append read_digits String.length]. rewrite Hc.
    rewrite (IH _ (cnt + 1) Ha).
    rewrite (read_digits_value_cnt a _ (0 + 1) 0).
    f_equal. lia.
Qed.

Lemma read_digits_all (a : string) (acc : N) (cnt : Z) :
  string_forall is_digit a = true ->
  read_digits a acc cnt
  = (fst (fst (read_digits a acc 0)), cnt + Z.of_nat (String.length a), "").
Proof.
  intros H. rewrite <- (append_nil_r a) at 1.
  now rewrite read_digits_app.
Qed.

Lemma read_digits_stop (c : ascii) (rest : string) (acc : N) (cnt : Z) :
  is_digit c = false ->
  read_digits (String c rest) acc cnt = (acc, cnt, String c rest).
Proof. intros H. cbn [read_digits]. now rewrite H. Qed.

Lemma string_take_drop (n : nat) (s : string) :
  (string_take n s ++ string_drop n s)%string = s.
Proof.
  revert s. induction n as [|n IH]; intros [|c s]; simpl; try reflexivity.
  now rewrite IH.
Qed.

Lemma string_take_length (n : nat) (s : string) :
  (n <= String.length s)%nat -> String.length (string_take n s) = n.
Proof.
  revert s. induction n as [|n IH]; intros [|c s] H; simpl in *;
    try reflexivity; try lia.
  rewrite IH; lia.
Qed.

Lemma string_drop_length (n : nat) (s : string) :
  (n <= String.length s)%nat ->
  String.length (string_drop n s) = (String.length s - n)%nat.
Proof.
  revert s. induction n as [|n IH]; intros [|c s] H; simpl in *;
    try reflexivity; try lia.
  rewrite IH; lia.
Qed.

(** The digits of [v]: as many as its size says, and read back they give
    [v]. *)
Lemma digit_string_reads (v : N) :
  fst (fst (read_digits (digit_string v) 0 0)) = v
  /\ Z.of_nat (String.length (digit_string v))
     = Z.of_nat (Decimal.nb_digits (N.to_uint v)).
Proof.
  pose proof (read_digits_digit_string v "") as H.
  rewrite append_nil_r in H.
  rewrite (read_digits_all _ 0 0 (digit_string_digits v)) in H.
  cbn [read_digits] in H.
  assert (H1 : fst (fst (read_digits (digit_string v) 0 0)) = v)
    by congruence.
  assert (H2 : 0 + Z.of_nat (String.length (digit_string v))
               = Z.of_nat (Decimal.nb_digits (N.to_uint v))) by congruence.
  split; [exact H1|lia].
Qed.

Lemma pow10_unique (s a b : Z) :
  10 ^ (a - 1) <= s < 10 ^ a -> 10 ^ (b - 1) <= s < 10 ^ b ->
  1 <= a -> 1 <= b -> a = b.
Proof.
  intros Ha Hb H1 H2.
  destruct (Z.lt_trichotomy a b) as [H|[H|H]]; [|exact H|].
  - assert (10 ^ a <= 10 ^ (b - 1)) by (apply Z.pow_le_mono_r; lia). lia.
  - assert (10 ^ b <= 10 ^ (a - 1)) by (apply Z.pow_le_mono_r; lia). lia.
Qed.

(** A number of [k] digits is written with [k] characters. *)
Lemma digit_string_length (s : positive) (k : Z) :
  10 ^ (k - 1) <= Zpos s < 10 ^ k -> 1 <= k ->
  Z.of_nat (String.length (digit_string (Npos s))) = k.
Proof.
  intros Hs Hk. rewrite (proj2 (digit_string_reads (Npos s))).
  pose proof (digits_bounds s) as Hb. cbv zeta in Hb.
  set (n := Z.of_nat (Decimal.nb_digits (N.to_uint (Npos s)))) in *.
  apply (pow10_unique (Zpos s)); auto.
  destruct (Z_lt_le_dec n 1) as [Hl|Hl]; [|exact Hl].
  assert (n = 0) by (subst n; lia).
  rewrite H in Hb. simpl in Hb. lia.
Qed.

(** Reading the first [n] digits and going on with the rest is reading
    them all. *)
Lemma read_digits_take_drop (n : nat) (ds : string) (acc : N) :
  string_forall is_digit ds = true ->
  fst (fst (read_digits (string_drop n ds)
              (fst (fst (read_digits (string_take n ds) acc 0))) 0))
  = fst (fst (read_digits ds acc 0)).
Proof.
  intros H.
  rewrite <- (string_take_drop n ds) at 3.
  rewrite read_digits_app by now apply string_forall_take.
  apply read_digits_value_cnt.
Qed.

Lemma digit_not_special (c : ascii) :
  is_digit c = true ->
  Ascii.eqb c "." = false /\ Ascii.eqb c "e" = false /\ Ascii.eqb c "E" = false.
Proof.
  destruct c as [[] [] [] [] [] [] [] []]; vm_compute; intros H;
    try discriminate; repeat split.
Qed.

Lemma prefix_Infinity_digit (c : ascii) (r : string) :
  is_digit c = true -> prefix "Infinity" (String c r) = false.
Proof.
  intros Hc. destruct (digit_is_not_sign c Hc) as (_ & _ & _ & HI & _).
  cbn [prefix]. destruct (ascii_dec "I" c) as [<-|]; [discriminate|reflexivity].
Qed.

(** The exponent part that [format_digits] writes reads as the exponent. *)
Lemma read_exponent_written (e : Z) :
  read_exponent
    ("e" ++ (if e <? 0 then "-" else "+") ++ digit_string (Z.to_N (Z.abs e)))
  = e.
Proof.
  pose proof (digit_string_reads (Z.to_N (Z.abs e))) as [Hv Hl].
  pose proof (digit_string_digits (Z.to_N (Z.abs e))) as Hd.
  assert (Hn : 1 <= Z.of_nat (String.length (digit_string (Z.to_N (Z.abs e))))).
  { destruct (digit_string (Z.to_N (Z.abs e))) eqn:E; simpl; try lia.
    exfalso. unfold digit_string, NilZero.string_of_uint in E.
    destruct (Z.to_N (Z.abs e)) as [|p]; [discriminate|].
    change (N.to_uint (Npos p)) with (Pos.to_uint p) in E.
    pose proof (DecimalPos.Unsigned.to_uint_nonnil p).
    destruct (Pos.to_uint p); try discriminate; congruence. }
  unfold read_exponent. cbn [append].
  change (Ascii.eqb "e" "e" || Ascii.eqb "e" "E") with true. cbv iota.
  destruct (e <? 0) eqn:Es; cbn [append];
    [change (Ascii.eqb "-" "-") with true
    |change (Ascii.eqb "+" "-") with false;
     change (Ascii.eqb "+" "+") with true]; cbv iota;
    rewrite (read_digits_all _ 0 0 Hd), Hv;
    match goal with
    | |- context [?a =? 0] =>
        assert (Hz : (a =? 0) = false) by (apply Z.eqb_neq; lia)
    end; rewrite Hz;
    [apply Z.ltb_lt in Es|apply Z.ltb_ge in Es]; lia.
Qed.

End ReadingDigits.

(** ** Reading what [Number::toString] lays out *)

Section ReadingANumber.

(** The text that [format_digits] lays out for [k] digits [s] and the
    position [n] of the point reads as [s * 10^(n - k)]. *)
Lemma read_unsigned_format_digits (sx : bool) (s : positive) (k n : Z) :
  1 <= k -> 10 ^ (k - 1) <= Zpos s < 10 ^ k ->
  read_unsigned sx (format_digits (Zpos s) k n)
  = of_decimal sx (Npos s) (n - k).
Proof.
  intros Hk Hs. unfold format_digits. simpl Z.to_N.
  pose proof (digit_string_digits (Npos s)) as Hd.
  pose proof (digit_string_length s k Hs Hk) as Hlen.
  pose proof (proj1 (digit_string_reads (Npos s))) as Hval.
  set (ds := digit_string (Npos s)) in *.
  destruct ((k <=? n) && (n <=? 21)) eqn:C1.
  { apply andb_true_iff in C1. destruct C1 as [C1 _]. apply Z.leb_le in C1.
    subst ds. rewrite read_unsigned_integer. f_equal. lia. }
  destruct ds as [|c r] eqn:Eds; [simpl in Hlen; lia|].
  assert (Hc : is_digit c = true).
  { simpl in Hd. apply andb_true_iff in Hd. tauto. }
  rewrite <- Eds in *.
  destruct ((0 <? n) && (n <=? 21)) eqn:C2.
  { apply andb_true_iff in C2. destruct C2 as [C2 C2']. apply Z.ltb_lt in C2.
    apply Z.leb_le in C2'.
    assert (Hnk : n < k).
    { apply andb_false_iff in C1. destruct C1 as [C1|C1];
        [apply Z.leb_gt in C1|apply Z.leb_gt in C1]; lia. }
    assert (Hle : (Z.to_nat n <= String.length ds)%nat) by lia.
    pose proof (string_take_length _ _ Hle) as Lt.
    pose proof (string_drop_length _ _ Hle) as Ld.
    pose proof (string_forall_take is_digit (Z.to_nat n) ds Hd) as Dt.
    pose proof (string_forall_drop is_digit (Z.to_nat n) ds Hd) as Dd.
    pose proof (read_digits_take_drop (Z.to_nat n) ds 0 Hd) as Hv.
    rewrite Hval in Hv.
    set (tk := string_take (Z.to_nat n) ds) in *.
    set (dr := string_drop (Z.to_nat n) ds) in *.
    unfold read_unsigned.
    assert (Hpre : prefix "Infinity" (tk ++ "." ++ dr) = false).
    { subst tk. rewrite Eds. destruct (Z.to_nat n) eqn:En; [lia|].
      cbn [string_take append]. now apply prefix_Infinity_digit. }
    rewrite Hpre.
    rewrite (read_digits_app tk _ 0 0 Dt).
    change ("." ++ dr)%string with (String "." dr).
    rewrite read_digits_stop by reflexivity.
    cbv beta iota zeta.
    change (Ascii.eqb "." ".") with true. cbv iota.
    rewrite (read_digits_all dr _ 0 Dd), Hv.
    cbv beta iota zeta.
    assert (Z1 : (0 + Z.of_nat (String.length tk) =? 0) = false)
      by (apply Z.eqb_neq; lia).
    rewrite Z1. cbn [andb].
    assert (Z2 : (0 + Z.of_nat (String.length tk)
                  + (0 + Z.of_nat (String.length dr)) =? 0) = false)
      by (apply Z.eqb_neq; lia).
    rewrite Z2. change (read_exponent "") with 0.
    f_equal. lia. }
  destruct ((-6 <? n) && (n <=? 0)) eqn:C3.
  { apply andb_true_iff in C3. destruct C3 as [C3 C3']. apply Z.ltb_lt in C3.
    apply Z.leb_le in C3'.
    unfold read_unsigned.
    change ("0." ++ string_repeat "0" (Z.to_nat (- n)) ++ ds)%string
      with (String "0" (String "." (string_repeat "0" (Z.to_nat (- n)) ++ ds))).
    rewrite prefix_Infinity_digit by reflexivity.
    cbn [read_digits]. change (is_digit "0") with true.
    change (is_digit ".") with false. cbv beta iota zeta.
    change (Ascii.eqb "." ".") with true. cbv iota.
    rewrite read_digits_zeros.
    rewrite (read_digits_all ds _ _ Hd).
    change ((0 * 10 + (N_of_ascii "0" - 48)) * 10 ^ N.of_nat (Z.to_nat (- n)))%N
      with (0 * 10 ^ N.of_nat (Z.to_nat (- n)))%N.
    rewrite (N.mul_0_l (10 ^ N.of_nat (Z.to_nat (- n)))), Hval.
    cbv beta iota zeta. change (0 + 1 =? 0) with false. cbn [andb].
    match goal with
    | |- context [?a =? 0] =>
        assert (Z2 : (a =? 0) = false) by (apply Z.eqb_neq; lia)
    end.
    rewrite Z2. change (read_exponent "") with 0.
    f_equal. lia. }
  set (es := ((if (n - 1 <? 0)%Z then "-" else "+")
              ++ digit_string (Z.to_N (Z.abs (n - 1)%Z)))%string).
  pose proof (read_exponent_written (n - 1)) as Hexp. fold es in Hexp.
  change ("e" ++ es)%string with (String "e" es) in Hexp.
  destruct (k =? 1) eqn:C4.
  { apply Z.eqb_eq in C4.
    unfold read_unsigned.
    assert (Hpre : prefix "Infinity" (ds ++ "e" ++ es) = false).
    { rewrite Eds. cbn [append]. now apply prefix_Infinity_digit. }
    rewrite Hpre.
    rewrite (read_digits_app ds _ 0 0 Hd), Hval.
    change ("e" ++ es)%string with (String "e" es).
    rewrite read_digits_stop by reflexivity.
    cbv beta iota zeta.
    change (Ascii.eqb "e" ".") with false. cbv iota.
    match goal with
    | |- context [?a =? 0] =>
        assert (Z2 : (a =? 0) = false) by (apply Z.eqb_neq; lia)
    end.
    rewrite Z2, Hexp. f_equal. lia. }
  apply Z.eqb_neq in C4.
  assert (Hle : (1 <= String.length ds)%nat) by lia.
  pose proof (string_take_length _ _ Hle) as Lt.
  pose proof (string_drop_length _ _ Hle) as Ld.
  pose proof (string_forall_take is_digit 1 ds Hd) as Dt.
  pose proof (string_forall_drop is_digit 1 ds Hd) as Dd.
  pose proof (read_digits_take_drop 1 ds 0 Hd) as Hv.
  rewrite Hval in Hv.
  set (tk := string_take 1 ds) in *.
  set (dr := string_drop 1 ds) in *.
  unfold read_unsigned.
  assert (Hpre : prefix "Infinity" (tk ++ "." ++ dr ++ "e" ++ es) = false).
  { subst tk. rewrite Eds. cbn [string_take append].
    now apply prefix_Infinity_digit. }
  rewrite Hpre.
  rewrite (read_digits_app tk _ 0 0 Dt).
  change ("." ++ dr ++ "e" ++ es)%string with (String "." (dr ++ String "e" es)).
  rewrite read_digits_stop by reflexivity.
  cbv beta iota zeta.
  change (Ascii.eqb "." ".") with true. cbv iota.
  rewrite (read_digits_app dr _ _ 0 Dd), Hv.
  rewrite read_digits_stop by reflexivity.
  cbv beta iota zeta.
  assert (Z1 : (0 + Z.of_nat (String.length tk) =? 0) = false)
    by (apply Z.eqb_neq; lia).
  rewrite Z1. cbn [andb].
  match goal with
  | |- context [?a + ?b =? 0] =>
      assert (Z2 : (a + b =? 0) = false) by (apply Z.eqb_neq; lia)
  end.
  rewrite Z2, Hexp. f_equal. lia.
Qed.

End ReadingANumber.

(** ** Numbers read back from their text *)

Section NumbersReadBack.

Lemma format_digits_first (s : positive) (k n : Z) :
  exists c r,
    format_digits (Zpos s) k n = String c r /\ is_digit c = true.
Proof.
  unfold format_digits. simpl Z.to_N.
  pose proof (digit_string_digits (Npos s)) as Hd.
  destruct (digit_string (Npos s)) as [|c r] eqn:E.
  { exfalso. unfold digit_string, NilZero.string_of_uint in E.
    change (N.to_uint (Npos s)) with (Pos.to_uint s) in E.
    pose proof (DecimalPos.Unsigned.to_uint_nonnil s).
    destruct (Pos.to_uint s); try discriminate; congruence. }
  simpl in Hd. apply andb_true_iff in Hd. destruct Hd as [Hc _].
  destruct ((k <=? n) && (n <=? 21)).
  { exists c, (r ++ string_repeat "0" (Z.to_nat (n - k)))%string. now split. }
  destruct ((0 <? n) && (n <=? 21)) eqn:C2.
  { apply andb_true_iff in C2. destruct C2 as [C2 _]. apply Z.ltb_lt in C2.
    destruct (Z.to_nat n) as [|j] eqn:En; [lia|].
    cbn [string_take append]. eexists _, _. split; [reflexivity|exact Hc]. }
  destruct ((-6 <? n) && (n <=? 0)).
  { cbn [append]. eexists _, _. split; reflexivity. }
  destruct (k =? 1); cbn [string_take append]; eexists _, _;
    split; reflexivity || exact Hc.
Qed.

(** The text of a number reads back as the number: exactly, but for [-0],
    which is written [0] as [+0] is. *)
Lemma parseFloat_toString (x : number) :
  is_double x = true -> parseFloat (toString x) = without_zero_sign x.
Proof.
  intros Hv. destruct x as [s|s| |sg m e]; try (destruct s; reflexivity);
    try reflexivity.
  pose proof (shortest_total m e Hv) as Ht.
  unfold toString, positive_toString.
  destruct (ratio_of m e) as [p q].
  destruct Ht as (s & k & n & Hs & Hk & Hr & Hval).
  rewrite Hs.
  assert (0 < 10 ^ (k - 1)) by (apply Z.pow_pos_nonneg; lia).
  destruct s as [|s|s]; try lia.
  simpl Z.to_N in Hval.
  destruct (format_digits_first s k n) as (c & r & Ef & Hc).
  pose proof (read_unsigned_format_digits false s k n Hk Hr) as R0.
  pose proof (read_unsigned_format_digits true s k n Hk Hr) as R1.
  rewrite Ef in *.
  destruct (digit_is_not_sign c Hc) as (Hw & Hm & Hp & _).
  unfold without_zero_sign.
  destruct sg; unfold parseFloat.
  - cbn [append trimStart].
    change (is_white_space "-") with false. cbv iota.
    change (Ascii.eqb "-" "-") with true. cbv iota.
    rewrite R1, of_decimal_opp, Hval. reflexivity.
  - cbn [append trimStart]. rewrite Hw, Hm, Hp.
    rewrite R0. exact Hval.
Qed.

(** Every number but [NaN] is [===] to what its own text reads as. *)
Lemma every_number_reads_back (x : number) :
  is_double x = true -> isNaN x = false -> reads_back x = true.
Proof.
  intros Hv Hn. unfold reads_back. rewrite (parseFloat_toString x Hv).
  destruct x as [s|s| |s m e]; try discriminate; try reflexivity.
  - now destruct s.
  - unfold strict_eq, SFeqb. now rewrite SFcompare_refl.
Qed.

End NumbersReadBack.

(** ** The descriptor round trip *)

Section DescriptorRoundTrip.

(** For safe integers the descriptor reads back to the very doubles it was
    made from. *)
Lemma matrixValues_integers (s tx ty : Z) :
  safe_integer s -> safe_integer tx -> safe_integer ty ->
  matrixValues (calc.getMatrixTransform (of_Z s) (of_Z tx) (of_Z ty))
  = Some [of_Z s; of_Z 0; of_Z 0; of_Z s; of_Z tx; of_Z ty].
Proof.
  intros Hs Hx Hy. rewrite matrixValues_getMatrixTransform.
  now rewrite !parseFloat_toString_integer.
Qed.

(** C7, the claim as stated fails: [-0] is a finite number, its text is
    [0], and [0] reads back as [+0].  The descriptor of [(1, -0, 0)] is
    that of [(1, 0, 0)], so the fifth value read back is [+0] and not the
    [-0] it was made from; the two are told apart by [1 / x]. *)
Lemma descriptor_round_trip_counterexample :
  let tx := S754_zero true in
  let d := calc.getMatrixTransform (of_Z 1) tx (of_Z 0) in
  Number.isFinite tx = true
  /\ d = "matrix(1, 0, 0, 1, 0, 0)"
  /\ matrixValues d
     = Some [of_Z 1; of_Z 0; of_Z 0; of_Z 1; S754_zero false; of_Z 0]
  /\ matrixValues d <> Some [of_Z 1; of_Z 0; of_Z 0; of_Z 1; tx; of_Z 0]
  /\ same_value (S754_zero false) tx = false
  /\ (of_Z 1 / S754_zero false)%js = S754_infinity false
  /\ (of_Z 1 / tx)%js = S754_infinity true.
Proof.
  cbv zeta. repeat split; try (vm_compute; reflexivity).
  vm_compute. discriminate.
Qed.

(** C7, amended. The descriptor of [s], [tx], [ty] is the text
    [matrix(s, 0, 0, s, tx, ty)], the numbers written as the language
    writes them, and reading it back as the examples do gives six values:
    the first and fourth are [s], the second and third are [0], the last
    two are [tx] and [ty], each the very double the descriptor was made
    from, but for a [-0] among them, which comes back as [+0].  This holds
    for every double, finite or not. *)
Theorem descriptor_round_trip (s tx ty : number) :
  is_double s = true -> is_double tx = true -> is_double ty = true ->
  calc.getMatrixTransform s tx ty
  = ("matrix(" ++ toString s ++ ", 0, 0, " ++ toString s ++ ", "
     ++ toString tx ++ ", " ++ toString ty ++ ")")%string
  /\ matrixValues (calc.getMatrixTransform s tx ty)
     = Some [without_zero_sign s; of_Z 0; of_Z 0; without_zero_sign s;
             without_zero_sign tx; without_zero_sign ty]
  /\ (is_zero s = false -> is_zero tx = false -> is_zero ty = false ->
      matrixValues (calc.getMatrixTransform s tx ty)
      = Some [s; of_Z 0; of_Z 0; s; tx; ty]).
Proof.
  intros Hs Hx Hy.
  assert (H : matrixValues (calc.getMatrixTransform s tx ty)
              = Some [without_zero_sign s; of_Z 0; of_Z 0; without_zero_sign s;
                      without_zero_sign tx; without_zero_sign ty]).
  { rewrite matrixValues_getMatrixTransform.
    now rewrite !parseFloat_toString. }
  split; [reflexivity|]. split; [exact H|].
  intros Zs Zx Zy. rewrite H.
  destruct s as [?|?| |? ? ?], tx as [?|?| |? ? ?], ty as [?|?| |? ? ?];
    try discriminate; reflexivity.
Qed.

Lemma descriptor_round_trip_witness :
  calc.getMatrixTransform (of_Z 2) (of_Z 10) (of_decimal true 205 (-1))
  = "matrix(2, 0, 0, 2, 10, -20.5)"
  /\ matrixValues
       (calc.getMatrixTransform (of_Z 2) (of_Z 10) (of_decimal true 205 (-1)))
     = Some [of_Z 2; of_Z 0; of_Z 0; of_Z 2; of_Z 10;
             of_decimal true 205 (-1)].
Proof.
  destruct (descriptor_round_trip (of_Z 2) (of_Z 10)
              (of_decimal true 205 (-1)) eq_refl eq_refl eq_refl)
    as (H1 & _ & H3).
  split.
  - rewrite H1. vm_compute. reflexivity.
  - apply H3; reflexivity.
Defined.

End DescriptorRoundTrip.

(** * The rest of the library

    The helpers of [src/core/utils.ts] that the engine does not call, the
    engine over runs of calls of every kind, [src/helpers/mouse-helpers.ts],
    the hook [useZoomPan] and the helpers [zoomPan] and
    [zoomPanWithPointer]. *)

(** ** The model on the tests of the repository *)

Section TestsOfTheRest.

(** The unit tests of [core/utils]. *)

Example lerp_should_interpolate :
  lerp (of_Z 0) (of_Z 10) (of_decimal false 5 (-1)) = of_Z 5
  /\ lerp (of_Z 0) (of_Z 100) (of_Z 0) = of_Z 0.
Proof. split; vm_compute; reflexivity. Qed.

(** Three calls while the clock stands still. *)
Example throttle_should_limit_calls :
  map fst
    (throttle.calls (throttle.create (of_Z 100))
       [(of_Z 1000, tt); (of_Z 1000, tt); (of_Z 1000, tt)])
  = [of_Z 1000].
Proof. vm_compute. reflexivity. Qed.

(** A second call before the timer of the first has fired. *)
Example debounce_cancels_previous_calls :
  debounced debounce.create [Called "a"; Called "b"; Fired 1%nat; Fired 2%nat]
  = ["b"].
Proof. reflexivity. Qed.

(** The unit tests of the mouse helpers. *)

Example isMiddleClick_should_detect_middle_button :
  isMiddleClick
    (mouse_event 1 (of_Z 0) (of_Z 0) (of_Z 0) (of_Z 0) false false)
  = true.
Proof. reflexivity. Qed.

Example getMovementDelta_returns_movement :
  getMovementDelta
    (mouse_event 0 (of_Z 0) (of_Z 0) (of_Z 5) (of_Z 10) false false)
  = {| Movement.movementX := of_Z 5; Movement.movementY := of_Z 10 |}.
Proof. reflexivity. Qed.

(** The tests of the helper: Ctrl and wheel, a drag with Shift. *)

Example should_handle_wheel_event_with_Ctrl_modifier :
  let st :=
    happenings (zoomPan.create element_only, blank_page)
      [OnWheel (wheel_event (of_Z 100) true)] in
  transform (style (elements (snd st) 0%nat))
  = "matrix(0.98, 0, 0, 0.98, 0, 0)".
Proof. vm_compute. reflexivity. Qed.

Example should_handle_mouse_drag_for_panning :
  let st :=
    happenings (zoomPan.create element_only, blank_page)
      [OnMouseDown
         (mouse_event 0 (of_Z 10) (of_Z 10) (of_Z 0) (of_Z 0) false false);
       OnMouseMove
         (mouse_event 0 (of_Z 60) (of_Z 60) (of_Z 50) (of_Z 50) false true);
       OnMouseUp] in
  transform (style (elements (snd st) 0%nat)) = "matrix(1, 0, 0, 1, 50, 50)"
  /\ zoomPan.isPanning (fst st) = false.
Proof. split; vm_compute; reflexivity. Qed.

End TestsOfTheRest.

(** ** The order of doubles *)

Section Order.

Lemma lt_not_le (x y : number) : lt x y = true -> le y x = false.
Proof.
  unfold lt, le, SFltb, SFleb. intros H.
  destruct (SFcompare x y) as [c|] eqn:E; [|discriminate].
  rewrite (SFcompare_antisym _ _ _ E). destruct c; simpl; congruence.
Qed.

Lemma le_trans (x y z : number) :
  le x y = true -> le y z = true -> le x z = true.
Proof.
  unfold le, SFleb.
  destruct x as [sx|sx| |sx mx ex], y as [sy|sy| |sy my ey],
    z as [sz|sz| |sz mz ez]; simpl;
    try discriminate; try reflexivity;
    try (destruct sx; simpl; (discriminate || reflexivity || idtac);
         destruct sy; simpl; (discriminate || reflexivity || idtac);
         destruct sz; simpl; (discriminate || reflexivity || idtac); fail).
  change (Pos.compare_cont Eq mx my) with (Pos.compare mx my).
  change (Pos.compare_cont Eq my mz) with (Pos.compare my mz).
  change (Pos.compare_cont Eq mx mz) with (Pos.compare mx mz).
  destruct sx, sy, sz; try discriminate; try reflexivity;
    destruct (Z.compare_spec ex ey), (Z.compare_spec ey ez),
      (Z.compare_spec ex ez);
    try discriminate; try reflexivity; try lia;
    destruct (Pos.compare_spec mx my), (Pos.compare_spec my mz),
      (Pos.compare_spec mx mz);
    simpl; try discriminate; try reflexivity; try lia.
Qed.

(** Two numbers each below the other are the same number, or two zeroes. *)
Lemma le_antisym (x y : number) :
  le x y = true -> le y x = true ->
  x = y \/ (is_zero x = true /\ is_zero y = true).
Proof.
  unfold le, SFleb.
  destruct x as [sx|sx| |sx mx ex], y as [sy|sy| |sy my ey]; simpl;
    try discriminate; auto;
    try (destruct sx; discriminate); try (destruct sy; discriminate).
  - destruct sx, sy; try discriminate; auto.
  - change (Pos.compare_cont Eq mx my) with (Pos.compare mx my).
    change (Pos.compare_cont Eq my mx) with (Pos.compare my mx).
    destruct sx, sy; try discriminate;
      destruct (Z.compare_spec ex ey), (Z.compare_spec ey ex);
      try discriminate; try lia;
      destruct (Pos.compare_spec mx my), (Pos.compare_spec my mx);
      simpl; try discriminate; try lia; intros _ _; left; congruence.
Qed.

Lemma strict_eq_refl (x : number) : isNaN x = false -> strict_eq x x = true.
Proof. intros H. unfold strict_eq, SFeqb. now rewrite SFcompare_refl. Qed.

Lemma strict_eq_zeros (x y : number) :
  is_zero x = true -> is_zero y = true -> strict_eq x y = true.
Proof. destruct x, y; simpl; intros; try discriminate; reflexivity. Qed.

Lemma le_strict_eq (x y : number) :
  le x y = true -> le y x = true -> strict_eq x y = true.
Proof.
  intros H1 H2. destruct (le_antisym x y H1 H2) as [->|[Zx Zy]].
  - apply strict_eq_refl. now destruct (le_not_nan _ _ H1).
  - now apply strict_eq_zeros.
Qed.

End Order.

(** ** [clamp] *)

Section ClampProperties.

Lemma clamp_between (v lo hi : number) :
  le lo hi = true -> isNaN v = false ->
  le lo (clamp v lo hi) = true /\ le (clamp v lo hi) hi = true.
Proof.
  intros Hle Hv. destruct (le_not_nan _ _ Hle) as [Hlo Hhi]. unfold clamp.
  destruct (min_cases v hi Hv Hhi) as [[Em Hm]|[Em Hm]];
    rewrite Em;
    [ destruct (max_cases lo v Hlo Hv) as [[Ex Hx]|[Ex Hx]]
    | destruct (max_cases lo hi Hlo Hhi) as [[Ex Hx]|[Ex Hx]] ];
    rewrite Ex; auto using le_refl.
Qed.

Lemma clamp_in_range (v lo hi : number) :
  le lo v = true -> le v hi = true -> strict_eq (clamp v lo hi) v = true.
Proof.
  intros H1 H2. destruct (le_not_nan _ _ H1) as [Hlo Hv].
  destruct (le_not_nan _ _ H2) as [_ Hhi]. unfold clamp.
  destruct (min_cases v hi Hv Hhi) as [[Em Hm]|[Em Hm]]; rewrite Em.
  - destruct (max_cases lo v Hlo Hv) as [[Ex Hx]|[Ex Hx]]; rewrite Ex.
    + now apply le_strict_eq.
    + now apply strict_eq_refl.
  - destruct (max_cases lo hi Hlo Hhi) as [[Ex Hx]|[Ex Hx]]; rewrite Ex.
    + apply le_strict_eq; [assumption|]. now apply (le_trans _ hi).
    + now apply le_strict_eq.
Qed.

Lemma clamp_inverted (v lo hi : number) :
  lt hi lo = true -> isNaN v = false -> clamp v lo hi = lo.
Proof.
  intros Hlt Hv. pose proof (lt_le _ _ Hlt) as Hle.
  destruct (le_not_nan _ _ Hle) as [Hhi Hlo]. unfold clamp.
  assert (Hm : le (Math.min v hi) hi = true
               /\ isNaN (Math.min v hi) = false).
  { destruct (min_cases v hi Hv Hhi) as [[Em Hm]|[Em Hm]]; rewrite Em;
      auto using le_refl. }
  destruct Hm as [Hm Hn].
  destruct (max_cases lo _ Hlo Hn) as [[Ex Hx]|[Ex Hx]]; [exact Ex|].
  pose proof (le_trans _ _ _ Hx Hm) as Habs.
  rewrite (lt_not_le _ _ Hlt) in Habs. discriminate.
Qed.

Lemma max_min_inverted (v lo hi : number) :
  lt hi lo = true -> isNaN v = false -> Math.max lo (Math.min hi v) = lo.
Proof.
  intros Hlt Hv. pose proof (lt_le _ _ Hlt) as Hle.
  destruct (le_not_nan _ _ Hle) as [Hhi Hlo].
  assert (Hm : le (Math.min hi v) hi = true
               /\ isNaN (Math.min hi v) = false).
  { destruct (min_cases hi v Hhi Hv) as [[Em Hm]|[Em Hm]]; rewrite Em;
      auto using le_refl. }
  destruct Hm as [Hm Hn].
  destruct (max_cases lo _ Hlo Hn) as [[Ex Hx]|[Ex Hx]]; [exact Ex|].
  pose proof (le_trans _ _ _ Hx Hm) as Habs.
  rewrite (lt_not_le _ _ Hlt) in Habs. discriminate.
Qed.

Lemma min_comm (a b : number) : Math.min a b = Math.min b a.
Proof.
  unfold Math.min. rewrite (orb_comm (isNaN b)).
  destruct (isNaN a || isNaN b) eqn:N; [reflexivity|].
  apply orb_false_iff in N. destruct N as [Na Nb].
  assert (Hgen : (if lt b a then b else a) = (if lt a b then a else b)
                 \/ (is_zero a = true /\ is_zero b = true)).
  { destruct (lt b a) eqn:E1, (lt a b) eqn:E2; auto.
    - apply lt_not_le in E1. apply lt_le in E2. congruence.
    - apply not_lt_le in E1; auto. apply not_lt_le in E2; auto.
      destruct (le_antisym _ _ E1 E2) as [->|]; auto. }
  destruct Hgen as [Hgen|[Za Zb]].
  - destruct a as [[]|?| |? ? ?], b as [[]|?| |? ? ?]; try exact Hgen;
      try reflexivity.
  - destruct a as [[]|?| |? ? ?], b as [[]|?| |? ? ?]; try discriminate;
      reflexivity.
Qed.

Lemma clamp_max_min (v lo hi : number) :
  clamp v lo hi = Math.max lo (Math.min hi v).
Proof. unfold clamp. now rewrite min_comm. Qed.

End ClampProperties.

Section ClampIdempotent.

Lemma min_fixed (r hi : number) :
  le r hi = true ->
  Math.min r hi = r \/ (r = S754_zero false /\ hi = S754_zero true).
Proof.
  intros H. destruct (le_not_nan _ _ H) as [Hr Hhi].
  unfold Math.min. rewrite Hr, Hhi. simpl.
  assert (Hgen : (if lt hi r then hi else r) = r).
  { destruct (lt hi r) eqn:E; [|reflexivity].
    apply lt_not_le in E. congruence. }
  destruct r as [[]|?| |? ? ?]; try (left; exact Hgen).
  destruct hi as [[]|?| |? ? ?]; try (left; exact Hgen).
  now right.
Qed.

Lemma max_fixed (lo m : number) :
  le lo m = true ->
  Math.max lo m = m \/ (lo = S754_zero false /\ m = S754_zero true).
Proof.
  intros H. destruct (le_not_nan _ _ H) as [Hlo Hm].
  unfold Math.max. rewrite Hlo, Hm. simpl.
  assert (Hgen : (if gt m lo then m else lo) = m
                 \/ (is_zero lo = true /\ is_zero m = true)).
  { unfold gt. fold (lt lo m). destruct (lt lo m) eqn:E; [now left|].
    apply not_lt_le in E; auto.
    destruct (le_antisym _ _ H E) as [->|]; auto. }
  destruct Hgen as [Hgen|[Zlo Zm]].
  - destruct lo as [[]|?| |? ? ?]; try (left; exact Hgen).
    destruct m as [[]|?| |? ? ?]; try (left; exact Hgen).
    now left.
  - destruct lo as [[]|?| |? ? ?], m as [[]|?| |? ? ?]; try discriminate;
      auto.
Qed.

Lemma min_not_plus_zero (v : number) :
  Math.min v (S754_zero true) <> S754_zero false.
Proof.
  unfold Math.min. destruct v as [[]|[]| |[] ? ?]; simpl; discriminate.
Qed.

Lemma max_not_minus_zero (m : number) :
  Math.max (S754_zero false) m <> S754_zero true.
Proof.
  unfold Math.max. destruct m as [[]|[]| |[] ? ?]; simpl; discriminate.
Qed.

Lemma clamp_fixed (v lo hi : number) :
  le lo hi = true -> isNaN v = false ->
  clamp (clamp v lo hi) lo hi = clamp v lo hi.
Proof.
  intros Hle Hv. destruct (clamp_between v lo hi Hle Hv) as [B1 B2].
  destruct (le_not_nan _ _ Hle) as [Hlo Hhi].
  assert (Hn : isNaN (Math.min v hi) = false).
  { destruct (min_cases v hi Hv Hhi) as [[-> _]|[-> _]]; assumption. }
  set (r := clamp v lo hi) in *.
  unfold clamp at 1.
  destruct (min_fixed r hi B2) as [->|[Er Eh]].
  - destruct (max_fixed lo r B1) as [E|[El Er]]; [exact E|].
    exfalso. subst r. unfold clamp in Er. rewrite El in Er.
    exact (max_not_minus_zero _ Er).
  - subst r. unfold clamp in Er |- *.
    destruct (max_cases lo _ Hlo Hn) as [[Ex _]|[Ex _]]; rewrite Ex in Er.
    + rewrite Ex. subst lo hi. reflexivity.
    + exfalso. rewrite Eh in Er. exact (min_not_plus_zero _ Er).
Qed.

End ClampIdempotent.

(** X1. [clamp(value, min, max)] of a value other than [NaN]: with
    [min <= max] the result lies within the bounds, clamping it again gives
    the very same number, and a value already within the bounds comes back
    as a number [===] to it (the same number but for the sign of a zero);
    with the bounds the wrong way round, [max < min], the result is [min]
    whatever the value. *)
Theorem clamp_projects_into_the_bounds (value min max : number) :
  isNaN value = false ->
  (le min max = true ->
   le min (clamp value min max) = true
   /\ le (clamp value min max) max = true
   /\ clamp (clamp value min max) min max = clamp value min max
   /\ (le min value = true -> le value max = true ->
       strict_eq (clamp value min max) value = true))
  /\ (lt max min = true -> clamp value min max = min).
Proof.
  intros Hv. split.
  - intros Hle. destruct (clamp_between value min max Hle Hv) as [B1 B2].
    repeat split; auto using clamp_fixed, clamp_in_range.
  - intros Hlt. now apply clamp_inverted.
Qed.

Lemma clamp_projects_into_the_bounds_witness :
  le (of_Z 0) (clamp (of_Z 15) (of_Z 0) (of_Z 10)) = true
  /\ le (clamp (of_Z 15) (of_Z 0) (of_Z 10)) (of_Z 10) = true
  /\ clamp (clamp (of_Z 15) (of_Z 0) (of_Z 10)) (of_Z 0) (of_Z 10)
     = clamp (of_Z 15) (of_Z 0) (of_Z 10)
  /\ clamp (of_Z 15) (of_Z 0) (of_Z 10) = of_Z 10.
Proof.
  destruct (clamp_projects_into_the_bounds (of_Z 15) (of_Z 0) (of_Z 10)
              eq_refl) as [H _].
  destruct (H eq_refl) as (H1 & H2 & H3 & _).
  split; [exact H1|]. split; [exact H2|]. split; [exact H3|]. reflexivity.
Defined.

(** X2. [calculateScale] hands back the scale it was given as the old
    scale, and a new scale that [isScaleInRange] accepts for the same
    limits, whenever [minScale <= maxScale] and the candidate
    [scale + deltaScale / (scaleSensitivity / scale)] is not [NaN]. *)
Theorem calculateScale_stays_within_limits
    (scale deltaScale minScale maxScale scaleSensitivity : number) :
  le minScale maxScale = true ->
  isNaN (scale + deltaScale / (scaleSensitivity / scale))%js = false ->
  let '(oldScale, newScale) :=
    calc.calculateScale scale deltaScale minScale maxScale scaleSensitivity in
  oldScale = scale
  /\ isScaleInRange newScale minScale maxScale = true.
Proof.
  intros Hle Hc. unfold calc.calculateScale, isScaleInRange, ge.
  fold (le minScale
          (clamp (scale + deltaScale / (scaleSensitivity / scale))%js
             minScale maxScale)).
  destruct (clamp_between _ _ _ Hle Hc) as [B1 B2].
  split; [reflexivity|]. now rewrite B1, B2.
Qed.

Lemma calculateScale_stays_within_limits_witness :
  let '(oldScale, newScale) :=
    calc.calculateScale (of_Z 1) (of_Z (-1000)) (of_decimal false 1 (-1))
      (of_Z 10) (of_Z 10) in
  oldScale = of_Z 1
  /\ isScaleInRange newScale (of_decimal false 1 (-1)) (of_Z 10) = true.
Proof.
  apply (calculateScale_stays_within_limits (of_Z 1) (of_Z (-1000))
           (of_decimal false 1 (-1)) (of_Z 10) (of_Z 10)); reflexivity.
Defined.

(** ** Multiplying and dividing by one, differences of integers *)

Section Units.

Lemma one_is : of_Z 1 = S754_finite false (shl 1 52) (-52).
Proof. reflexivity. Qed.

Lemma mul_one (x : number) :
  is_double x = true -> (x * of_Z 1)%js = x.
Proof.
  intros H. destruct x as [s|s| |s m e]; try (destruct s; reflexivity);
    try reflexivity.
  destruct (valid_finite s m e H) as [Hc He].
  rewrite one_is. unfold mul, SFmul. rewrite xorb_false_r.
  replace (Zpos (m * shl 1 52)) with (Zpos (shl m 52)).
  2:{ rewrite Pos2Z.inj_mul, !Zpos_shl by lia. ring. }
  replace (e + -52) with (e - 52) by ring.
  apply binary_round_aux_trailing; auto; lia.
Qed.

Lemma div_one (x : number) :
  is_double x = true -> (x / of_Z 1)%js = x.
Proof.
  intros H. destruct x as [s|s| |s m e]; try (destruct s; reflexivity);
    try reflexivity.
  destruct (valid_finite s m e H) as [Hc He].
  rewrite one_is. unfold div, SFdiv. rewrite xorb_false_r.
  unfold SFdiv_core_binary.
  change (Zdigits2 (Zpos (shl 1 52))) with 53.
  cbn [Zdigits2].
  set (d := Zpos (digits2_pos m)) in *.
  set (e' := Z.min (fexp prec emax (d + e - (53 + -52))) (e - -52)).
  assert (Hd : 0 < d) by (subst d; lia).
  assert (He' : e' <= e).
  { subst e'. unfold fexp, emin, prec, emax in *. lia. }
  assert (He'' : e - 52 - 53 <= e').
  { subst e'. unfold fexp, emin, prec, emax in *. lia. }
  destruct (e - -52 - e') as [|p|p] eqn:Es; try lia.
  rewrite Z.shiftl_mul_pow2 by lia.
  replace (Zpos m * 2 ^ Zpos p) with (Zpos m * 2 ^ (e - e') * Zpos (shl 1 52)).
  2:{ rewrite Zpos_shl by lia. rewrite <- Es.
      replace (e - -52 - e') with ((e - e') + 52) by ring.
      rewrite Z.pow_add_r by lia. ring. }
  pose proof (Z.div_eucl_eq (Zpos m * 2 ^ (e - e') * Zpos (shl 1 52))
                (Zpos (shl 1 52)) ltac:(lia)) as Hdiv.
  pose proof (Z.mod_pos_bound (Zpos m * 2 ^ (e - e') * Zpos (shl 1 52))
                (Zpos (shl 1 52)) ltac:(lia)) as Hmod.
  unfold Z.modulo in Hmod.
  destruct (Z.div_eucl _ _) as [q r].
  assert (Hr : r = 0 /\ q = Zpos m * 2 ^ (e - e')).
  { assert (Hq : Zpos (shl 1 52) * (Zpos m * 2 ^ (e - e') - q) = r) by lia.
    assert (0 < Zpos (shl 1 52)) by lia.
    assert (Zpos m * 2 ^ (e - e') - q = 0) by nia. lia. }
  destruct Hr as [-> ->].
  change (new_location (Zpos (shl 1 52)) 0) with loc_Exact.
  replace (Zpos m * 2 ^ (e - e')) with (Zpos (shl m (e - e')))
    by (rewrite Zpos_shl by lia; reflexivity).
  replace e' with (e - (e - e')) at 2 by ring.
  apply binary_round_aux_trailing; auto; lia.
Qed.

End Units.

Section Differences.

Lemma sub_add_opp (x y : number) : (x - y)%js = (x + SFopp y)%js.
Proof.
  unfold sub, add, SFsub, SFadd.
  destruct x as [sx|sx| |sx mx ex], y as [sy|sy| |sy my ey]; simpl;
    try reflexivity;
    try (destruct sx, sy; reflexivity).
Qed.

Lemma opp_of_Z (z : Z) : safe_integer z -> SFopp (of_Z z) = of_Z (- z)
  \/ z = 0.
Proof.
  intros H. destruct z as [|p|p]; [now right| |]; left.
  - rewrite (of_Z_canonical (Zpos p) H).
    rewrite (of_Z_canonical (- Zpos p)) by (unfold safe_integer in *; simpl in *; lia).
    reflexivity.
  - rewrite (of_Z_canonical (Zneg p) H).
    rewrite (of_Z_canonical (- Zneg p)) by (unfold safe_integer in *; simpl in *; lia).
    reflexivity.
Qed.

Lemma sub_of_Z (a b : Z) :
  safe_integer a -> safe_integer b -> safe_integer (a - b) ->
  (of_Z a - of_Z b)%js = of_Z (a - b).
Proof.
  intros Ha Hb Hab. rewrite sub_add_opp.
  destruct (opp_of_Z b Hb) as [E| ->].
  - rewrite E. replace (a - b) with (a + - b) in * by ring.
    apply add_of_Z; unfold safe_integer in *; [exact Ha | lia | exact Hab].
  - replace (a - 0) with a by ring.
    rewrite (of_Z_canonical a Ha). destruct a; reflexivity.
Qed.

End Differences.

(** X3. At the scale [1] (a new engine, or one after [reset]) the scale
    that [zoom] stores is the new scale of [calculateScale] for the same
    delta, bounds and sensitivity: dividing the sensitivity by the scale
    [1] changes nothing.  The sensitivity is any double, [NaN] and the
    infinities included. *)
Theorem calculateScale_agrees_with_zoom_at_scale_one
    (r : Renderer.t) (p : IZoomParams.t) :
  Renderer.isActive r = true ->
  scale (Renderer.getState r) = of_Z 1 ->
  is_double (to_number (scaleSensitivity (Renderer.config r))) = true ->
  scale (Renderer.getState (this (Renderer.zoom r p)))
  = snd (calc.calculateScale (scale (Renderer.getState r))
           (IZoomParams.deltaScale p)
           (minScale (Renderer.config r)) (maxScale (Renderer.config r))
           (to_number (scaleSensitivity (Renderer.config r)))).
Proof.
  intros Ha H1 V. rewrite (zoom_active r p Ha).
  unfold calc.calculateScale, Renderer.getState in *. cbn [snd].
  rewrite clamp_max_min, H1, (div_one _ V). reflexivity.
Qed.

Lemma calculateScale_agrees_with_zoom_at_scale_one_witness :
  scale (Renderer.getState
           (this (Renderer.zoom (Renderer.constructor test_config)
                    (zoom_params blank (of_Z 250) (of_Z 250) (of_Z 1)))))
  = snd (calc.calculateScale (of_Z 1) (of_Z 1) (of_decimal false 1 (-1))
           (of_Z 10) (of_Z 10)).
Proof.
  apply (calculateScale_agrees_with_zoom_at_scale_one
           (Renderer.constructor test_config)
           (zoom_params blank (of_Z 250) (of_Z 250) (of_Z 1)));
    reflexivity.
Defined.

(** ** [lerp] *)

Section Interpolation.

Lemma mul_zero_r (x : number) (s : bool) :
  Number.isFinite x = true -> is_zero (x * S754_zero s)%js = true.
Proof. destruct x; simpl; intros; try discriminate; reflexivity. Qed.

Lemma mul_zero_l (x : number) (s : bool) :
  Number.isFinite x = true -> is_zero (S754_zero s * x)%js = true.
Proof. destruct x; simpl; intros; try discriminate; reflexivity. Qed.

(** Adding a zero changes nothing but, at most, the sign of a zero. *)
Lemma add_zero_r (x z : number) :
  isNaN x = false -> is_zero z = true -> strict_eq (x + z)%js x = true.
Proof.
  destruct z as [sz| | |]; try discriminate. intros Hx _.
  destruct x as [sx|sx| |sx m e]; try discriminate.
  - destruct sx, sz; reflexivity.
  - destruct sx; reflexivity.
  - apply (strict_eq_refl (S754_finite sx m e)). reflexivity.
Qed.

Lemma add_zero_l (x z : number) :
  isNaN x = false -> is_zero z = true -> strict_eq (z + x)%js x = true.
Proof.
  destruct z as [sz| | |]; try discriminate. intros Hx _.
  destruct x as [sx|sx| |sx m e]; try discriminate.
  - destruct sx, sz; reflexivity.
  - destruct sx; reflexivity.
  - apply (strict_eq_refl (S754_finite sx m e)). reflexivity.
Qed.

End Interpolation.

(** X4. [lerp(start, end, 0)] is [start] and [lerp(start, end, 1)] is
    [end] for finite doubles, as numbers compared with [===]: nothing is
    lost to rounding at the two ends. *)
Theorem lerp_reaches_both_ends (start end_ : number) :
  is_double start = true -> is_double end_ = true ->
  Number.isFinite start = true -> Number.isFinite end_ = true ->
  strict_eq (lerp start end_ (of_Z 0)) start = true
  /\ strict_eq (lerp start end_ (of_Z 1)) end_ = true.
Proof.
  intros Vs Ve Fs Fe. unfold lerp.
  change (of_Z 1 - of_Z 0)%js with (of_Z 1).
  change (of_Z 1 - of_Z 1)%js with (S754_zero false).
  change (of_Z 0) with (S754_zero false).
  rewrite !mul_one by assumption.
  split.
  - apply add_zero_r; [now destruct start|now apply mul_zero_r].
  - apply add_zero_l; [now destruct end_|now apply mul_zero_r].
Qed.

Lemma lerp_reaches_both_ends_witness :
  strict_eq (lerp (of_decimal false 25 (-1)) (of_Z 100) (of_Z 0))
    (of_decimal false 25 (-1)) = true
  /\ strict_eq (lerp (of_decimal false 25 (-1)) (of_Z 100) (of_Z 1))
       (of_Z 100) = true.
Proof.
  apply (lerp_reaches_both_ends (of_decimal false 25 (-1)) (of_Z 100));
    reflexivity.
Defined.

(** ** [calculateTranslate] *)

(** X29. [calculateTranslate] hands the translation back as it is when
    the scale is outside the limits (or [NaN]) or the position is the
    previous one; and at the scale [1] its result is [===] to the
    translation whatever the positions, as long as their difference is
    finite: at scale [1] nothing moves. *)
Theorem calculateTranslate_keeps_the_translation
    (pos prevPos translate scale minScale maxScale : number) :
  (isScaleInRange scale minScale maxScale = false
   \/ hasPositionChanged pos prevPos = false ->
   calc.calculateTranslate pos prevPos translate scale minScale maxScale
   = translate)
  /\ (scale = of_Z 1 ->
      is_double prevPos = true ->
      isNaN translate = false ->
      Number.isFinite (pos - prevPos)%js = true ->
      strict_eq
        (calc.calculateTranslate pos prevPos translate scale minScale maxScale)
        translate = true).
Proof.
  unfold calc.calculateTranslate. split.
  - intros [H|H]; rewrite H; [reflexivity|].
    now rewrite andb_false_r.
  - intros -> V Ht Hf.
    destruct (negb (isScaleInRange (of_Z 1) minScale maxScale
                    && hasPositionChanged pos prevPos));
      [now apply strict_eq_refl|].
    change (of_Z 1 - of_Z 1 / of_Z 1)%js with (S754_zero false).
    rewrite (mul_one _ V).
    apply add_zero_r; [exact Ht|]. now apply mul_zero_r.
Qed.

Lemma calculateTranslate_keeps_the_translation_witness :
  calc.calculateTranslate (of_Z 250) (of_Z 100) (of_Z 10) (of_Z 20)
    (of_decimal false 1 (-1)) (of_Z 10)
  = of_Z 10
  /\ strict_eq
       (calc.calculateTranslate (of_Z 250) (of_Z 100) (of_Z 10) (of_Z 1)
          (of_decimal false 1 (-1)) (of_Z 10))
       (of_Z 10) = true.
Proof.
  split.
  - apply (proj1 (calculateTranslate_keeps_the_translation (of_Z 250)
                    (of_Z 100) (of_Z 10) (of_Z 20)
                    (of_decimal false 1 (-1)) (of_Z 10))).
    left. reflexivity.
  - apply (proj2 (calculateTranslate_keeps_the_translation (of_Z 250)
                    (of_Z 100) (of_Z 10) (of_Z 1)
                    (of_decimal false 1 (-1)) (of_Z 10))); reflexivity.
Defined.

(** ** [throttle] *)

(** X5. Of a run of calls of a throttled function, [fn] sees calls of the
    run only, with their own arguments, and each when the clock reads at
    least [interval] more than at the call [fn] saw before (than
    [lastCallTime] for the first): [now - lastCallTime >= interval]. *)
Theorem throttle_spaces_the_calls {A : Type}
    (this : throttle.t) (run : list (number * A)) :
  spaced (throttle.interval this) (throttle.lastCallTime this)
    (throttle.calls this run)
  /\ forall entry, In entry (throttle.calls this run) -> In entry run.
Proof.
  revert this. induction run as [|[now args] run IH]; intros this.
  - split; [exact I|]. intros entry [].
  - cbn [throttle.calls]. unfold throttle.call.
    destruct (ge (now - throttle.lastCallTime this)%js
                (throttle.interval this)) eqn:E.
    + destruct (IH {| throttle.interval := throttle.interval this;
                      throttle.lastCallTime := now |}) as [IH1 IH2].
      split.
      * cbn [spaced]. split; [exact E|exact IH1].
      * intros entry [<-|Hin]; [now left|right; now apply IH2].
    + destruct (IH this) as [IH1 IH2].
      split; [exact IH1|]. intros entry Hin. right. now apply IH2.
Qed.

(** ** [debounce] *)

Section Debounce.

Variable A : Type.

(** At most one timer is pending: the one [timeoutId] names, with an
    identifier that [setTimeout] has handed out. *)
Lemma debounced_one_place (run : list (Tick A)) :
  forall (this : debounce.t A) (pending : option (nat * A)),
    debounce.timers this = match pending with
                           | Some timer => [timer]
                           | None => []
                           end ->
    debounce.timeoutId this = option_map fst pending ->
    debounced this run = one_place pending (debounce.next this) run.
Proof.
  induction run as [|[args|id] run IH]; intros this pending Ht Hi;
    [reflexivity| |].
  - cbn [debounced one_place].
    apply (IH (debounce.call this args)
             (Some (debounce.next this, args))); [|reflexivity].
    unfold debounce.call. cbn [debounce.timers]. rewrite Hi, Ht.
    destruct pending as [[id' a]|]; cbn [option_map fst]; [|reflexivity].
    unfold debounce.clearTimeout. cbn [filter fst].
    now rewrite Nat.eqb_refl.
  - cbn [debounced one_place]. unfold debounce.fire. rewrite Ht.
    destruct pending as [[id' a]|]; cbn [find fst].
    + destruct (Nat.eqb_spec id' id) as [->|Hne].
      * f_equal.
        apply (IH {| debounce.timeoutId := None;
                     debounce.timers := debounce.clearTimeout id [(id, a)];
                     debounce.next := debounce.next this |} None);
          [|reflexivity].
        unfold debounce.clearTimeout. cbn [debounce.timers filter fst].
        now rewrite Nat.eqb_refl.
      * now apply IH.
    + now apply IH.
Qed.

Lemma one_place_calls (before : list A) (last : A)
    (pending : option (nat * A)) (next : nat) (run : list (Tick A)) :
  one_place pending next (map Called (before ++ [last]) ++ run)%list
  = one_place (Some ((next + List.length before)%nat, last))
      (S (next + List.length before)) run.
Proof.
  revert pending next. induction before as [|a before IH]; intros pending next.
  - cbn. now rewrite Nat.add_0_r.
  - cbn [map app one_place List.length]. rewrite IH.
    now rewrite Nat.add_succ_r.
Qed.

End Debounce.

(** X28. A debounced function is a buffer of one place: over any run of
    calls and firings of timers, [fn] is run with what the last call before
    a firing left in the buffer, once, and only by the timer of that call.
    So after a burst of calls the timer of the last one runs [fn] with the
    arguments of the last call, and the timer of no other call runs it at
    all. *)
Theorem debounce_delivers_the_last_call {A : Type}
    (run : list (Tick A)) (before : list A) (last : A) (id : nat) :
  debounced debounce.create run = one_place None 1 run
  /\ debounced debounce.create
       (map Called (before ++ [last])
        ++ [Fired (S (List.length before))])%list
     = [last]
  /\ (id <> S (List.length before) ->
      debounced debounce.create
        (map Called (before ++ [last]) ++ [Fired id])%list
      = []).
Proof.
  assert (H : forall run' : list (Tick A),
             debounced debounce.create run' = one_place None 1 run')
    by (intros run'; now apply debounced_one_place).
  split; [apply H|]. rewrite !H, !one_place_calls. cbn [one_place Nat.add].
  split.
  - now rewrite Nat.eqb_refl.
  - intros Hne. apply not_eq_sym, Nat.eqb_neq in Hne. now rewrite Hne.
Qed.

(** ** The engine over runs of calls of every kind *)

Section Runs.

Lemma invoke_config (r : Renderer.t) (c : Call) :
  Renderer.config (invoke r c) = Renderer.config r.
Proof.
  destruct (Renderer.isActiveFlag r) eqn:H.
  - destruct c as [p|p|p| |]; simpl.
    + now rewrite (zoom_active r p H).
    + now rewrite (panBy_active r p H).
    + rewrite (panTo_outcome r p H), applyTransform_this. reflexivity.
    + unfold Renderer.reset. now rewrite H.
    + reflexivity.
  - now rewrite invoke_inactive.
Qed.

Lemma run_cons (r : Renderer.t) (c : Call) (cs : list Call) :
  run r (c :: cs) = run (invoke r c) cs.
Proof. reflexivity. Qed.

Lemma run_config (cs : list Call) (r : Renderer.t) :
  Renderer.config (run r cs) = Renderer.config r.
Proof.
  revert r. induction cs as [|c cs IH]; intros r; [reflexivity|].
  now rewrite run_cons, IH, invoke_config.
Qed.

Lemma invoke_isActive (r : Renderer.t) (c : Call) :
  Renderer.isActiveFlag (invoke r c)
  = Renderer.isActiveFlag r && negb (is_destroy c).
Proof.
  destruct (Renderer.isActiveFlag r) eqn:H.
  - destruct c as [p|p|p| |]; simpl.
    + now rewrite (zoom_active r p H).
    + now rewrite (panBy_active r p H).
    + rewrite (panTo_outcome r p H), applyTransform_this. exact H.
    + unfold Renderer.reset. now rewrite H.
    + reflexivity.
  - now rewrite invoke_inactive.
Qed.

Lemma run_isActive (cs : list Call) (r : Renderer.t) :
  Renderer.isActiveFlag (run r cs)
  = Renderer.isActiveFlag r && negb (existsb is_destroy cs).
Proof.
  revert r. induction cs as [|c cs IH]; intros r.
  - simpl. now rewrite andb_true_r.
  - rewrite run_cons, IH, invoke_isActive. simpl existsb.
    destruct (Renderer.isActiveFlag r), (is_destroy c); reflexivity.
Qed.

Lemma invoke_origin (r : Renderer.t) (c : Call) :
  originX (Renderer.state r) = of_Z 0 ->
  originY (Renderer.state r) = of_Z 0 ->
  originX (Renderer.state (invoke r c)) = of_Z 0
  /\ originY (Renderer.state (invoke r c)) = of_Z 0.
Proof.
  intros Hx Hy. destruct (Renderer.isActiveFlag r) eqn:H.
  - destruct c as [p|p|p| |]; simpl.
    + rewrite (zoom_active r p H). simpl. auto.
    + rewrite (panBy_active r p H). simpl. auto.
    + rewrite (panTo_outcome r p H), applyTransform_this. simpl. auto.
    + unfold Renderer.reset. rewrite H. simpl. auto.
    + auto.
  - rewrite invoke_inactive; auto.
Qed.

Lemma run_origin (cs : list Call) (r : Renderer.t) :
  originX (Renderer.state r) = of_Z 0 ->
  originY (Renderer.state r) = of_Z 0 ->
  originX (Renderer.state (run r cs)) = of_Z 0
  /\ originY (Renderer.state (run r cs)) = of_Z 0.
Proof.
  revert r. induction cs as [|c cs IH]; intros r Hx Hy; [auto|].
  destruct (invoke_origin r c Hx Hy) as [Hx' Hy'].
  rewrite run_cons. exact (IH _ Hx' Hy').
Qed.

End Runs.

(** X6. No call changes the configuration of an engine, and the engine is
    active after a run of calls exactly if it was active before and the run
    has no [destroy]: nothing makes a destroyed engine active again. *)
Theorem configuration_is_fixed_and_destroy_is_final
    (r : Renderer.t) (cs : list Call) :
  Renderer.config (run r cs) = Renderer.config r
  /\ Renderer.isActive (run r cs)
     = Renderer.isActive r && negb (existsb is_destroy cs).
Proof.
  split; [apply run_config | apply run_isActive].
Qed.

(** X7. After any run of [zoom], [panBy], [panTo] and [reset] calls on a
    new engine, [reset()] leaves the engine as the constructor made it:
    the initial state, the same configuration, active. *)
Theorem reset_restores_the_constructed_engine
    (cfg : IRendererConfig) (cs : list Call) :
  existsb is_destroy cs = false ->
  Renderer.reset (run (Renderer.constructor cfg) cs)
  = Renderer.constructor cfg.
Proof.
  intros H. unfold Renderer.reset.
  pose proof (run_isActive cs (Renderer.constructor cfg)) as Ha.
  pose proof (run_config cs (Renderer.constructor cfg)) as Hc.
  rewrite H in Ha. simpl in Ha. rewrite Ha. simpl.
  unfold Renderer.set_state. rewrite Ha, Hc. reflexivity.
Qed.

Lemma reset_restores_the_constructed_engine_witness :
  Renderer.reset
    (run (Renderer.constructor test_config)
       [CallZoom (zoom_params blank (of_Z 250) (of_Z 250) (of_Z 1));
        CallPanBy (panBy_params blank (of_Z 50) (of_Z 50));
        CallZoom (zoom_params blank (of_Z 250) (of_Z 250) (of_Z 1))])
  = Renderer.constructor test_config.
Proof.
  apply (reset_restores_the_constructed_engine test_config). reflexivity.
Defined.

(** X8. [panTo] with a scale is an assignment of the whole state: after
    any run of [zoom], [panBy], [panTo] and [reset] calls on a new engine it
    leaves the engine, the element and the console as it leaves them on
    the new engine itself.  (The origins, which it does not write, are
    never anything but [0].) *)
Theorem panTo_with_scale_forgets_history
    (cfg : IRendererConfig) (cs : list Call) (p : IPanToParams.t) :
  existsb is_destroy cs = false ->
  IPanToParams.scale p <> None ->
  Renderer.panTo (run (Renderer.constructor cfg) cs) p
  = Renderer.panTo (Renderer.constructor cfg) p.
Proof.
  intros H Hs.
  pose proof (run_isActive cs (Renderer.constructor cfg)) as Ha.
  pose proof (run_config cs (Renderer.constructor cfg)) as Hc.
  destruct (run_origin cs (Renderer.constructor cfg) eq_refl eq_refl)
    as [Hx Hy].
  rewrite H in Ha. simpl in Ha.
  rewrite (panTo_outcome _ p Ha).
  rewrite (panTo_outcome (Renderer.constructor cfg) p eq_refl).
  destruct (IPanToParams.scale p) as [v|]; [|congruence].
  unfold Renderer.set_state. rewrite Ha, Hc, Hx, Hy. reflexivity.
Qed.

Lemma panTo_with_scale_forgets_history_witness :
  Renderer.panTo
    (run (Renderer.constructor test_config)
       [CallZoom (zoom_params blank (of_Z 250) (of_Z 250) (of_Z 1));
        CallPanBy (panBy_params blank (of_Z 50) (of_Z 50))])
    (panTo_params blank (of_Z 100) (of_Z 150) (Some (of_Z 2)))
  = Renderer.panTo (Renderer.constructor test_config)
      (panTo_params blank (of_Z 100) (of_Z 150) (Some (of_Z 2))).
Proof.
  apply (panTo_with_scale_forgets_history test_config).
  - reflexivity.
  - discriminate.
Defined.

Section AllCalls.

Variable cfg : IRendererConfig.
Hypothesis Hcfg : bounds_around_one cfg.

Lemma bounds_ordered : le (minScale cfg) (maxScale cfg) = true.
Proof.
  destruct Hcfg as (_ & _ & H1 & H2 & _). exact (le_trans _ _ _ H1 H2).
Qed.

Lemma keeps_bounds_well_configured (r : Renderer.t) :
  keeps_bounds cfg r -> Renderer.isActiveFlag r = true -> well_configured r.
Proof.
  intros [Hc Hb] Ha. destruct Hcfg as (Hlo & Hhi & H1 & H2 & Hs).
  unfold scale_in_bounds in Hb. apply andb_true_iff in Hb.
  destruct Hb as [B1 B2]. rewrite Hc in B1, B2. simpl in B1, B2.
  unfold well_configured. rewrite Hc. simpl.
  repeat split; auto using bounds_ordered.
  - destruct (scaleSensitivity cfg); simpl; tauto || reflexivity.
  - destruct (scaleSensitivity cfg); simpl; tauto || reflexivity.
  - exact (between_finite _ _ _ Hlo Hhi B1 B2).
Qed.

Lemma constructor_keeps_bounds : keeps_bounds cfg (Renderer.constructor cfg).
Proof.
  destruct Hcfg as (_ & _ & H1 & H2 & _).
  split; [reflexivity|].
  change (le (minScale cfg) (of_Z 1) && le (of_Z 1) (maxScale cfg) = true).
  now rewrite H1, H2.
Qed.

Lemma invoke_keeps_bounds (r : Renderer.t) (c : Call) :
  scale_arguments_ok c -> keeps_bounds cfg r -> keeps_bounds cfg (invoke r c).
Proof.
  intros Hok Hk. split; [rewrite invoke_config; exact (proj1 Hk)|].
  destruct (Renderer.isActiveFlag r) eqn:Ha;
    [|rewrite invoke_inactive by exact Ha; exact (proj2 Hk)].
  destruct Hk as [Hc Hb].
  destruct c as [p|p|p| |]; simpl in *.
  - exact (proj2 (zoom_step r p (keeps_bounds_well_configured r (conj Hc Hb) Ha) Hok)).
  - rewrite (panBy_active r p Ha). exact Hb.
  - rewrite (panTo_outcome r p Ha), applyTransform_this.
    destruct (IPanToParams.scale p) as [v|]; [|exact Hb].
    unfold scale_in_bounds. simpl.
    rewrite Hc. simpl.
    destruct (max_min_bounds _ _ v bounds_ordered Hok) as [B1 B2].
    now rewrite B1, B2.
  - unfold Renderer.reset. rewrite Ha. unfold scale_in_bounds.
    cbn [negb Renderer.set_state Renderer.config Renderer.state].
    rewrite Hc.
    change (le (minScale cfg) (of_Z 1) && le (of_Z 1) (maxScale cfg) = true).
    destruct Hcfg as (_ & _ & H1 & H2 & _). now rewrite H1, H2.
  - exact Hb.
Qed.

Lemma run_keeps_bounds (cs : list Call) (r : Renderer.t) :
  Forall scale_arguments_ok cs -> keeps_bounds cfg r -> keeps_bounds cfg (run r cs).
Proof.
  revert r. induction cs as [|c cs IH]; intros r Hall Hk; [exact Hk|].
  inversion_clear Hall as [|? ? Hc Hrest].
  rewrite run_cons. apply IH; [exact Hrest|]. now apply invoke_keeps_bounds.
Qed.

End AllCalls.

(** X9. For an engine built from finite bounds with
    [minScale <= 1 <= maxScale] and a sensitivity that is left out (the
    default [10] then applies) or is a finite number other than zero, but
    not one that holds [undefined], the scale is within the bounds after
    every run of calls of any kind, [zoom], [panBy], [panTo], [reset] and
    [destroy], whose deltas of [zoom] and scales of [panTo] are anything
    but [NaN].  The initial scale [1], which [reset] brings back, is why
    the bounds have to lie around [1]. *)
Theorem scale_stays_within_bounds
    (cfg : IRendererConfig) (cs : list Call) :
  bounds_around_one cfg ->
  Forall scale_arguments_ok cs ->
  let r := run (Renderer.constructor cfg) cs in
  le (minScale cfg) (scale (Renderer.getState r)) = true
  /\ le (scale (Renderer.getState r)) (maxScale cfg) = true.
Proof.
  intros Hcfg Hall. cbv zeta.
  destruct (run_keeps_bounds cfg Hcfg cs _ Hall (constructor_keeps_bounds cfg Hcfg))
    as [Hc Hb].
  unfold scale_in_bounds in Hb. rewrite Hc in Hb. simpl in Hb.
  now apply andb_true_iff in Hb.
Qed.

Lemma scale_stays_within_bounds_witness :
  let cs :=
    [CallZoom (zoom_params blank (of_Z 250) (of_Z 250) (of_Z 1000));
     CallPanBy (panBy_params blank (of_Z 50) (S754_infinity false));
     CallReset;
     CallPanTo (panTo_params blank (of_Z 100) (of_Z 150)
                  (Some (S754_infinity true)));
     CallDestroy;
     CallZoom (zoom_params blank (of_Z 250) (of_Z 250) (of_Z 1))] in
  let r := run (Renderer.constructor test_config) cs in
  le (minScale test_config) (scale (Renderer.getState r)) = true
  /\ le (scale (Renderer.getState r)) (maxScale test_config) = true.
Proof.
  apply (scale_stays_within_bounds test_config).
  - unfold bounds_around_one. simpl. repeat split; reflexivity.
  - repeat constructor.
Defined.

(** ** What the engine writes to the element *)

Section Emission.

Lemma zero_origin_text (r : Renderer.t) (e : HTMLElement) :
  originX (Renderer.state r) = of_Z 0 ->
  originY (Renderer.state r) = of_Z 0 ->
  origin_written "0px 0px" e (Renderer.applyTransform r e).
Proof.
  intros Hx Hy. unfold origin_written.
  destruct (valid_state (Renderer.state r)) eqn:V.
  - right. rewrite (applyTransform_valid r e V). simpl. rewrite Hx, Hy.
    reflexivity.
  - left. now rewrite (applyTransform_invalid r e V).
Qed.

End Emission.

(** X10. On an engine made by the constructor both origins are [0] after
    every run of calls, so a call of [zoom], [panBy] or [panTo] hands the
    element back either as it was or with the transform origin
    ["0px 0px"]: no other origin is ever written, wherever [zoom] was
    pointed. *)
Theorem transform_origin_is_always_zero
    (cfg : IRendererConfig) (cs : list Call) :
  let r := run (Renderer.constructor cfg) cs in
  originX (Renderer.getState r) = of_Z 0
  /\ originY (Renderer.getState r) = of_Z 0
  /\ (forall p, origin_written "0px 0px" (IZoomParams.element p)
                  (Renderer.zoom r p))
  /\ (forall p, origin_written "0px 0px" (IPanByParams.element p)
                  (Renderer.panBy r p))
  /\ (forall p, origin_written "0px 0px" (IPanToParams.element p)
                  (Renderer.panTo r p)).
Proof.
  cbv zeta.
  destruct (run_origin cs (Renderer.constructor cfg) eq_refl eq_refl)
    as [Hx Hy].
  set (r := run (Renderer.constructor cfg) cs) in *.
  split; [exact Hx|]. split; [exact Hy|].
  destruct (Renderer.isActiveFlag r) eqn:Ha.
  - repeat split; intros p.
    + rewrite (zoom_outcome r p Ha). now apply zero_origin_text.
    + rewrite (panBy_outcome r p Ha). now apply zero_origin_text.
    + rewrite (panTo_outcome r p Ha). now apply zero_origin_text.
  - repeat split; intros p; left.
    + now rewrite (zoom_inactive r p Ha).
    + now rewrite (panBy_inactive r p Ha).
    + now rewrite (panTo_inactive r p Ha).
Qed.

(** X11. On an active engine with finite ordered bounds, a finite
    sensitivity other than zero and a finite state, [zoom] with a delta
    other than [NaN] always writes the element: no warning, the
    descriptor of the new scale and the old translation as [transform],
    the origins in pixels as [transformOrigin]. *)
Theorem zoom_always_emits (r : Renderer.t) (p : IZoomParams.t) :
  well_configured r ->
  Number.isFinite (translateX (Renderer.getState r)) = true ->
  Number.isFinite (translateY (Renderer.getState r)) = true ->
  isNaN (IZoomParams.deltaScale p) = false ->
  let o := Renderer.zoom r p in
  warnings o = []
  /\ transform (style (target o))
     = calc.getMatrixTransform (scale (Renderer.getState (this o)))
         (translateX (Renderer.getState r))
         (translateY (Renderer.getState r))
  /\ transformOrigin (style (target o))
     = toString (originX (Renderer.getState r)) ++ "px "
       ++ toString (originY (Renderer.getState r)) ++ "px".
Proof.
  intros Hwc Hx Hy Hd. cbv zeta.
  destruct (zoom_step r p Hwc Hd) as [Hwc' _].
  destruct Hwc' as (_ & _ & _ & _ & _ & _ & Hsc).
  pose proof (proj1 Hwc) as Ha.
  rewrite (zoom_active r p Ha) in Hsc.
  rewrite (zoom_outcome r p Ha).
  rewrite applyTransform_valid.
  - simpl. repeat split; reflexivity.
  - unfold valid_state, calc.isValidTransformation. simpl in *.
    unfold Renderer.getState in *. now rewrite Hsc, Hx, Hy.
Qed.

Lemma zoom_always_emits_witness :
  let o :=
    Renderer.zoom (Renderer.constructor test_config)
      (zoom_params blank (of_Z 250) (of_Z 250) (of_Z 1)) in
  warnings o = []
  /\ transform (style (target o)) = "matrix(1.1, 0, 0, 1.1, 0, 0)".
Proof.
  destruct (zoom_always_emits (Renderer.constructor test_config)
              (zoom_params blank (of_Z 250) (of_Z 250) (of_Z 1)))
    as (H1 & H2 & _).
  - unfold well_configured. simpl. repeat split; reflexivity.
  - reflexivity.
  - reflexivity.
  - reflexivity.
  - split; [exact H1|]. rewrite H2. vm_compute. reflexivity.
Defined.

(** X12. With the bounds the wrong way round, [maxScale < minScale], and
    a sensitivity that is left out (the default [10] then applies) or is a
    finite number other than zero, but not one that holds [undefined],
    every [zoom] with a delta other than [NaN] leaves the scale at
    [minScale]: after any run of such calls (one at least) on a new engine
    the scale is [minScale]. *)
Theorem inverted_bounds_pin_the_scale
    (cfg : IRendererConfig) (ps : list IZoomParams.t) (p : IZoomParams.t) :
  Number.isFinite (minScale cfg) = true ->
  lt (maxScale cfg) (minScale cfg) = true ->
  match scaleSensitivity cfg with
  | Absent => True
  | Undefined => False
  | Value s => Number.isFinite s = true /\ is_zero s = false
  end ->
  Forall (fun q => isNaN (IZoomParams.deltaScale q) = false) (ps ++ [p]) ->
  scale (Renderer.getState (zooms (Renderer.constructor cfg) (ps ++ [p])))
  = minScale cfg.
Proof.
  intros Hlo Hlt Hs Hall.
  assert (Hstep : forall (r : Renderer.t) (q : IZoomParams.t),
             Renderer.config r = Renderer.config (Renderer.constructor cfg) ->
             Renderer.isActiveFlag r = true ->
             Number.isFinite (scale (Renderer.state r)) = true ->
             isNaN (IZoomParams.deltaScale q) = false ->
             let r' := this (Renderer.zoom r q) in
             Renderer.config r' = Renderer.config (Renderer.constructor cfg)
             /\ Renderer.isActiveFlag r' = true
             /\ scale (Renderer.state r') = minScale cfg).
  { intros r q Hc Ha Hsc Hq. cbv zeta. rewrite (zoom_active r q Ha). simpl.
    rewrite Hc. simpl. repeat split; auto.
    apply max_min_inverted; [exact Hlt|].
    apply add_finite_not_nan; [exact Hsc|].
    apply div_finite_not_nan; [exact Hq| |];
      destruct (scaleSensitivity cfg); simpl; tauto || reflexivity. }
  unfold zooms.
  assert (Hgen : forall (r : Renderer.t),
             Renderer.config r = Renderer.config (Renderer.constructor cfg) ->
             Renderer.isActiveFlag r = true ->
             Number.isFinite (scale (Renderer.state r)) = true ->
             scale (Renderer.getState
                      (fold_left (fun r p => this (Renderer.zoom r p))
                         (ps ++ [p]) r))
             = minScale cfg).
  { induction ps as [|a ps IH]; intros r Hc Ha Hsc; simpl in *.
    - inversion_clear Hall as [|? ? Hp _].
      exact (proj2 (proj2 (Hstep r p Hc Ha Hsc Hp))).
    - inversion_clear Hall as [|? ? Hq Hrest].
      destruct (Hstep r a Hc Ha Hsc Hq) as (Hc' & Ha' & Hsc').
      apply (IH Hrest); auto. now rewrite Hsc'. }
  apply Hgen; reflexivity.
Qed.

Lemma inverted_bounds_pin_the_scale_witness :
  let cfg :=
    {| minScale := of_Z 5; maxScale := of_Z 2;
       scaleSensitivity := Value (of_Z 10) |} in
  scale (Renderer.getState
           (zooms (Renderer.constructor cfg)
              ([zoom_params blank (of_Z 0) (of_Z 0) (of_Z (-1))]
               ++ [zoom_params blank (of_Z 0) (of_Z 0) (of_Z 1)])%list))
  = of_Z 5.
Proof.
  apply (inverted_bounds_pin_the_scale
           {| minScale := of_Z 5; maxScale := of_Z 2;
              scaleSensitivity := Value (of_Z 10) |}
           [zoom_params blank (of_Z 0) (of_Z 0) (of_Z (-1))]
           (zoom_params blank (of_Z 0) (of_Z 0) (of_Z 1))).
  - reflexivity.
  - reflexivity.
  - simpl. split; reflexivity.
  - repeat constructor.
Defined.

Section Numerals.

Lemma is_digit_numeral (c : ascii) :
  is_digit c = true -> numeral_char c = true.
Proof. intros H. unfold numeral_char. now rewrite H. Qed.

Lemma digit_string_numeral (n : N) :
  string_forall numeral_char (digit_string n) = true.
Proof.
  apply (string_forall_impl is_digit);
    auto using is_digit_numeral, digit_string_digits.
Qed.

Lemma format_digits_numeral (s k n : Z) :
  string_forall numeral_char (format_digits s k n) = true.
Proof.
  unfold format_digits.
  pose proof (digit_string_numeral (Z.to_N s)) as Hs.
  pose proof (digit_string_numeral (Z.to_N (Z.abs (n - 1)))) as He.
  assert (Hsign : string_forall numeral_char (if n - 1 <? 0 then "-" else "+")
                  = true) by (destruct (n - 1 <? 0); reflexivity).
  repeat match goal with
         | |- context [if ?b && ?c then _ else _] => destruct (b && c)
         | |- context [if ?k =? 1 then _ else _] => destruct (k =? 1)
         end;
    repeat rewrite string_forall_app;
    rewrite ?string_forall_take, ?string_forall_drop, ?string_forall_repeat,
      ?Hs, ?He, ?Hsign by (exact Hs || reflexivity);
    reflexivity.
Qed.

(** The text of a finite number is made of digits, a point, an [e] and
    signs. *)
Lemma toString_numeral (x : number) :
  Number.isFinite x = true ->
  string_forall numeral_char (toString x) = true.
Proof.
  destruct x as [s|[]| |s m e]; try discriminate; try reflexivity.
  intros _. unfold toString, positive_toString.
  rewrite string_forall_app.
  destruct (ratio_of m e) as [p q].
  assert (H : string_forall numeral_char (if s then "-" else "") = true)
    by (destruct s; reflexivity).
  rewrite H, andb_true_l.
  match goal with
  | |- context [shortest ?f ?x ?a ?b ?c ?d] =>
      destruct (shortest f x a b c d) as [[[s' k] n']|]
  end; apply format_digits_numeral.
Qed.

Lemma applyTransform_numeral (r : Renderer.t) (e : HTMLElement) :
  withheld_or_numeral (Renderer.state r) e (Renderer.applyTransform r e).
Proof.
  unfold withheld_or_numeral.
  destruct (valid_state (Renderer.state r)) eqn:V.
  - right. rewrite (applyTransform_valid r e V). cbn [target style transform
      transformOrigin warnings].
    unfold valid_state, calc.isValidTransformation in V.
    apply andb_true_iff in V. destruct V as [V Vy].
    apply andb_true_iff in V. destruct V as [Vs Vx].
    repeat split.
    + exists (toString (scale (Renderer.state r))),
        (toString (translateX (Renderer.state r))),
        (toString (translateY (Renderer.state r))).
      repeat split; auto using toString_numeral.
    + intros Ox Oy.
      exists (toString (originX (Renderer.state r))),
        (toString (originY (Renderer.state r))).
      repeat split; auto using toString_numeral.
  - left. now rewrite (applyTransform_invalid r e V).
Qed.

End Numerals.

(** X26. [zoom], [panBy] and [panTo] on an active engine never write a
    [NaN] or an infinity into the [transform] of the element: either the
    element comes back as it was handed, with the warning written, or no
    warning is written and its [transform] is [matrix(a, 0, 0, a, b, c)]
    with [a], [b], [c] made of digits, a point, an [e] and signs only.
    Its [transformOrigin] is then the text [<originX>px <originY>px] of the
    two origins of the state, which no call changes and [applyTransform]
    does not check: made of such characters too when both origins are
    finite, as they are on every engine the constructor made. *)
Theorem descriptor_is_made_of_numerals (r : Renderer.t) :
  Renderer.isActive r = true ->
  (forall p,
     withheld_or_numeral (Renderer.getState r) (IZoomParams.element p)
       (Renderer.zoom r p))
  /\ (forall p,
        withheld_or_numeral (Renderer.getState r) (IPanByParams.element p)
          (Renderer.panBy r p))
  /\ (forall p,
        withheld_or_numeral (Renderer.getState r) (IPanToParams.element p)
          (Renderer.panTo r p)).
Proof.
  intros Ha. repeat split; intros p.
  - rewrite (zoom_outcome r p Ha).
    exact (applyTransform_numeral (Renderer.set_state r _) _).
  - rewrite (panBy_outcome r p Ha).
    exact (applyTransform_numeral (Renderer.set_state r _) _).
  - rewrite (panTo_outcome r p Ha).
    exact (applyTransform_numeral (Renderer.set_state r _) _).
Qed.

Lemma descriptor_is_made_of_numerals_witness :
  let r := Renderer.constructor test_config in
  withheld_or_numeral (Renderer.getState r) blank
    (Renderer.zoom r
       (zoom_params blank (of_Z 250) (of_Z 250) (S754_infinity false)))
  /\ withheld_or_numeral (Renderer.getState r) blank
       (Renderer.panBy r
          (panBy_params blank (of_Z 50) (S754_infinity false))).
Proof.
  destruct (descriptor_is_made_of_numerals (Renderer.constructor test_config)
              eq_refl) as (Hz & Hp & _).
  split.
  - exact (Hz (zoom_params blank (of_Z 250) (of_Z 250) (S754_infinity false))).
  - exact (Hp (panBy_params blank (of_Z 50) (S754_infinity false))).
Defined.

(** ** src/helpers/mouse-helpers.ts *)

Section Bits.

Lemma ToInt32_range (z : Z) : - 2 ^ 31 <= ToInt32 z < 2 ^ 31.
Proof.
  unfold ToInt32.
  pose proof (Z.mod_pos_bound (z + 2 ^ 31) (2 ^ 32) ltac:(lia)). lia.
Qed.

Lemma ToInt32_small (z : Z) : - 2 ^ 31 <= z < 2 ^ 31 -> ToInt32 z = z.
Proof.
  intros H. unfold ToInt32. rewrite Z.mod_small; lia.
Qed.

(** Above bit 30 a signed 32-bit value repeats its sign bit. *)
Lemma int32_sign_bits (x k : Z) :
  - 2 ^ 31 <= x < 2 ^ 31 -> 31 <= k -> Z.testbit x k = Z.testbit x 31.
Proof.
  intros Hx Hk. destruct (Z.neg_nonneg_cases x) as [Hn|Hp].
  - rewrite !Z.bits_above_log2_neg; auto.
    + destruct (Z.eq_dec x (-1)) as [->|]; [simpl; lia|].
      apply Z.log2_lt_pow2; lia.
    + destruct (Z.eq_dec x (-1)) as [->|]; [simpl; lia|].
      apply Z.lt_le_trans with 31; [|lia].
      apply Z.log2_lt_pow2; lia.
  - destruct (Z.eq_dec x 0) as [->|]; [now rewrite !Z.testbit_0_l|].
    rewrite !Z.bits_above_log2; auto.
    + apply Z.log2_lt_pow2; lia.
    + apply Z.lt_le_trans with 31; [|lia].
      apply Z.log2_lt_pow2; lia.
Qed.

Lemma land_pow2_testbit (x s : Z) :
  0 <= s -> negb (Z.eqb (Z.land x (2 ^ s)) 0) = Z.testbit x s.
Proof.
  intros Hs. destruct (Z.testbit x s) eqn:E.
  - apply negb_true_iff, Z.eqb_neq. intros H0.
    assert (Hb : Z.testbit (Z.land x (2 ^ s)) s = true).
    { rewrite Z.land_spec, E, Z.pow2_bits_true; auto. }
    rewrite H0, Z.testbit_0_l in Hb. discriminate.
  - apply negb_false_iff, Z.eqb_eq. apply Z.bits_inj_0. intros k.
    rewrite Z.land_spec.
    destruct (Z.eq_dec k s) as [->|Hk].
    + now rewrite E.
    + rewrite (Z.pow2_bits_false s k) by congruence. apply andb_false_r.
Qed.

Lemma min_int32_bits (k : Z) :
  0 <= k -> Z.testbit (- 2 ^ 31) k = (31 <=? k).
Proof.
  intros Hk. replace (- 2 ^ 31) with (Z.lnot (Z.ones 31)).
  2:{ rewrite Z.ones_equiv. unfold Z.lnot. lia. }
  rewrite Z.lnot_spec by exact Hk.
  destruct (Z.leb_spec 31 k).
  - rewrite Z.ones_spec_high by lia. reflexivity.
  - rewrite Z.ones_spec_low by lia. reflexivity.
Qed.

Lemma land_min_int32_testbit (x : Z) :
  - 2 ^ 31 <= x < 2 ^ 31 ->
  negb (Z.eqb (Z.land x (- 2 ^ 31)) 0) = Z.testbit x 31.
Proof.
  intros Hx. destruct (Z.testbit x 31) eqn:E.
  - apply negb_true_iff, Z.eqb_neq. intros H0.
    assert (Hb : Z.testbit (Z.land x (- 2 ^ 31)) 31 = true).
    { rewrite Z.land_spec, E, min_int32_bits by lia. reflexivity. }
    rewrite H0, Z.testbit_0_l in Hb. discriminate.
  - apply negb_false_iff, Z.eqb_eq. apply Z.bits_inj_0. intros k.
    rewrite Z.land_spec.
    destruct (Z.neg_nonneg_cases k) as [Hk|Hk].
    + now rewrite !Z.testbit_neg_r.
    + rewrite min_int32_bits by exact Hk.
      destruct (Z.leb_spec 31 k).
      * rewrite (int32_sign_bits x k Hx) by lia. now rewrite E.
      * apply andb_false_r.
Qed.

Lemma shift_left_one (b : Z) :
  shift_left 1 b = if (b mod 32 =? 31) then - 2 ^ 31 else 2 ^ (b mod 32).
Proof.
  unfold shift_left. change (ToInt32 1) with 1.
  pose proof (Z.mod_pos_bound b 32 ltac:(lia)) as Hs.
  rewrite Z.shiftl_1_l.
  destruct (Z.eqb_spec (b mod 32) 31) as [->|Hn]; [reflexivity|].
  apply ToInt32_small.
  assert (0 < 2 ^ (b mod 32)) by (apply Z.pow_pos_nonneg; lia).
  assert (2 ^ (b mod 32) <= 2 ^ 30) by (apply Z.pow_le_mono_r; lia).
  lia.
Qed.

Lemma isButtonPressed_testbit (event : MouseEvent.t) (button : Z) :
  isButtonPressed event button
  = Z.testbit (ToInt32 (MouseEvent.buttons event)) (button mod 32).
Proof.
  unfold isButtonPressed, Boolean, bit_and.
  pose proof (ToInt32_range (MouseEvent.buttons event)) as Hx.
  pose proof (Z.mod_pos_bound button 32 ltac:(lia)) as Hs.
  rewrite shift_left_one.
  destruct (Z.eqb_spec (button mod 32) 31) as [E|Hn].
  - rewrite E. change (ToInt32 (- 2 ^ 31)) with (- 2 ^ 31).
    now apply land_min_int32_testbit.
  - rewrite (ToInt32_small (2 ^ (button mod 32))).
    + apply land_pow2_testbit. lia.
    + assert (0 < 2 ^ (button mod 32)) by (apply Z.pow_pos_nonneg; lia).
      assert (2 ^ (button mod 32) <= 2 ^ 30)
        by (apply Z.pow_le_mono_r; lia).
      lia.
Qed.

End Bits.

(** X13. [isButtonPressed(event, button)] tells whether bit
    [button mod 32] of [event.buttons], read as a signed 32-bit integer, is
    set.  So [getMouseState] reads [leftPressed] from bit 0 (mask 1),
    [middlePressed] from bit 1 (mask 2) and [rightPressed] from bit 2
    (mask 4). *)
Theorem pressed_buttons_are_bits_of_the_mask (event : MouseEvent.t) :
  (forall button : Z,
      isButtonPressed event button
      = Z.testbit (ToInt32 (MouseEvent.buttons event)) (button mod 32))
  /\ MouseState.leftPressed (getMouseState event)
     = Z.testbit (ToInt32 (MouseEvent.buttons event)) 0
  /\ MouseState.middlePressed (getMouseState event)
     = Z.testbit (ToInt32 (MouseEvent.buttons event)) 1
  /\ MouseState.rightPressed (getMouseState event)
     = Z.testbit (ToInt32 (MouseEvent.buttons event)) 2.
Proof.
  repeat split; intros; simpl;
    unfold isLeftPressed, isMiddlePressed, isRightPressed;
    apply isButtonPressed_testbit.
Qed.

(** X14. [getMovementDelta] never gives a [NaN]: a movement that is
    [NaN] becomes the number [0], as does one that is [0] or [-0]; any
    other comes back as it is, and every movement but [NaN] comes back as
    a number [===] to what [getMouseMovement] gives. *)
Theorem movement_delta_is_never_NaN (event : MouseEvent.t) :
  let d := getMovementDelta event in
  isNaN (Movement.movementX d) = false
  /\ isNaN (Movement.movementY d) = false
  /\ (isNaN (MouseEvent.movementX event) = true ->
      Movement.movementX d = of_Z 0)
  /\ (isNaN (MouseEvent.movementY event) = true ->
      Movement.movementY d = of_Z 0)
  /\ (is_zero (MouseEvent.movementX event) = true ->
      Movement.movementX d = of_Z 0)
  /\ (is_zero (MouseEvent.movementY event) = true ->
      Movement.movementY d = of_Z 0)
  /\ (isNaN (MouseEvent.movementX event) = false ->
      is_zero (MouseEvent.movementX event) = false ->
      Movement.movementX d = MouseEvent.movementX event)
  /\ (isNaN (MouseEvent.movementY event) = false ->
      is_zero (MouseEvent.movementY event) = false ->
      Movement.movementY d = MouseEvent.movementY event)
  /\ (isNaN (MouseEvent.movementX event) = false ->
      strict_eq (Movement.movementX d)
        (Movement.movementX (getMouseMovement event)) = true)
  /\ (isNaN (MouseEvent.movementY event) = false ->
      strict_eq (Movement.movementY d)
        (Movement.movementY (getMouseMovement event)) = true).
Proof.
  cbv zeta. unfold getMovementDelta, getMouseMovement, or_else.
  cbn [Movement.movementX Movement.movementY].
  repeat split.
  - destruct (MouseEvent.movementX event); reflexivity.
  - destruct (MouseEvent.movementY event); reflexivity.
  - intros H. rewrite H. now rewrite orb_true_r.
  - intros H. rewrite H. now rewrite orb_true_r.
  - intros H. now rewrite H.
  - intros H. now rewrite H.
  - intros H1 H2. now rewrite H1, H2.
  - intros H1 H2. now rewrite H1, H2.
  - destruct (MouseEvent.movementX event) as [[]|[]| |[] m e];
      try discriminate; intros _; try reflexivity;
      apply (strict_eq_refl (S754_finite _ m e)); reflexivity.
  - destruct (MouseEvent.movementY event) as [[]|[]| |[] m e];
      try discriminate; intros _; try reflexivity;
      apply (strict_eq_refl (S754_finite _ m e)); reflexivity.
Qed.

(** X15. The five button predicates agree with the table of names: each
    holds exactly if [getButtonName] of the button of the event is its
    name, [isMiddleClick] is [isMiddleButton], and the name is ["Unknown"]
    exactly for the buttons outside [0..4]. *)
Theorem button_names_match_the_predicates (event : MouseEvent.t) :
  let name := getButtonName (whichMouseButton event) in
  isLeftButton event = String.eqb name "Left"
  /\ isMiddleButton event = String.eqb name "Middle"
  /\ isRightButton event = String.eqb name "Right"
  /\ isBackButton event = String.eqb name "Back"
  /\ isForwardButton event = String.eqb name "Forward"
  /\ isMiddleClick event = String.eqb name "Middle"
  /\ (name = "Unknown"
      <-> MouseEvent.button event < 0 \/ 4 < MouseEvent.button event).
Proof.
  cbv zeta.
  unfold getButtonName, buttons, whichMouseButton, isLeftButton,
    isMiddleButton, isRightButton, isBackButton, isForwardButton,
    isMiddleClick, isMiddleButton, MouseButton.Left, MouseButton.Middle,
    MouseButton.Right, MouseButton.Back, MouseButton.Forward.
  destruct (Z.eqb_spec (MouseEvent.button event) 0) as [->|N0];
    [repeat split; try reflexivity; try discriminate; lia|].
  destruct (Z.eqb_spec (MouseEvent.button event) 1) as [->|N1];
    [repeat split; try reflexivity; try discriminate; lia|].
  destruct (Z.eqb_spec (MouseEvent.button event) 2) as [->|N2];
    [repeat split; try reflexivity; try discriminate; lia|].
  destruct (Z.eqb_spec (MouseEvent.button event) 3) as [->|N3];
    [repeat split; try reflexivity; try discriminate; lia|].
  destruct (Z.eqb_spec (MouseEvent.button event) 4) as [->|N4];
    [repeat split; try reflexivity; try discriminate; lia|].
  repeat split; try reflexivity; intros; lia.
Qed.

(** ** The hook [useZoomPan] *)

Section Hook.

Lemma sign_positive (d : number) : gt (sign d) (of_Z 0) = lt (of_Z 0) d.
Proof. destruct d as [[]|[]| |[] m e]; reflexivity. Qed.

Lemma hook_panTo_active (api : useZoomPan.t) (params : PanToCall.t)
    (page : Page) :
  Renderer.isActiveFlag (useZoomPan.renderer api) = true ->
  useZoomPan.panTo api params page
  = let o :=
      Renderer.panTo (useZoomPan.renderer api)
        {| IPanToParams.element := elements page (useZoomPan.element api);
           IPanToParams.originX := PanToCall.x params;
           IPanToParams.originY := PanToCall.y params;
           IPanToParams.scale := PanToCall.scale params |} in
    (useZoomPan.set_renderer api (this o),
     commit page (useZoomPan.element api) o).
Proof.
  intros H. unfold useZoomPan.panTo, Renderer.panTo. rewrite H. reflexivity.
Qed.

Lemma hook_panTo_renderer (api : useZoomPan.t) (params : PanToCall.t)
    (page : Page) :
  useZoomPan.renderer (fst (useZoomPan.panTo api params page))
  = Renderer.set_state (useZoomPan.renderer api)
      {| originX := originX (Renderer.state (useZoomPan.renderer api));
         originY := originY (Renderer.state (useZoomPan.renderer api));
         translateX := PanToCall.x params;
         translateY := PanToCall.y params;
         scale :=
           match PanToCall.scale params with
           | Some v =>
               Math.max (minScale (Renderer.config (useZoomPan.renderer api)))
                 (Math.min
                    (maxScale (Renderer.config (useZoomPan.renderer api))) v)
           | None => scale (Renderer.state (useZoomPan.renderer api))
           end |}.
Proof.
  unfold useZoomPan.panTo. cbn [fst useZoomPan.set_renderer useZoomPan.renderer].
  rewrite applyTransform_this.
  destruct (PanToCall.scale params); reflexivity.
Qed.

Lemma hook_panTo_element (api : useZoomPan.t) (params : PanToCall.t)
    (page : Page) :
  valid_state
    (Renderer.state (useZoomPan.renderer (fst (useZoomPan.panTo api params page))))
  = true ->
  transform
    (style (elements (snd (useZoomPan.panTo api params page))
              (useZoomPan.element api)))
  = calc.getMatrixTransform
      (scale (Renderer.state
                (useZoomPan.renderer (fst (useZoomPan.panTo api params page)))))
      (PanToCall.x params) (PanToCall.y params).
Proof.
  rewrite hook_panTo_renderer. intros V. unfold useZoomPan.panTo.
  cbn [snd commit elements]. rewrite Nat.eqb_refl.
  rewrite applyTransform_valid.
  - destruct (PanToCall.scale params); reflexivity.
  - destruct (PanToCall.scale params); exact V.
Qed.

Lemma hook_zoom_inactive (api : useZoomPan.t)
    (event : WheelEvent.t + ZoomCall.t) (page : Page) :
  Renderer.isActiveFlag (useZoomPan.renderer api) = false ->
  fst (useZoomPan.zoom api event page) = api
  /\ forall k, elements (snd (useZoomPan.zoom api event page)) k
               = elements page k.
Proof.
  intros H. destruct api as [r ref]. simpl in H.
  destruct event as [e|e]; unfold useZoomPan.zoom;
    cbn [useZoomPan.set_renderer useZoomPan.renderer useZoomPan.element];
    rewrite zoom_inactive by exact H; (split; [reflexivity|]);
    intros k; cbn [snd commit elements target IZoomParams.element];
    match goal with
    | |- context [Nat.eqb k ?x] => destruct (Nat.eqb_spec k x) as [->|]
    end; reflexivity.
Qed.

Lemma hook_panBy_inactive (api : useZoomPan.t) (event : Movement.t)
    (page : Page) :
  Renderer.isActiveFlag (useZoomPan.renderer api) = false ->
  fst (useZoomPan.panBy api event page) = api
  /\ forall k, elements (snd (useZoomPan.panBy api event page)) k
               = elements page k.
Proof.
  intros H. destruct api as [r ref]. simpl in H.
  unfold useZoomPan.panBy;
    cbn [useZoomPan.set_renderer useZoomPan.renderer useZoomPan.element];
    rewrite panBy_inactive by exact H; (split; [reflexivity|]);
    intros k; cbn [snd commit elements target IPanByParams.element];
    match goal with
    | |- context [Nat.eqb k ?x] => destruct (Nat.eqb_spec k x) as [->|]
    end; reflexivity.
Qed.

End Hook.

(** X16. While the renderer is active, [panTo] of the hook, which writes
    the state of the renderer itself, does what [renderer.panTo] does when
    handed the element of the hook and the same target and scale: the
    same renderer, the same element, the same warnings. *)
Theorem hook_panTo_is_renderer_panTo
    (api : useZoomPan.t) (params : PanToCall.t) (page : Page) :
  Renderer.isActive (useZoomPan.renderer api) = true ->
  let o :=
    Renderer.panTo (useZoomPan.renderer api)
      {| IPanToParams.element := elements page (useZoomPan.element api);
         IPanToParams.originX := PanToCall.x params;
         IPanToParams.originY := PanToCall.y params;
         IPanToParams.scale := PanToCall.scale params |} in
  useZoomPan.panTo api params page
  = (useZoomPan.set_renderer api (this o),
     commit page (useZoomPan.element api) o).
Proof. intros H. cbv zeta. now rewrite hook_panTo_active. Qed.

Lemma hook_panTo_is_renderer_panTo_witness :
  let api := zoomPan.api (zoomPan.create element_only) in
  let params :=
    {| PanToCall.x := of_Z 100; PanToCall.y := of_Z 150;
       PanToCall.scale := Some (of_Z 2) |} in
  let o :=
    Renderer.panTo (useZoomPan.renderer api)
      {| IPanToParams.element := elements blank_page (useZoomPan.element api);
         IPanToParams.originX := of_Z 100;
         IPanToParams.originY := of_Z 150;
         IPanToParams.scale := Some (of_Z 2) |} in
  useZoomPan.panTo api params blank_page
  = (useZoomPan.set_renderer api (this o),
     commit blank_page (useZoomPan.element api) o).
Proof.
  apply (hook_panTo_is_renderer_panTo
           (zoomPan.api (zoomPan.create element_only))
           {| PanToCall.x := of_Z 100; PanToCall.y := of_Z 150;
              PanToCall.scale := Some (of_Z 2) |}
           blank_page).
  reflexivity.
Defined.

(** X17. [panTo] of the hook does not look at the active flag.  After
    [renderer.destroy()] it still stores the target as the translation and
    the clamped scale (the old scale if none is given), and writes the
    descriptor to the element if the state is finite, while the renderer
    stays inactive; [zoom] and [panBy] of the hook then change neither the
    hook nor any element. *)
Theorem hook_panTo_ignores_destroy
    (api : useZoomPan.t) (params : PanToCall.t) (page : Page) :
  let destroyed :=
    useZoomPan.set_renderer api (Renderer.destroy (useZoomPan.renderer api)) in
  let after := useZoomPan.panTo destroyed params page in
  Renderer.isActive (useZoomPan.renderer (fst after)) = false
  /\ translateX (useZoomPan.getState (fst after)) = PanToCall.x params
  /\ translateY (useZoomPan.getState (fst after)) = PanToCall.y params
  /\ scale (useZoomPan.getState (fst after))
     = match PanToCall.scale params with
       | Some v =>
           Math.max (minScale (Renderer.config (useZoomPan.renderer api)))
             (Math.min (maxScale (Renderer.config (useZoomPan.renderer api))) v)
       | None => scale (useZoomPan.getState api)
       end
  /\ (valid_state (useZoomPan.getState (fst after)) = true ->
      transform (style (elements (snd after) (useZoomPan.element api)))
      = calc.getMatrixTransform (scale (useZoomPan.getState (fst after)))
          (PanToCall.x params) (PanToCall.y params))
  /\ (forall event,
        fst (useZoomPan.zoom destroyed event page) = destroyed
        /\ forall k, elements (snd (useZoomPan.zoom destroyed event page)) k
                     = elements page k)
  /\ (forall event,
        fst (useZoomPan.panBy destroyed event page) = destroyed
        /\ forall k, elements (snd (useZoomPan.panBy destroyed event page)) k
                     = elements page k).
Proof.
  cbv zeta.
  set (destroyed := useZoomPan.set_renderer api _).
  assert (Hd : Renderer.isActiveFlag (useZoomPan.renderer destroyed) = false)
    by reflexivity.
  pose proof (hook_panTo_renderer destroyed params page) as Hr.
  pose proof (hook_panTo_element destroyed params page) as He.
  unfold useZoomPan.getState, Renderer.getState, Renderer.isActive.
  split; [now rewrite Hr|].
  split; [now rewrite Hr|].
  split; [now rewrite Hr|].
  split; [rewrite Hr; destruct (PanToCall.scale params); reflexivity|].
  split; [exact He|].
  split; intros event.
  - now apply hook_zoom_inactive.
  - now apply hook_panBy_inactive.
Qed.

(** X18. [zoom] of the hook reads of a wheel event its point and the
    sign of [deltaY] only: it does what the manual call with
    [deltaScale = -1] does if [deltaY > 0], and what the manual call with
    [deltaScale = 1] does otherwise, also when [deltaY] is [0] or [NaN]. *)
Theorem wheel_zoom_reads_only_the_sign
    (api : useZoomPan.t) (event : WheelEvent.t) (page : Page) :
  useZoomPan.zoom api (inl event) page
  = useZoomPan.zoom api
      (inr {| ZoomCall.element := None;
              ZoomCall.x := MouseEvent.pageX (WheelEvent.mouse event);
              ZoomCall.y := MouseEvent.pageY (WheelEvent.mouse event);
              ZoomCall.deltaScale :=
                if lt (of_Z 0) (WheelEvent.deltaY event)
                then of_Z (-1) else of_Z 1 |})
      page.
Proof.
  unfold useZoomPan.zoom. cbn [ZoomCall.element ZoomCall.x ZoomCall.y
                                 ZoomCall.deltaScale].
  now rewrite sign_positive.
Qed.

(** X19. A manual [zoom] through the hook that carries an element
    hands that element to the renderer, not the element of the hook: the
    element of the call is what [renderer.zoom] leaves, and every other
    element of the page, the hook's own included if it is another, is as
    it was. *)
Theorem manual_zoom_writes_the_element_of_the_call
    (api : useZoomPan.t) (event : ZoomCall.t) (page : Page) (ref : Ref) :
  ZoomCall.element event = Some ref ->
  let o :=
    Renderer.zoom (useZoomPan.renderer api)
      {| IZoomParams.element := elements page ref;
         IZoomParams.x := ZoomCall.x event;
         IZoomParams.y := ZoomCall.y event;
         IZoomParams.deltaScale := ZoomCall.deltaScale event |} in
  let after := useZoomPan.zoom api (inr event) page in
  useZoomPan.renderer (fst after) = this o
  /\ elements (snd after) ref = target o
  /\ (forall k, k <> ref -> elements (snd after) k = elements page k).
Proof.
  intros H. cbv zeta. unfold useZoomPan.zoom. rewrite H.
  cbn [fst snd useZoomPan.set_renderer useZoomPan.renderer commit elements].
  rewrite Nat.eqb_refl. repeat split.
  intros k Hk. apply Nat.eqb_neq in Hk. now rewrite Hk.
Qed.

Lemma manual_zoom_writes_the_element_of_the_call_witness :
  let api := zoomPan.api (zoomPan.create element_only) in
  let event :=
    {| ZoomCall.element := Some 7%nat; ZoomCall.x := of_Z 250;
       ZoomCall.y := of_Z 250; ZoomCall.deltaScale := of_Z 1 |} in
  let after := useZoomPan.zoom api (inr event) blank_page in
  transform (style (elements (snd after) 7%nat))
  = "matrix(1.02, 0, 0, 1.02, 0, 0)"
  /\ elements (snd after) (useZoomPan.element api) = blank.
Proof.
  cbv zeta.
  destruct (manual_zoom_writes_the_element_of_the_call
              (zoomPan.api (zoomPan.create element_only))
              {| ZoomCall.element := Some 7%nat; ZoomCall.x := of_Z 250;
                 ZoomCall.y := of_Z 250; ZoomCall.deltaScale := of_Z 1 |}
              blank_page 7%nat eq_refl) as (_ & H2 & H3).
  split.
  - rewrite H2. vm_compute. reflexivity.
  - rewrite H3; [reflexivity|discriminate].
Defined.

(** ** The helper [zoomPan] *)

Section ApiCalls.

Lemma zoom_translate (r : Renderer.t) (p : IZoomParams.t) :
  translateX (Renderer.state (this (Renderer.zoom r p)))
  = translateX (Renderer.state r)
  /\ translateY (Renderer.state (this (Renderer.zoom r p)))
     = translateY (Renderer.state r).
Proof.
  destruct (Renderer.isActiveFlag r) eqn:H.
  - rewrite (zoom_active r p H). split; reflexivity.
  - rewrite (zoom_inactive r p H). split; reflexivity.
Qed.

Lemma panBy_scale (r : Renderer.t) (p : IPanByParams.t) :
  scale (Renderer.state (this (Renderer.panBy r p)))
  = scale (Renderer.state r).
Proof.
  destruct (Renderer.isActiveFlag r) eqn:H.
  - now rewrite (panBy_active r p H).
  - now rewrite (panBy_inactive r p H).
Qed.

Lemma hook_zoom_renderer (api : useZoomPan.t)
    (event : WheelEvent.t + ZoomCall.t) (page : Page) :
  exists p : IZoomParams.t,
    useZoomPan.renderer (fst (useZoomPan.zoom api event page))
    = invoke (useZoomPan.renderer api) (CallZoom p)
    /\ IZoomParams.deltaScale p
       = match event with
         | inl e => if lt (of_Z 0) (WheelEvent.deltaY e)
                    then of_Z (-1) else of_Z 1
         | inr e => ZoomCall.deltaScale e
         end.
Proof.
  destruct event as [e|e]; unfold useZoomPan.zoom;
    cbn [fst useZoomPan.set_renderer useZoomPan.renderer invoke];
    eexists; (split; [reflexivity|]); cbn [IZoomParams.deltaScale];
    [now rewrite sign_positive | reflexivity].
Qed.

Lemma hook_panBy_renderer (api : useZoomPan.t) (event : Movement.t)
    (page : Page) :
  useZoomPan.renderer (fst (useZoomPan.panBy api event page))
  = invoke (useZoomPan.renderer api)
      (CallPanBy
         {| IPanByParams.element := elements page (useZoomPan.element api);
            IPanByParams.originX := Movement.movementX event;
            IPanByParams.originY := Movement.movementY event |}).
Proof. reflexivity. Qed.

(** The renderer of the hook, while it is active, goes through a call of
    the API as through a call of its own methods. *)
Lemma api_call_invoke (st : useZoomPan.t * Page) (c : ApiCall) :
  Renderer.isActiveFlag (useZoomPan.renderer (fst st)) = true ->
  api_arguments_ok c ->
  exists c' : Call,
    useZoomPan.renderer (fst (api_call st c))
    = invoke (useZoomPan.renderer (fst st)) c'
    /\ scale_arguments_ok c' /\ is_destroy c' = false.
Proof.
  intros Ha Hok. destruct st as [api page]. cbn [fst] in Ha.
  destruct c as [e|e|p].
  - change (api_call (api, page) (ApiZoom e))
      with (useZoomPan.zoom api e page).
    destruct (hook_zoom_renderer api e page) as (q & E & D).
    exists (CallZoom q). split; [exact E|]. split; [|reflexivity].
    simpl. rewrite D. destruct e as [e|e]; [|exact Hok].
    now destruct (lt _ _).
  - change (api_call (api, page) (ApiPanBy e))
      with (useZoomPan.panBy api e page).
    eexists. split; [apply hook_panBy_renderer|]. split; [exact I|reflexivity].
  - exists (CallPanTo
              {| IPanToParams.element :=
                   elements page (useZoomPan.element api);
                 IPanToParams.originX := PanToCall.x p;
                 IPanToParams.originY := PanToCall.y p;
                 IPanToParams.scale := PanToCall.scale p |}).
    change (api_call (api, page) (ApiPanTo p))
      with (useZoomPan.panTo api p page).
    rewrite (hook_panTo_active api p page Ha).
    split; [reflexivity|]. split; [exact Hok|reflexivity].
Qed.

End ApiCalls.

Section Helper.

Variable config : IZoomPanHelperConfig.t.
Hypothesis Hcfg : bounds_around_one (renderer_config config).

Lemma helper_created :
  useZoomPan.renderer (zoomPan.api (zoomPan.create config))
  = Renderer.constructor (renderer_config config).
Proof. reflexivity. Qed.

(** What every happening keeps. *)
Lemma happen_keeps_bounds (st : zoomPan.t * Page) (h : Happening) :
  happening_ok h ->
  keeps_bounds (renderer_config config)
    (useZoomPan.renderer (zoomPan.api (fst st)))
  /\ Renderer.isActiveFlag (useZoomPan.renderer (zoomPan.api (fst st))) = true ->
  keeps_bounds (renderer_config config)
    (useZoomPan.renderer (zoomPan.api (fst (happen st h))))
  /\ Renderer.isActiveFlag
       (useZoomPan.renderer (zoomPan.api (fst (happen st h)))) = true.
Proof.
  intros Hok [Hk Ha]. destruct st as [z page]. simpl fst in *.
  assert (Hstep : forall c : ApiCall,
             api_arguments_ok c ->
             keeps_bounds (renderer_config config)
               (useZoomPan.renderer (fst (api_call (zoomPan.api z, page) c)))
             /\ Renderer.isActiveFlag
                  (useZoomPan.renderer (fst (api_call (zoomPan.api z, page) c)))
                = true).
  { intros c Hc.
    destruct (api_call_invoke (zoomPan.api z, page) c Ha Hc)
      as (c' & E & Hc' & Hd).
    rewrite E. split.
    - now apply invoke_keeps_bounds.
    - rewrite invoke_isActive. simpl fst. now rewrite Ha, Hd. }
  destruct h as [e|e|e| |c|]; unfold happen.
  - destruct (zoomPan.onWheel z); [|now split].
    unfold zoomPan.handleWheel.
    pose proof (Hstep (ApiZoom (inl e)) I) as Hz. unfold api_call in Hz.
    cbn [fst snd] in Hz.
    destruct (useZoomPan.zoom (zoomPan.api z) (inl e) page) as [a page'].
    destruct (negb (zoomPan.enableZoom z)); [now split|].
    destruct (negb (isCtrlKey (WheelEvent.mouse e)));
      [destruct (negb (zoomPan.enableMouseWheel z)); [now split|]|];
      exact Hz.
  - destruct (zoomPan.onMouseDown z); [|now split].
    unfold zoomPan.handleMouseDown.
    destruct (negb (zoomPan.enablePan z) || negb (isLeftButton e)); now split.
  - destruct (zoomPan.onMouseMove z); [|now split].
    unfold zoomPan.handleMouseMove.
    pose proof (Hstep (ApiPanBy (getMouseMovement e)) I) as Hz.
    unfold api_call in Hz. cbn [fst snd] in Hz.
    destruct (useZoomPan.panBy (zoomPan.api z) (getMouseMovement e) page)
      as [a page'].
    destruct (negb (zoomPan.isPanning z) || negb (zoomPan.enablePan z)
              || negb (isShiftKey e)); [now split|exact Hz].
  - destruct (zoomPan.onMouseUp z); now split.
  - pose proof (Hstep c Hok) as Hz.
    destruct (api_call (zoomPan.api z, page) c) as [a page']. exact Hz.
  - now split.
Qed.

Lemma happenings_keep_bounds (hs : list Happening) (st : zoomPan.t * Page) :
  Forall happening_ok hs ->
  keeps_bounds (renderer_config config)
    (useZoomPan.renderer (zoomPan.api (fst st)))
  /\ Renderer.isActiveFlag (useZoomPan.renderer (zoomPan.api (fst st))) = true ->
  keeps_bounds (renderer_config config)
    (useZoomPan.renderer (zoomPan.api (fst (happenings st hs))))
  /\ Renderer.isActiveFlag
       (useZoomPan.renderer (zoomPan.api (fst (happenings st hs)))) = true.
Proof.
  revert st. induction hs as [|h hs IH]; intros st Hall Hk; [exact Hk|].
  inversion_clear Hall as [|? ? Hh Hrest].
  change (happenings st (h :: hs)) with (happenings (happen st h) hs).
  apply IH; [exact Hrest|]. now apply happen_keeps_bounds.
Qed.

End Helper.

(** X20. For an instance of [zoomPan] whose bounds, defaults filled in,
    are finite with [minScale <= 1 <= maxScale] and whose sensitivity is
    finite and not zero, the scale is within the bounds after every run of
    events, calls of the API and calls of [destroy], provided the manual
    deltas and scales are not [NaN].  With no option given the bounds are
    [0.1] and [30]. *)
Theorem helper_scale_stays_within_bounds
    (config : IZoomPanHelperConfig.t) (page : Page) (hs : list Happening) :
  bounds_around_one (renderer_config config) ->
  Forall happening_ok hs ->
  let z := fst (happenings (zoomPan.create config, page) hs) in
  le (minScale (renderer_config config)) (scale (helper_state z)) = true
  /\ le (scale (helper_state z)) (maxScale (renderer_config config)) = true.
Proof.
  intros Hcfg Hall. cbv zeta.
  destruct (happenings_keep_bounds config Hcfg hs (zoomPan.create config, page)
              Hall) as [[Hc Hb] _].
  - split; [|reflexivity]. apply (constructor_keeps_bounds _ Hcfg).
  - unfold scale_in_bounds in Hb. rewrite Hc in Hb.
    now apply andb_true_iff in Hb.
Qed.

Lemma helper_scale_stays_within_bounds_witness :
  let hs :=
    [OnWheel (wheel_event (of_Z (-100)) true);
     OnMouseDown
       (mouse_event 0 (of_Z 10) (of_Z 10) (of_Z 0) (of_Z 0) false true);
     OnMouseMove
       (mouse_event 0 (of_Z 15) (of_Z 12) (of_Z 5) (of_Z 2) false true);
     CallApi (ApiPanTo {| PanToCall.x := of_Z 1; PanToCall.y := of_Z 2;
                          PanToCall.scale := Some (of_Z 1000) |});
     OnMouseUp] in
  let z := fst (happenings (zoomPan.create element_only, blank_page) hs) in
  le (minScale (renderer_config element_only)) (scale (helper_state z)) = true
  /\ le (scale (helper_state z)) (maxScale (renderer_config element_only))
     = true.
Proof.
  apply (helper_scale_stays_within_bounds element_only blank_page).
  - unfold bounds_around_one. simpl. repeat split; reflexivity.
  - repeat constructor.
Defined.

Section HelperEvents.

Lemma happenings_cons (st : zoomPan.t * Page) (h : Happening)
    (hs : list Happening) :
  happenings st (h :: hs) = happenings (happen st h) hs.
Proof. reflexivity. Qed.

(** With no listener registered an event runs nothing. *)
Lemma happen_unregistered (z : zoomPan.t) (page : Page) (h : Happening) :
  zoomPan.onWheel z = false -> zoomPan.onMouseDown z = false ->
  zoomPan.onMouseMove z = false -> zoomPan.onMouseUp z = false ->
  is_event h = true ->
  happen (z, page) h = (z, page).
Proof.
  intros H1 H2 H3 H4 He. destruct h; try discriminate; unfold happen;
    now rewrite ?H1, ?H2, ?H3, ?H4.
Qed.

Lemma happenings_unregistered (hs : list Happening) (z : zoomPan.t)
    (page : Page) :
  zoomPan.onWheel z = false -> zoomPan.onMouseDown z = false ->
  zoomPan.onMouseMove z = false -> zoomPan.onMouseUp z = false ->
  forallb is_event hs = true ->
  happenings (z, page) hs = (z, page).
Proof.
  intros H1 H2 H3 H4. induction hs as [|h hs IH]; intros He; [reflexivity|].
  simpl in He. apply andb_true_iff in He. destruct He as [Hh Hrest].
  rewrite happenings_cons, (happen_unregistered z page h); auto.
Qed.

(** The wheel handler leaves alone the translation, the pan flag and the
    listeners; the mouse handlers leave alone the scale. *)
Lemma handleWheel_frame (z : zoomPan.t) (e : WheelEvent.t) (page : Page) :
  let z' := closure (zoomPan.handleWheel z e page) in
  translateX (helper_state z') = translateX (helper_state z)
  /\ translateY (helper_state z') = translateY (helper_state z)
  /\ zoomPan.isPanning z' = zoomPan.isPanning z
  /\ zoomPan.enablePan z' = zoomPan.enablePan z
  /\ zoomPan.enableZoom z' = zoomPan.enableZoom z
  /\ zoomPan.enableMouseWheel z' = zoomPan.enableMouseWheel z
  /\ zoomPan.onWheel z' = zoomPan.onWheel z
  /\ zoomPan.onMouseDown z' = zoomPan.onMouseDown z
  /\ zoomPan.onMouseMove z' = zoomPan.onMouseMove z
  /\ zoomPan.onMouseUp z' = zoomPan.onMouseUp z.
Proof.
  cbv zeta. unfold zoomPan.handleWheel.
  assert (Hz : translateX (useZoomPan.getState
                             (fst (useZoomPan.zoom (zoomPan.api z) (inl e) page)))
               = translateX (helper_state z)
               /\ translateY (useZoomPan.getState
                                (fst (useZoomPan.zoom (zoomPan.api z) (inl e) page)))
                  = translateY (helper_state z)).
  { unfold useZoomPan.zoom, helper_state, useZoomPan.getState,
      Renderer.getState.
    cbn [fst useZoomPan.set_renderer useZoomPan.renderer].
    apply zoom_translate. }
  destruct (useZoomPan.zoom (zoomPan.api z) (inl e) page) as [a page'].
  cbn [fst] in Hz.
  destruct (negb (zoomPan.enableZoom z)); [cbn; tauto|].
  destruct (negb (isCtrlKey (WheelEvent.mouse e)));
    [destruct (negb (zoomPan.enableMouseWheel z)); [cbn; tauto|]|];
    cbn [closure zoomPan.set_api]; unfold helper_state at 1 3;
    cbn [zoomPan.api zoomPan.isPanning zoomPan.enablePan zoomPan.enableZoom
         zoomPan.enableMouseWheel zoomPan.onWheel zoomPan.onMouseDown
         zoomPan.onMouseMove zoomPan.onMouseUp]; tauto.
Qed.

End HelperEvents.

Section HelperGestures.

Lemma handleMouseMove_frame (z : zoomPan.t) (e : MouseEvent.t) (page : Page) :
  let z' := closure (zoomPan.handleMouseMove z e page) in
  scale (helper_state z') = scale (helper_state z)
  /\ zoomPan.isPanning z' = zoomPan.isPanning z
  /\ zoomPan.enablePan z' = zoomPan.enablePan z
  /\ zoomPan.enableZoom z' = zoomPan.enableZoom z
  /\ zoomPan.enableMouseWheel z' = zoomPan.enableMouseWheel z
  /\ zoomPan.onWheel z' = zoomPan.onWheel z
  /\ zoomPan.onMouseDown z' = zoomPan.onMouseDown z
  /\ zoomPan.onMouseMove z' = zoomPan.onMouseMove z
  /\ zoomPan.onMouseUp z' = zoomPan.onMouseUp z
  /\ (zoomPan.isPanning z = false \/ zoomPan.enablePan z = false
      \/ isShiftKey e = false ->
      z' = z).
Proof.
  cbv zeta. unfold zoomPan.handleMouseMove.
  assert (Hz : scale (useZoomPan.getState
                        (fst (useZoomPan.panBy (zoomPan.api z)
                                (getMouseMovement e) page)))
               = scale (helper_state z)).
  { unfold useZoomPan.panBy, helper_state, useZoomPan.getState,
      Renderer.getState.
    cbn [fst useZoomPan.set_renderer useZoomPan.renderer].
    apply panBy_scale. }
  destruct (useZoomPan.panBy (zoomPan.api z) (getMouseMovement e) page)
    as [a page'].
  cbn [fst] in Hz.
  destruct (zoomPan.isPanning z) eqn:E1, (zoomPan.enablePan z) eqn:E2,
    (isShiftKey e) eqn:E3;
    cbn [negb orb closure zoomPan.untouched zoomPan.set_api];
    unfold helper_state at 1;
    cbn [zoomPan.api zoomPan.isPanning zoomPan.enablePan zoomPan.enableZoom
         zoomPan.enableMouseWheel zoomPan.onWheel zoomPan.onMouseDown
         zoomPan.onMouseMove zoomPan.onMouseUp];
    repeat split; auto; try (intros [|[|]]; discriminate).
Qed.

(** An event or [destroy] pans only by a [mousemove] with Shift that finds
    its listener registered and panning enabled. *)
Lemma happen_translate (z : zoomPan.t) (page : Page) (h : Happening) :
  is_api_call h = false ->
  zoomPan.enablePan z = false \/ zoomPan.onMouseMove z = false
  \/ shifted_move h = false ->
  translateX (helper_state (fst (happen (z, page) h)))
  = translateX (helper_state z)
  /\ translateY (helper_state (fst (happen (z, page) h)))
     = translateY (helper_state z).
Proof.
  intros Hapi Hno. destruct h as [e|e|e| |c|]; try discriminate; unfold happen.
  - destruct (zoomPan.onWheel z); [|now split].
    cbn [fst]. destruct (handleWheel_frame z e page) as (H1 & H2 & _).
    now split.
  - destruct (zoomPan.onMouseDown z); [|now split].
    unfold zoomPan.handleMouseDown.
    destruct (negb (zoomPan.enablePan z) || negb (isLeftButton e)); now split.
  - destruct (zoomPan.onMouseMove z) eqn:Hm; [|now split].
    cbn [fst].
    destruct (handleMouseMove_frame z e page) as (_ & _ & _ & _ & _ & _ & _ & _ & _ & Hsame).
    rewrite Hsame; [now split|].
    destruct Hno as [Hp|[Hl|Hs]]; auto. discriminate.
  - destruct (zoomPan.onMouseUp z); now split.
  - now split.
Qed.

(** The drag listeners appear by a [mousedown] of the left button only, and
    the switches of the configuration never change. *)
Lemma happen_switches (z : zoomPan.t) (page : Page) (h : Happening) :
  let z' := fst (happen (z, page) h) in
  zoomPan.enablePan z' = zoomPan.enablePan z
  /\ zoomPan.enableZoom z' = zoomPan.enableZoom z
  /\ zoomPan.enableMouseWheel z' = zoomPan.enableMouseWheel z
  /\ (zoomPan.onMouseMove z' = true ->
      zoomPan.onMouseMove z = true \/ left_down h = true).
Proof.
  cbv zeta. destruct h as [e|e|e| |c|]; unfold happen.
  - destruct (zoomPan.onWheel z); [|cbn; tauto].
    cbn [fst].
    destruct (handleWheel_frame z e page)
      as (_ & _ & _ & H1 & H2 & H3 & _ & _ & H4 & _).
    rewrite H1, H2, H3, H4. tauto.
  - destruct (zoomPan.onMouseDown z); [|cbn; tauto].
    unfold zoomPan.handleMouseDown, left_down.
    destruct (zoomPan.enablePan z) eqn:E1, (isLeftButton e) eqn:E2; cbn;
      rewrite ?E1; tauto.
  - destruct (zoomPan.onMouseMove z) eqn:Em; [|cbn; rewrite Em; tauto].
    cbn [fst].
    destruct (handleMouseMove_frame z e page)
      as (_ & _ & H1 & H2 & H3 & _ & _ & H4 & _).
    rewrite H1, H2, H3, H4. tauto.
  - destruct (zoomPan.onMouseUp z); cbn; intuition discriminate.
  - destruct (api_call (zoomPan.api z, page) c) as [a page']. cbn. tauto.
  - cbn. intuition discriminate.
Qed.

Lemma happenings_translate (hs : list Happening) (z : zoomPan.t)
    (page : Page) :
  forallb (fun h => negb (is_api_call h)) hs = true ->
  zoomPan.enablePan z = false
  \/ (zoomPan.onMouseMove z = false /\ existsb left_down hs = false)
  \/ existsb shifted_move hs = false ->
  translateX (helper_state (fst (happenings (z, page) hs)))
  = translateX (helper_state z)
  /\ translateY (helper_state (fst (happenings (z, page) hs)))
     = translateY (helper_state z).
Proof.
  revert z page. induction hs as [|h hs IH]; intros z page Hapi Hno;
    [now split|].
  simpl in Hapi. apply andb_true_iff in Hapi. destruct Hapi as [Hh Hrest].
  apply negb_true_iff in Hh.
  rewrite happenings_cons.
  destruct (happen (z, page) h) as [z' page'] eqn:E.
  pose proof (happen_switches z page h) as Hsw. cbv zeta in Hsw.
  rewrite E in Hsw. cbn [fst] in Hsw.
  destruct Hsw as (Hp & _ & _ & Hm).
  assert (Hstep : zoomPan.enablePan z = false \/ zoomPan.onMouseMove z = false
                  \/ shifted_move h = false).
  { destruct Hno as [H|[[H _]|H]]; auto.
    simpl in H. apply orb_false_iff in H. tauto. }
  pose proof (happen_translate z page h Hh Hstep) as Ht.
  rewrite E in Ht. cbn [fst] in Ht. destruct Ht as [Hx Hy].
  rewrite <- Hx, <- Hy. apply IH; [exact Hrest|].
  destruct Hno as [H|[[H1 H2]|H]].
  - left. congruence.
  - right. left. simpl in H2. apply orb_false_iff in H2.
    destruct H2 as [H2 H3]. split; [|exact H3].
    destruct (zoomPan.onMouseMove z') eqn:Em; [|reflexivity].
    destruct (Hm eq_refl); congruence.
  - right. right. simpl in H. apply orb_false_iff in H. tauto.
Qed.

End HelperGestures.

(** X21. Events alone pan only by a drag with the left button and
    Shift: after a run of events (and calls of [destroy], none of the API)
    on a new instance the translation is still [0, 0] if [enablePan] is
    [false], or no [mousedown] of the run is of the left button, or no
    [mousemove] of the run has Shift held. *)
Theorem panning_needs_a_left_drag_with_shift
    (config : IZoomPanHelperConfig.t) (page : Page) (hs : list Happening) :
  forallb (fun h => negb (is_api_call h)) hs = true ->
  IZoomPanHelperConfig.enablePan config = Some false
  \/ existsb left_down hs = false
  \/ existsb shifted_move hs = false ->
  let z := fst (happenings (zoomPan.create config, page) hs) in
  translateX (helper_state z) = of_Z 0
  /\ translateY (helper_state z) = of_Z 0.
Proof.
  intros Hapi Hno. cbv zeta.
  apply (happenings_translate hs (zoomPan.create config) page Hapi).
  destruct Hno as [H|[H|H]].
  - left. cbn. now rewrite H.
  - right. left. split; [reflexivity|exact H].
  - right. right. exact H.
Qed.

Lemma panning_needs_a_left_drag_with_shift_witness :
  let hs :=
    [OnMouseDown
       (mouse_event 0 (of_Z 10) (of_Z 10) (of_Z 0) (of_Z 0) false false);
     OnMouseMove
       (mouse_event 0 (of_Z 15) (of_Z 12) (of_Z 5) (of_Z 2) false false);
     OnMouseUp] in
  let z := fst (happenings (zoomPan.create element_only, blank_page) hs) in
  translateX (helper_state z) = of_Z 0
  /\ translateY (helper_state z) = of_Z 0.
Proof.
  apply (panning_needs_a_left_drag_with_shift element_only blank_page).
  - reflexivity.
  - right. right. reflexivity.
Defined.

Section HelperZoom.

(** An event or [destroy] changes the scale only by a [wheel] event that
    zooming is enabled for and that has Ctrl held, unless every wheel event
    may zoom. *)
Lemma happen_scale (z : zoomPan.t) (page : Page) (h : Happening) :
  is_api_call h = false ->
  zoomPan.enableZoom z = false
  \/ zooming_wheel (zoomPan.enableMouseWheel z) h = false ->
  scale (helper_state (fst (happen (z, page) h))) = scale (helper_state z).
Proof.
  intros Hapi Hno. destruct h as [e|e|e| |c|]; try discriminate; unfold happen.
  - destruct (zoomPan.onWheel z); [|reflexivity].
    unfold zoomPan.handleWheel.
    destruct (useZoomPan.zoom (zoomPan.api z) (inl e) page) as [a page'].
    destruct (zoomPan.enableZoom z) eqn:Ez; [|reflexivity].
    destruct Hno as [Hno|Hno]; [discriminate|].
    unfold zooming_wheel in Hno. apply orb_false_iff in Hno.
    destruct Hno as [Hc Hw]. rewrite Hc, Hw. reflexivity.
  - destruct (zoomPan.onMouseDown z); [|reflexivity].
    unfold zoomPan.handleMouseDown.
    destruct (negb (zoomPan.enablePan z) || negb (isLeftButton e));
      reflexivity.
  - destruct (zoomPan.onMouseMove z); [|reflexivity].
    cbn [fst]. now destruct (handleMouseMove_frame z e page) as (H & _).
  - destruct (zoomPan.onMouseUp z); reflexivity.
  - reflexivity.
Qed.

Lemma happenings_scale (hs : list Happening) (z : zoomPan.t) (page : Page) :
  forallb (fun h => negb (is_api_call h)) hs = true ->
  zoomPan.enableZoom z = false
  \/ existsb (zooming_wheel (zoomPan.enableMouseWheel z)) hs = false ->
  scale (helper_state (fst (happenings (z, page) hs)))
  = scale (helper_state z).
Proof.
  revert z page. induction hs as [|h hs IH]; intros z page Hapi Hno;
    [reflexivity|].
  simpl in Hapi. apply andb_true_iff in Hapi. destruct Hapi as [Hh Hrest].
  apply negb_true_iff in Hh.
  rewrite happenings_cons.
  destruct (happen (z, page) h) as [z' page'] eqn:E.
  pose proof (happen_switches z page h) as Hsw. cbv zeta in Hsw.
  rewrite E in Hsw. cbn [fst] in Hsw.
  destruct Hsw as (_ & Hz & Hw & _).
  assert (Hstep : zoomPan.enableZoom z = false
                  \/ zooming_wheel (zoomPan.enableMouseWheel z) h = false).
  { destruct Hno as [H|H]; auto.
    simpl in H. apply orb_false_iff in H. tauto. }
  pose proof (happen_scale z page h Hh Hstep) as Hs.
  rewrite E in Hs. cbn [fst] in Hs.
  rewrite <- Hs. apply IH; [exact Hrest|].
  destruct Hno as [H|H].
  - left. congruence.
  - right. rewrite Hw. simpl in H. apply orb_false_iff in H. tauto.
Qed.

End HelperZoom.

(** X22. Events alone zoom only by the wheel with Ctrl, or by any wheel
    event under [enableMouseWheel]: after a run of events (and calls of
    [destroy], none of the API) on a new instance the scale is still [1]
    if [enableZoom] is [false], or if [enableMouseWheel] is not set and no
    [wheel] event of the run has Ctrl held. *)
Theorem zooming_needs_ctrl_or_the_wheel_option
    (config : IZoomPanHelperConfig.t) (page : Page) (hs : list Happening) :
  forallb (fun h => negb (is_api_call h)) hs = true ->
  IZoomPanHelperConfig.enableZoom config = Some false
  \/ existsb
       (zooming_wheel
          (default_bool false (IZoomPanHelperConfig.enableMouseWheel config)))
       hs = false ->
  let z := fst (happenings (zoomPan.create config, page) hs) in
  scale (helper_state z) = of_Z 1.
Proof.
  intros Hapi Hno. cbv zeta.
  apply (happenings_scale hs (zoomPan.create config) page Hapi).
  destruct Hno as [H|H].
  - left. cbn. now rewrite H.
  - right. exact H.
Qed.

Lemma zooming_needs_ctrl_or_the_wheel_option_witness :
  let hs :=
    [OnWheel (wheel_event (of_Z 100) false);
     OnWheel (wheel_event (of_Z (-100)) false)] in
  let z := fst (happenings (zoomPan.create element_only, blank_page) hs) in
  scale (helper_state z) = of_Z 1.
Proof.
  apply (zooming_needs_ctrl_or_the_wheel_option element_only blank_page).
  - reflexivity.
  - right. reflexivity.
Defined.

Section HelperListeners.

(** Without a call of [destroy] the two listeners set up at the start stay,
    and the listeners of a drag follow [isPanning]. *)
Lemma happen_registered (z : zoomPan.t) (page : Page) (h : Happening) :
  is_helper_destroy h = false ->
  zoomPan.onWheel z = true -> zoomPan.onMouseDown z = true ->
  zoomPan.onMouseMove z = zoomPan.isPanning z ->
  zoomPan.onMouseUp z = zoomPan.isPanning z ->
  let z' := fst (happen (z, page) h) in
  zoomPan.onWheel z' = true /\ zoomPan.onMouseDown z' = true
  /\ zoomPan.onMouseMove z' = zoomPan.isPanning z'
  /\ zoomPan.onMouseUp z' = zoomPan.isPanning z'.
Proof.
  intros Hd H1 H2 H3 H4. cbv zeta.
  destruct h as [e|e|e| |c|]; try discriminate; unfold happen.
  - rewrite H1. cbn [fst].
    destruct (handleWheel_frame z e page)
      as (_ & _ & E0 & _ & _ & _ & E1 & E2 & E3 & E4).
    rewrite E0, E1, E2, E3, E4. repeat split; auto.
  - rewrite H2. unfold zoomPan.handleMouseDown.
    destruct (negb (zoomPan.enablePan z) || negb (isLeftButton e)); cbn; repeat split; auto.
  - destruct (zoomPan.onMouseMove z) eqn:Em; [|cbn; rewrite Em; repeat split; auto].
    cbn [fst].
    destruct (handleMouseMove_frame z e page)
      as (_ & E0 & _ & _ & _ & E1 & E2 & E3 & E4 & _).
    rewrite E0, E1, E2, E3, E4, Em. repeat split; auto.
  - destruct (zoomPan.onMouseUp z) eqn:Eu; [cbn; repeat split; auto|cbn; rewrite Eu; repeat split; auto].
  - destruct (api_call (zoomPan.api z, page) c) as [a page']. cbn. repeat split; auto.
Qed.

(** After [destroy] no listener is registered, and none comes back. *)
Lemma happen_destroyed (z : zoomPan.t) (page : Page) (h : Happening) :
  zoomPan.onWheel z = false -> zoomPan.onMouseDown z = false ->
  zoomPan.onMouseMove z = false -> zoomPan.onMouseUp z = false ->
  let z' := fst (happen (z, page) h) in
  zoomPan.onWheel z' = false /\ zoomPan.onMouseDown z' = false
  /\ zoomPan.onMouseMove z' = false /\ zoomPan.onMouseUp z' = false.
Proof.
  intros H1 H2 H3 H4. cbv zeta. destruct h as [e|e|e| |c|]; unfold happen;
    rewrite ?H1, ?H2, ?H3, ?H4; try (cbn; repeat split; assumption).
  destruct (api_call (zoomPan.api z, page) c) as [a page']. cbn.
  repeat split; assumption.
Qed.

Lemma happenings_listeners (hs : list Happening) (z : zoomPan.t)
    (page : Page) :
  let z' := fst (happenings (z, page) hs) in
  (zoomPan.onWheel z = false /\ zoomPan.onMouseDown z = false
   /\ zoomPan.onMouseMove z = false /\ zoomPan.onMouseUp z = false ->
   zoomPan.onWheel z' = false /\ zoomPan.onMouseDown z' = false
   /\ zoomPan.onMouseMove z' = false /\ zoomPan.onMouseUp z' = false)
  /\ (zoomPan.onWheel z = true /\ zoomPan.onMouseDown z = true
      /\ zoomPan.onMouseMove z = zoomPan.isPanning z
      /\ zoomPan.onMouseUp z = zoomPan.isPanning z ->
      if existsb is_helper_destroy hs
      then zoomPan.onWheel z' = false /\ zoomPan.onMouseDown z' = false
           /\ zoomPan.onMouseMove z' = false /\ zoomPan.onMouseUp z' = false
      else zoomPan.onWheel z' = true /\ zoomPan.onMouseDown z' = true
           /\ zoomPan.onMouseMove z' = zoomPan.isPanning z'
           /\ zoomPan.onMouseUp z' = zoomPan.isPanning z').
Proof.
  cbv zeta. revert z page. induction hs as [|h hs IH]; intros z page.
  - split; intros H; exact H.
  - rewrite happenings_cons.
    destruct (happen (z, page) h) as [z1 page1] eqn:E.
    destruct (IH z1 page1) as [IH1 IH2].
    split.
    + intros (H1 & H2 & H3 & H4). apply IH1.
      pose proof (happen_destroyed z page h H1 H2 H3 H4) as Hd.
      cbv zeta in Hd. rewrite E in Hd. exact Hd.
    + intros (H1 & H2 & H3 & H4). simpl existsb.
      destruct (is_helper_destroy h) eqn:Ed.
      * simpl. apply IH1. destruct h; try discriminate.
        unfold happen in E. inversion E. cbn. repeat split; reflexivity.
      * simpl. apply IH2.
        pose proof (happen_registered z page h Ed H1 H2 H3 H4) as Hr.
        cbv zeta in Hr. rewrite E in Hr. exact Hr.
Qed.

End HelperListeners.

(** X23. The listeners of an instance after any run of events and calls:
    once [destroy] was called none of the four is registered, whatever
    came after; until then [wheel] and [mousedown] are registered, and
    [mousemove] and [mouseup] are registered exactly while [isPanning] is
    set, so that a drag that has ended leaves no listener behind. *)
Theorem listeners_follow_the_drag_and_destroy_removes_all
    (config : IZoomPanHelperConfig.t) (page : Page) (hs : list Happening) :
  let z := fst (happenings (zoomPan.create config, page) hs) in
  if existsb is_helper_destroy hs
  then zoomPan.onWheel z = false /\ zoomPan.onMouseDown z = false
       /\ zoomPan.onMouseMove z = false /\ zoomPan.onMouseUp z = false
  else zoomPan.onWheel z = true /\ zoomPan.onMouseDown z = true
       /\ zoomPan.onMouseMove z = zoomPan.isPanning z
       /\ zoomPan.onMouseUp z = zoomPan.isPanning z.
Proof.
  cbv zeta.
  apply (proj2 (happenings_listeners hs (zoomPan.create config) page)).
  cbn. repeat split; reflexivity.
Qed.

(** X24. After [destroy] of the helper no event changes anything: every
    run of [wheel], [mousedown], [mousemove] and [mouseup] events leaves
    the instance, its renderer and the page as they were. *)
Theorem destroyed_helper_hears_no_event
    (z : zoomPan.t) (page : Page) (hs : list Happening) :
  forallb is_event hs = true ->
  happenings (zoomPan.destroy z, page) hs = (zoomPan.destroy z, page).
Proof.
  intros H. now apply happenings_unregistered.
Qed.

Lemma destroyed_helper_hears_no_event_witness :
  let hs :=
    [OnWheel (wheel_event (of_Z (-100)) true);
     OnMouseDown
       (mouse_event 0 (of_Z 10) (of_Z 10) (of_Z 0) (of_Z 0) false true);
     OnMouseMove
       (mouse_event 0 (of_Z 15) (of_Z 12) (of_Z 5) (of_Z 2) false true);
     OnMouseUp] in
  happenings (zoomPan.destroy (zoomPan.create element_only), blank_page) hs
  = (zoomPan.destroy (zoomPan.create element_only), blank_page).
Proof.
  apply (destroyed_helper_hears_no_event (zoomPan.create element_only)
           blank_page).
  reflexivity.
Defined.

Section HelperRelease.

Lemma happenings_app (st : zoomPan.t * Page) (hs1 hs2 : list Happening) :
  happenings st (hs1 ++ hs2)%list = happenings (happenings st hs1) hs2.
Proof. apply fold_left_app. Qed.

(** After a [mouseup] the listener of [mousemove] is not registered. *)
Lemma mouseup_releases (config : IZoomPanHelperConfig.t) (page : Page)
    (hs : list Happening) :
  zoomPan.onMouseMove
    (fst (happenings (zoomPan.create config, page) (hs ++ [OnMouseUp])%list))
  = false.
Proof.
  rewrite happenings_app.
  pose proof (proj2 (happenings_listeners hs (zoomPan.create config) page))
    as H.
  cbv zeta in H.
  destruct (happenings (zoomPan.create config, page) hs) as [z page1].
  cbn [fst] in H.
  assert (H0 : zoomPan.onWheel (zoomPan.create config) = true
               /\ zoomPan.onMouseDown (zoomPan.create config) = true
               /\ zoomPan.onMouseMove (zoomPan.create config)
                  = zoomPan.isPanning (zoomPan.create config)
               /\ zoomPan.onMouseUp (zoomPan.create config)
                  = zoomPan.isPanning (zoomPan.create config))
    by (cbn; repeat split; reflexivity).
  specialize (H H0).
  change (happenings (z, page1) [OnMouseUp]) with (happen (z, page1) OnMouseUp).
  unfold happen.
  destruct (existsb is_helper_destroy hs).
  - destruct H as (_ & _ & Hm & Hu). rewrite Hu. exact Hm.
  - destruct H as (_ & _ & Hm & Hu).
    destruct (zoomPan.onMouseUp z) eqn:Eu; [reflexivity|].
    cbn [fst]. congruence.
Qed.

End HelperRelease.

(** X27. A [mouseup] ends the drag: whatever happened to an instance
    before it, after a [mouseup] no run of events (and calls of [destroy],
    none of the API) pans until a [mousedown] of the left button comes:
    the translation stays what it was at the [mouseup]. *)
Theorem mouseup_ends_the_drag
    (config : IZoomPanHelperConfig.t) (page : Page)
    (before after : list Happening) :
  forallb (fun h => negb (is_api_call h)) after = true ->
  existsb left_down after = false ->
  let released :=
    happenings (zoomPan.create config, page) (before ++ [OnMouseUp])%list in
  let z := fst (happenings released after) in
  translateX (helper_state z) = translateX (helper_state (fst released))
  /\ translateY (helper_state z) = translateY (helper_state (fst released)).
Proof.
  intros Hapi Hno. cbv zeta.
  pose proof (mouseup_releases config page before) as Hm.
  destruct (happenings (zoomPan.create config, page)
              (before ++ [OnMouseUp])%list) as [z1 page1].
  cbn [fst] in *.
  apply (happenings_translate after z1 page1 Hapi).
  right. left. split; assumption.
Qed.

Lemma mouseup_ends_the_drag_witness :
  let before :=
    [OnMouseDown
       (mouse_event 0 (of_Z 10) (of_Z 10) (of_Z 0) (of_Z 0) false true);
     OnMouseMove
       (mouse_event 0 (of_Z 15) (of_Z 12) (of_Z 5) (of_Z 2) false true)] in
  let after :=
    [OnMouseMove
       (mouse_event 0 (of_Z 30) (of_Z 40) (of_Z 15) (of_Z 28) false true)] in
  let z :=
    fst (happenings
           (happenings (zoomPan.create element_only, blank_page)
              (before ++ [OnMouseUp])%list)
           after) in
  translateX (helper_state z) = of_Z 5
  /\ translateY (helper_state z) = of_Z 2.
Proof.
  cbv zeta.
  destruct (mouseup_ends_the_drag element_only blank_page
              [OnMouseDown
                 (mouse_event 0 (of_Z 10) (of_Z 10) (of_Z 0) (of_Z 0) false true);
               OnMouseMove
                 (mouse_event 0 (of_Z 15) (of_Z 12) (of_Z 5) (of_Z 2) false true)]
              [OnMouseMove
                 (mouse_event 0 (of_Z 30) (of_Z 40) (of_Z 15) (of_Z 28)
                    false true)]
              eq_refl eq_refl) as [Hx Hy].
  split; [rewrite Hx|rewrite Hy]; vm_compute; reflexivity.
Defined.

(** ** The helper [zoomPanWithPointer] *)

Section Pointer.

Lemma pointer_moves_cons (st : zoomPanWithPointer.t * Page)
    (e : MouseEvent.t) (events : list MouseEvent.t) :
  pointer_moves st (e :: events)
  = pointer_moves
      (if zoomPanWithPointer.onPointerMove (fst st)
       then zoomPanWithPointer.handlePointerMove (fst st) e (snd st)
       else st)
      events.
Proof. reflexivity. Qed.

Lemma last_shifted_cons (p : Point.t) (e : MouseEvent.t)
    (events : list MouseEvent.t) :
  last_shifted p (e :: events)
  = last_shifted (if isShiftKey e then position e else p) events.
Proof. reflexivity. Qed.

(** One [pointermove] with Shift held, during a drag. *)
Lemma handlePointerMove_shifted (z : zoomPanWithPointer.t) (e : MouseEvent.t)
    (page : Page) :
  zoomPanWithPointer.isPointerDown z = true ->
  isShiftKey e = true ->
  Renderer.isActiveFlag (useZoomPan.renderer (zoomPanWithPointer.api z)) = true ->
  let z' := fst (zoomPanWithPointer.handlePointerMove z e page) in
  zoomPanWithPointer.isPointerDown z' = true
  /\ zoomPanWithPointer.onPointerMove z' = zoomPanWithPointer.onPointerMove z
  /\ Renderer.isActiveFlag (useZoomPan.renderer (zoomPanWithPointer.api z'))
     = true
  /\ zoomPanWithPointer.lastPointerPosition z' = position e
  /\ translateX (pointer_state z')
     = (translateX (pointer_state z)
        + (MouseEvent.pageX e
           - Point.x (zoomPanWithPointer.lastPointerPosition z)))%js
  /\ translateY (pointer_state z')
     = (translateY (pointer_state z)
        + (MouseEvent.pageY e
           - Point.y (zoomPanWithPointer.lastPointerPosition z)))%js.
Proof.
  intros Hd Hs Ha. cbv zeta. unfold zoomPanWithPointer.handlePointerMove.
  rewrite Hd, Hs. cbn [negb orb].
  unfold useZoomPan.panBy, pointer_state, useZoomPan.getState,
    Renderer.getState.
  cbn [fst zoomPanWithPointer.set_lastPointerPosition
       zoomPanWithPointer.set_api zoomPanWithPointer.api
       zoomPanWithPointer.isPointerDown zoomPanWithPointer.onPointerMove
       zoomPanWithPointer.lastPointerPosition
       useZoomPan.set_renderer useZoomPan.renderer Point.x Point.y].
  rewrite (panBy_active _ _ Ha).
  cbn. repeat split; auto.
Qed.

Lemma pointer_moves_follow (events : list MouseEvent.t) :
  forall (z : zoomPanWithPointer.t) (page : Page) (x0 y0 xl yl : Z),
    Forall at_whole_point events ->
    Z.abs x0 <= 2 ^ 50 -> Z.abs y0 <= 2 ^ 50 ->
    Z.abs xl <= 2 ^ 50 -> Z.abs yl <= 2 ^ 50 ->
    zoomPanWithPointer.isPointerDown z = true ->
    zoomPanWithPointer.onPointerMove z = true ->
    Renderer.isActiveFlag (useZoomPan.renderer (zoomPanWithPointer.api z))
    = true ->
    zoomPanWithPointer.lastPointerPosition z
    = {| Point.x := of_Z xl; Point.y := of_Z yl |} ->
    translateX (pointer_state z) = of_Z (xl - x0) ->
    translateY (pointer_state z) = of_Z (yl - y0) ->
    let z' := fst (pointer_moves (z, page) events) in
    let last :=
      last_shifted {| Point.x := of_Z xl; Point.y := of_Z yl |} events in
    translateX (pointer_state z') = (Point.x last - of_Z x0)%js
    /\ translateY (pointer_state z') = (Point.y last - of_Z y0)%js
    /\ zoomPanWithPointer.lastPointerPosition z' = last.
Proof.
  induction events as [|e events IH];
    intros z page x0 y0 xl yl Hall Bx0 By0 Bxl Byl Hd Hm Ha Hl Hx Hy.
  - cbn. rewrite Hx, Hy, Hl.
    rewrite !sub_of_Z; unfold safe_integer; auto; lia.
  - inversion_clear Hall as [|? ? He Hrest].
    cbv zeta. rewrite pointer_moves_cons, last_shifted_cons.
    cbn [fst snd]. rewrite Hm.
    destruct (isShiftKey e) eqn:Hs.
    + destruct He as [(xc & Bxc & Ex) (yc & Byc & Ey)].
      pose proof (handlePointerMove_shifted z e page Hd Hs Ha) as Hstep.
      cbv zeta in Hstep.
      destruct (zoomPanWithPointer.handlePointerMove z e page) as [z1 page1].
      cbn [fst] in Hstep.
      destruct Hstep as (Hd1 & Hm1 & Ha1 & Hl1 & Hx1 & Hy1).
      unfold position. rewrite Ex, Ey.
      apply (IH z1 page1 x0 y0 xc yc); auto.
      * congruence.
      * rewrite Hl1. unfold position. now rewrite Ex, Ey.
      * rewrite Hx1, Hx, Hl, Ex. cbn [Point.x].
        rewrite sub_of_Z, add_of_Z; unfold safe_integer; try lia.
        f_equal. ring.
      * rewrite Hy1, Hy, Hl, Ey. cbn [Point.y].
        rewrite sub_of_Z, add_of_Z; unfold safe_integer; try lia.
        f_equal. ring.
    + assert (Hsame : zoomPanWithPointer.handlePointerMove z e page
                      = (z, page)).
      { unfold zoomPanWithPointer.handlePointerMove.
        rewrite Hs, Hd. reflexivity. }
      rewrite Hsame. apply (IH z page x0 y0 xl yl); auto.
Qed.

End Pointer.

(** X25. A drag under [zoomPanWithPointer] follows the pointer from one
    move with Shift to the next.  After a [pointerdown] of the left button
    on a new instance and any run of [pointermove] events, at whole points
    of the page, the translation is the last point reached with Shift held
    minus the point of the [pointerdown], with nothing lost to rounding,
    wherever the moves without Shift went in between; and that last point
    is what the helper remembers. *)
Theorem pointer_drag_follows_the_pointer
    (config : IZoomPanHelperConfig.t) (page : Page)
    (down : MouseEvent.t) (moves : list MouseEvent.t) :
  isLeftButton down = true ->
  at_whole_point down ->
  Forall at_whole_point moves ->
  let z0 :=
    zoomPanWithPointer.handlePointerDown
      (zoomPanWithPointer.create config) down in
  let z := fst (pointer_moves (z0, page) moves) in
  let last := last_shifted (position down) moves in
  translateX (pointer_state z)
  = (Point.x last - MouseEvent.pageX down)%js
  /\ translateY (pointer_state z)
     = (Point.y last - MouseEvent.pageY down)%js
  /\ zoomPanWithPointer.lastPointerPosition z = last.
Proof.
  intros Hleft [(x0 & Bx & Ex) (y0 & By & Ey)] Hall. cbv zeta.
  unfold position at 1 2 3. rewrite Ex, Ey.
  apply (pointer_moves_follow moves _ page x0 y0 x0 y0); auto;
    unfold zoomPanWithPointer.handlePointerDown; rewrite Hleft;
    cbn [negb]; try reflexivity.
  - cbn. now rewrite Ex, Ey.
  - rewrite Z.sub_diag. reflexivity.
  - rewrite Z.sub_diag. reflexivity.
Qed.

Lemma pointer_drag_follows_the_pointer_witness :
  let down :=
    mouse_event 0 (of_Z 10) (of_Z 20) (of_Z 0) (of_Z 0) false false in
  let moves :=
    [mouse_event 0 (of_Z 15) (of_Z 25) (of_Z 0) (of_Z 0) false false;
     mouse_event 0 (of_Z 30) (of_Z 45) (of_Z 0) (of_Z 0) false true] in
  let z :=
    fst (pointer_moves
           (zoomPanWithPointer.handlePointerDown
              (zoomPanWithPointer.create element_only) down, blank_page)
           moves) in
  translateX (pointer_state z) = of_Z 20
  /\ translateY (pointer_state z) = of_Z 25.
Proof.
  cbv zeta.
  destruct (pointer_drag_follows_the_pointer element_only blank_page
              (mouse_event 0 (of_Z 10) (of_Z 20) (of_Z 0) (of_Z 0) false false)
              [mouse_event 0 (of_Z 15) (of_Z 25) (of_Z 0) (of_Z 0) false false;
               mouse_event 0 (of_Z 30) (of_Z 45) (of_Z 0) (of_Z 0) false true])
    as (Hx & Hy & _).
  - reflexivity.
  - split; [exists 10|exists 20]; split; (reflexivity || (simpl; lia)).
  - repeat constructor;
      [exists 15|exists 25|exists 30|exists 45]; split;
      (reflexivity || (simpl; lia)).
  - split; [rewrite Hx|rewrite Hy]; vm_compute; reflexivity.
Defined.
